(** * Supermodel (Sega Model 3 emulator): DRPPC interface header and the
      Real3D OpenGL renderer, as a shallow embedding.

    Sources embedded here:
    - [m3/drppc/drppc.h]: status codes, memory regions and the region
      macros, the basic-block record, the configuration record and
      [DRPPC_ZERO_THRESHOLD];
    - [r3dgl.c]: [GETWORDLE]/[GETWORDBE], [translate_r3d_address],
      [draw_model_be]/[draw_model_le] and [r3dgl_upload_texture]; the
      texture decoders [draw_texture_8]/[draw_texture_16] and their tile
      loops; [get_matrix], [draw_list], [draw_block] and [draw_scene].

    Conventions: a [UINT32] is a [Z] in [0, 2^32) with the wrap-around
    written out ([u32]); a [UINT8] is a [Byte.byte]; a C pointer is either
    [NULL] or a buffer together with a byte offset; [BOOL] is [bool]. *)

From Stdlib Require Import ZArith QArith Lia Bool List.
From Stdlib Require Import Strings.Byte.
From stdpp Require Import base list gmap.

Local Open Scope Z_scope.

(** ** Machine integers *)

Definition u32 (x : Z) : Z := x mod 2 ^ 32.

Definition is_u32 (x : Z) : Prop := 0 <= x < 2 ^ 32.

(** [(INT32) x] for a [UINT32] value [x]: two's complement. *)
Definition s32 (x : Z) : Z := if x <? 2 ^ 31 then x else x - 2 ^ 32.

Definition byte_val (b : byte) : Z := Z.of_N (Byte.to_N b).

(** ** drppc.h *)

(** *** Error codes

    [DRPPC_TERMINATOR] carries no initialiser: as a C enumerator it takes
    the value of its predecessor, [DRPPC_OKAY = 0], plus one. *)

Inductive DRPPC_ERRNUM : Set :=
  | DRPPC_ERROR
  | DRPPC_INVALID_CONFIG
  | DRPPC_BAD_PC
  | DRPPC_OUT_OF_MEMORY
  | DRPPC_COMPILE_ERROR
  | DRPPC_RUNTIME_ERROR
  | DRPPC_OKAY
  | DRPPC_TERMINATOR.

Definition errnum_value (e : DRPPC_ERRNUM) : Z :=
  match e with
  | DRPPC_ERROR => -1
  | DRPPC_INVALID_CONFIG => -2
  | DRPPC_BAD_PC => -3
  | DRPPC_OUT_OF_MEMORY => -4
  | DRPPC_COMPILE_ERROR => -5
  | DRPPC_RUNTIME_ERROR => -6
  | DRPPC_OKAY => 0
  | DRPPC_TERMINATOR => 0 + 1
  end.

(** Every enumerator of the type, in declaration order. *)
Definition DRPPC_ERRNUM_all : list DRPPC_ERRNUM :=
  [DRPPC_ERROR; DRPPC_INVALID_CONFIG; DRPPC_BAD_PC; DRPPC_OUT_OF_MEMORY;
   DRPPC_COMPILE_ERROR; DRPPC_RUNTIME_ERROR; DRPPC_OKAY; DRPPC_TERMINATOR].

(** The header sets [DRPPC_TERMINATOR] apart as "used internally"; the
    other enumerators are what entry points hand back to the host. *)
Definition internal_only (e : DRPPC_ERRNUM) : bool :=
  match e with
  | DRPPC_TERMINATOR => true
  | _ => false
  end.

Definition is_error (e : DRPPC_ERRNUM) : bool :=
  match e with
  | DRPPC_OKAY | DRPPC_TERMINATOR => false
  | _ => true
  end.

(** *** Memory regions

    [struct drppc_region].  Pointers are kept as addresses, with [NULL]
    the null address; [end] is a keyword here, hence [end_]. *)

Definition NULL : Z := 0.
Definition TRUE : bool := true.
Definition FALSE : bool := false.

Record DRPPC_REGION : Set := mk_region {
  start : Z;
  end_ : Z;
  ptr : Z;
  handler : Z;
  volatile_ptr : bool;
  big_endian : bool
}.

(** The standard region initialisers.  The pointer casts applied to [buf]
    and [handler] leave the address unchanged. *)

Definition DRPPC_REGION_BUF_BE (start end_ buf : Z) (vol : bool) : DRPPC_REGION :=
  {| start := start; end_ := end_; ptr := buf; handler := NULL;
     volatile_ptr := vol; big_endian := TRUE |}.

(** The parameter list of this macro is [(start, end, buf, flags)], yet its
    replacement text names [vol].  [vol] is thus no parameter of the macro:
    after expansion it denotes whatever object called [vol] is visible where
    the macro is used.  That object is the argument [vol_in_scope] below;
    the fourth macro argument, [flags], does not occur in the expansion. *)
Definition DRPPC_REGION_BUF_LE (vol_in_scope : bool)
    (start end_ buf : Z) (flags : bool) : DRPPC_REGION :=
  {| start := start; end_ := end_; ptr := buf; handler := NULL;
     volatile_ptr := vol_in_scope; big_endian := FALSE |}.

Definition DRPPC_REGION_HANDLER (start end_ h : Z) : DRPPC_REGION :=
  {| start := start; end_ := end_; ptr := NULL; handler := h;
     volatile_ptr := FALSE; big_endian := FALSE |}.

Definition DRPPC_REGION_END : DRPPC_REGION :=
  {| start := 0; end_ := 0; ptr := NULL; handler := NULL;
     volatile_ptr := FALSE; big_endian := FALSE |}.

Definition DRPPC_REGION_PLACEHOLDER : DRPPC_REGION :=
  {| start := 0xFFFFFFFF; end_ := 0xFFFFFFFF; ptr := NULL; handler := NULL;
     volatile_ptr := FALSE; big_endian := FALSE |}.

(** The in-place editors assign all six fields of [r], one after the
    other; the result is [r] after the last assignment.  The arguments
    are values here: the macros substitute text, so this is the editor
    used with argument expressions that neither read [r] nor have side
    effects, [_buf] and [_h] being what the cast expressions evaluate
    to. *)

Definition set_start (x : Z) (r : DRPPC_REGION) : DRPPC_REGION :=
  mk_region x (end_ r) (ptr r) (handler r) (volatile_ptr r) (big_endian r).
Definition set_end (x : Z) (r : DRPPC_REGION) : DRPPC_REGION :=
  mk_region (start r) x (ptr r) (handler r) (volatile_ptr r) (big_endian r).
Definition set_ptr (x : Z) (r : DRPPC_REGION) : DRPPC_REGION :=
  mk_region (start r) (end_ r) x (handler r) (volatile_ptr r) (big_endian r).
Definition set_handler (x : Z) (r : DRPPC_REGION) : DRPPC_REGION :=
  mk_region (start r) (end_ r) (ptr r) x (volatile_ptr r) (big_endian r).
Definition set_volatile_ptr (x : bool) (r : DRPPC_REGION) : DRPPC_REGION :=
  mk_region (start r) (end_ r) (ptr r) (handler r) x (big_endian r).
Definition set_big_endian (x : bool) (r : DRPPC_REGION) : DRPPC_REGION :=
  mk_region (start r) (end_ r) (ptr r) (handler r) (volatile_ptr r) x.

Definition DRPPC_SET_REGION_BUF_BE (r : DRPPC_REGION)
    (_start _end _buf : Z) (_vol : bool) : DRPPC_REGION :=
  set_big_endian TRUE (set_volatile_ptr _vol (set_handler NULL
    (set_ptr _buf (set_end _end (set_start _start r))))).

Definition DRPPC_SET_REGION_BUF_LE (r : DRPPC_REGION)
    (_start _end _buf : Z) (_vol : bool) : DRPPC_REGION :=
  set_big_endian FALSE (set_volatile_ptr _vol (set_handler NULL
    (set_ptr _buf (set_end _end (set_start _start r))))).

Definition DRPPC_SET_REGION_HANDLER (r : DRPPC_REGION)
    (_start _end _h : Z) : DRPPC_REGION :=
  set_big_endian FALSE (set_volatile_ptr FALSE (set_handler _h
    (set_ptr NULL (set_end _end (set_start _start r))))).

(** A region built by one of the eight macros above. *)
Inductive macro_region : DRPPC_REGION -> Prop :=
  | mr_buf_be s e b v : macro_region (DRPPC_REGION_BUF_BE s e b v)
  | mr_buf_le vol s e b f : macro_region (DRPPC_REGION_BUF_LE vol s e b f)
  | mr_handler s e h : macro_region (DRPPC_REGION_HANDLER s e h)
  | mr_end : macro_region DRPPC_REGION_END
  | mr_placeholder : macro_region DRPPC_REGION_PLACEHOLDER
  | mr_set_buf_be r s e b v : macro_region (DRPPC_SET_REGION_BUF_BE r s e b v)
  | mr_set_buf_le r s e b v : macro_region (DRPPC_SET_REGION_BUF_LE r s e b v)
  | mr_set_handler r s e h : macro_region (DRPPC_SET_REGION_HANDLER r s e h).

(** *** Basic blocks and configuration

    [struct drppc_bb] ([ptr] is [bb_ptr] here, the region record owns the
    name) and the core-configuration fields of [struct drppc_cfg]; the
    host hooks, the lookup handlers and the memory map are not read by
    anything below. *)

Record DRPPC_BB : Set := mk_bb {
  count : Z;
  bb_ptr : Z;
  interp_size : Z;
  native_size : Z;
  interp_exec_time : Z;
  native_exec_time : Z
}.

Record DRPPC_CFG : Set := mk_cfg {
  interpret_only : bool;
  native_cache_size : Z;
  native_cache_guard_size : Z;
  intermediate_cache_size : Z;
  intermediate_cache_guard_size : Z;
  hot_threshold : Z
}.

Definition DRPPC_ZERO_THRESHOLD : Z := 1.

(** ** r3dgl.c: memory access *)

(** [buf[a]] for a [UINT8] buffer of known extent: reading past the end
    is undefined in C and [None] here. *)
Definition load_u8 (buf : list byte) (a : nat) : option Z :=
  byte_val <$> buf !! a.

(** The value of the four bytes [b0 b1 b2 b3], lowest address first, read
    as one little-endian and as one big-endian 32-bit word. *)
Definition word_le (b0 b1 b2 b3 : Z) : Z :=
  Z.lor b0 (Z.lor (Z.shiftl b1 8) (Z.lor (Z.shiftl b2 16) (Z.shiftl b3 24))).

Definition word_be (b0 b1 b2 b3 : Z) : Z :=
  Z.lor (Z.shiftl b0 24) (Z.lor (Z.shiftl b1 16) (Z.lor (Z.shiftl b2 8) b3)).

(** The [UINT32] load through a cast byte pointer, as [GETWORDLE] and
    [GETWORDBE] both spell it.  The load is the host's; the macro names
    (and the [BSWAP32] in the big-endian one) fix the host as
    little-endian. *)
Definition load_u32 (buf : list byte) (a : nat) : option Z :=
  b0 ← load_u8 buf a;
  b1 ← load_u8 buf (a + 1);
  b2 ← load_u8 buf (a + 2);
  b3 ← load_u8 buf (a + 3);
  Some (word_le b0 b1 b2 b3).

(** Modelled from the spec: [BSWAP32] is defined in model3.h, which is not
    among the sources; it is the reversal of the four bytes of a 32-bit
    word, written here in the usual shift-and-mask form. *)
Definition BSWAP32 (x : Z) : Z :=
  Z.lor (Z.lor (Z.lor (Z.land (Z.shiftr x 24) 0xFF)
                      (Z.land (Z.shiftr x 8) 0xFF00))
               (Z.land (Z.shiftl x 8) 0xFF0000))
        (Z.land (Z.shiftl x 24) 0xFF000000).

Definition GETWORDLE (buf : list byte) (a : nat) : option Z :=
  load_u32 buf a.

Definition GETWORDBE (buf : list byte) (a : nat) : option Z :=
  BSWAP32 <$> load_u32 buf a.

(** Modelled from the spec: the Region Dispatcher's direct 32-bit fetch is
    not among the sources; for a direct-access region it reads the word at
    the given offset of the region's buffer in the byte order the region's
    [big_endian] flag declares. *)
Definition region_fetch32 (r : DRPPC_REGION) (buf : list byte) (a : nat) : option Z :=
  if big_endian r then GETWORDBE buf a else GETWORDLE buf a.

(** ** r3dgl.c: address translation *)

(** The four buffers handed over by [r3dgl_init]. *)
Inductive r3d_buffer : Set :=
  | culling_ram_8e
  | culling_ram_8c
  | polygon_ram
  | vrom.

#[global] Instance r3d_buffer_eq_dec : EqDecision r3d_buffer.
Proof. solve_decision. Defined.

(** A [UINT8] pointer as [translate_r3d_address] produces it: [NULL], or
    the address of the byte at some offset of one of the four buffers. *)
Inductive r3d_ptr : Set :=
  | r3d_null
  | r3d_at (base : r3d_buffer) (offset : Z).

Definition translate_r3d_address (addr : Z) : r3d_ptr :=
  if addr <=? 0x007FFFF then
    r3d_at culling_ram_8c (u32 (addr * 4))
  else if (0x0800000 <=? addr) && (addr <=? 0x083FFFF) then
    let addr := Z.land addr 0x003FFFF in
    r3d_at culling_ram_8e (u32 (addr * 4))
  else if (0x1000000 <=? addr) && (addr <=? 0x107FFFF) then
    let addr := Z.land addr 0x007FFFF in
    r3d_at polygon_ram (u32 (addr * 4))
  else if (0x1800000 <=? addr) && (addr <=? 0x1FFFFFF) then
    let addr := Z.land addr 0x07FFFFF in
    r3d_at vrom (u32 (addr * 4))
  else
    r3d_null.

(** The address map of the Real3D as the header comment of r3dgl.c and the
    four range tests declare it: first and last word address of each
    region. *)
Definition r3d_range (b : r3d_buffer) : Z * Z :=
  match b with
  | culling_ram_8c => (0x0000000, 0x007FFFF)
  | culling_ram_8e => (0x0800000, 0x083FFFF)
  | polygon_ram => (0x1000000, 0x107FFFF)
  | vrom => (0x1800000, 0x1FFFFFF)
  end.

Definition in_r3d_range (b : r3d_buffer) (addr : Z) : bool :=
  (fst (r3d_range b) <=? addr) && (addr <=? snd (r3d_range b)).

(** Extent of each region in bytes: one 32-bit word per address. *)
Definition r3d_extent (b : r3d_buffer) : Z :=
  4 * (snd (r3d_range b) - fst (r3d_range b) + 1).

(** The largest byte offset [translate_r3d_address] can add to each base
    pointer: four times the mask (or bound) of the word address. *)
Definition r3d_max_offset (b : r3d_buffer) : Z :=
  match b with
  | culling_ram_8c => 4 * 0x7FFFF
  | culling_ram_8e => 4 * 0x3FFFF
  | polygon_ram => 4 * 0x7FFFF
  | vrom => 4 * 0x7FFFFF
  end.

(** ** r3dgl.c: texture upload *)

(** [texture_grid] has [64*64] elements. *)
Definition texture_grid_size : Z := 64 * 64.

Record texture_geometry : Set := mk_geometry {
  tiles_x : Z;
  tiles_y : Z;
  xpos : Z;
  ypos : Z
}.

(** The header decoding at the top of [r3dgl_upload_texture]. *)
Definition texture_header (header : Z) : texture_geometry :=
  let tiles_x := Z.land (Z.shiftr header 14) 3 in
  let tiles_y := Z.land (Z.shiftr header 17) 3 in
  let tiles_x := Z.shiftl 32 tiles_x / 8 in
  let tiles_y := Z.shiftl 32 tiles_y / 8 in
  let ypos := u32 (Z.lor (Z.land (Z.shiftr header 7) 0x1F)
                         (Z.land (Z.shiftr header 15) 0x20) * 32) in
  let xpos := u32 (Z.land (Z.shiftr header 0) 0x3F * 32) in
  mk_geometry tiles_x tiles_y xpos ypos.

(** The index expression of the marking loop. *)
Definition grid_index (g : texture_geometry) (yi xi : Z) : Z :=
  u32 (u32 (u32 (yi + ypos g / 32) * 64) + u32 (xi + xpos g / 32)).

(** The indices the two nested [for] loops store to, in program order. *)
Definition grid_writes (g : texture_geometry) : list Z :=
  yi ← seqZ 0 (tiles_y g * 8 / 32);
  xi ← seqZ 0 (tiles_x g * 8 / 32);
  [grid_index g yi xi].

(** [texture_grid[i] = id]: a store outside the array is undefined
    behaviour, [None] here. *)
Definition grid_store (grid : list Z) (i : Z) (id : Z) : option (list Z) :=
  if (0 <=? i) && (i <? Z.of_nat (length grid))
  then Some (<[Z.to_nat i := id]> grid)
  else None.

Fixpoint grid_store_all (grid : list Z) (idxs : list Z) (id : Z) : option (list Z) :=
  match idxs with
  | [] => Some grid
  | i :: idxs => grid' ← grid_store grid i id; grid_store_all grid' idxs id
  end.

(** [r3dgl_upload_texture], as far as [texture_grid] is concerned: [id] is
    the name [glGenTextures] hands out; rendering into [texture_buffer] and
    the OpenGL upload do not touch the grid.  A header of type 2 returns
    before anything is done. *)
Definition r3dgl_upload_texture (header : Z) (id : Z) (texture_grid : list Z)
    : option (list Z) :=
  let g := texture_header header in
  if Z.land header 0x0f000000 =? 0x02000000 then Some texture_grid
  else grid_store_all texture_grid (grid_writes g) id.

(** ** r3dgl.c: model drawing *)

(** Single-precision arithmetic is kept abstract: the conversion of an
    integer to [float], the sum and the quotient of two [float]s. *)
Class GLfloatOps (GLfloat : Type) := {
  int_to_float : Z -> GLfloat;
  fadd : GLfloat -> GLfloat -> GLfloat;
  fdiv : GLfloat -> GLfloat -> GLfloat
}.

Inductive GLenum : Set :=
  | GL_TEXTURE_2D
  | GL_BLEND
  | GL_SRC_ALPHA
  | GL_ONE_MINUS_SRC_ALPHA
  | GL_QUADS
  | GL_TRIANGLES.

(** The OpenGL calls made while drawing a model, with their arguments. *)
Inductive gl_call (GLfloat : Type) : Type :=
  | glColor3ub (r g b : Z)
  | glDisable (cap : GLenum)
  | glEnable (cap : GLenum)
  | glBlendFunc (sfactor dfactor : GLenum)
  | glBindTexture (target : GLenum) (texture : Z)
  | glBegin (mode : GLenum)
  | glTexCoord2f (s t : GLfloat)
  | glVertex3f (x y z : GLfloat)
  | glEnd.

Arguments glColor3ub {GLfloat} r g b.
Arguments glDisable {GLfloat} cap.
Arguments glEnable {GLfloat} cap.
Arguments glBlendFunc {GLfloat} sfactor dfactor.
Arguments glBindTexture {GLfloat} target texture.
Arguments glBegin {GLfloat} mode.
Arguments glTexCoord2f {GLfloat} s t.
Arguments glVertex3f {GLfloat} x y z.
Arguments glEnd {GLfloat}.

(** The local vertex struct and the arrays [v[4]], [prev_v[4]]. *)
Record vertex (GLfloat : Type) : Type := mk_vertex {
  v_x : GLfloat;
  v_y : GLfloat;
  v_z : GLfloat;
  v_uv : Z
}.

Arguments mk_vertex {GLfloat} v_x v_y v_z v_uv.
Arguments v_x {GLfloat} v.
Arguments v_y {GLfloat} v.
Arguments v_z {GLfloat} v.
Arguments v_uv {GLfloat} v.

Record vertex4 (GLfloat : Type) : Type := mk_vertex4 {
  vtx0 : vertex GLfloat;
  vtx1 : vertex GLfloat;
  vtx2 : vertex GLfloat;
  vtx3 : vertex GLfloat
}.

Arguments mk_vertex4 {GLfloat} vtx0 vtx1 vtx2 vtx3.
Arguments vtx0 {GLfloat} v.
Arguments vtx1 {GLfloat} v.
Arguments vtx2 {GLfloat} v.
Arguments vtx3 {GLfloat} v.

(** How a run of the drawing loop ends: the loop left through a set
    [stop] flag, a read left the buffer (undefined behaviour), or the
    iteration budget of the model ran out first. *)
Inductive outcome : Set :=
  | Finished
  | Faulted
  | Unfinished.

Section Model.

Context {GLfloat : Type} `{GLfloatOps GLfloat}.

(** [convert_fixed_to_float]: 13.19 fixed point, [num] a signed [INT32]. *)
Definition convert_fixed_to_float (num : Z) : GLfloat :=
  let result := int_to_float (Z.shiftr num 19) in
  fadd result (fdiv (int_to_float (Z.land num 0x7ffff)) (int_to_float 524288)).

(** [v[i]] and [v[i] = x], for the indices 0..3 the code uses. *)
Definition vget (v : vertex4 GLfloat) (i : nat) : vertex GLfloat :=
  match i with
  | 0%nat => vtx0 v
  | 1%nat => vtx1 v
  | 2%nat => vtx2 v
  | _ => vtx3 v
  end.

Definition vset (v : vertex4 GLfloat) (i : nat) (x : vertex GLfloat) : vertex4 GLfloat :=
  match i with
  | 0%nat => mk_vertex4 x (vtx1 v) (vtx2 v) (vtx3 v)
  | 1%nat => mk_vertex4 (vtx0 v) x (vtx2 v) (vtx3 v)
  | 2%nat => mk_vertex4 (vtx0 v) (vtx1 v) x (vtx3 v)
  | _ => mk_vertex4 (vtx0 v) (vtx1 v) (vtx2 v) x
  end.

(** One pass of the vertex-loading loop body: the four words of vertex [i]
    of the polygon at [buf] go to [v[d + i]]. *)
Definition load_vertex (getword : list byte -> nat -> option Z)
    (buf : list byte) (d i : nat) (v : vertex4 GLfloat) : option (vertex4 GLfloat) :=
  wx ← getword buf (0x1C + i * 16 + 0 * 4)%nat;
  wy ← getword buf (0x1C + i * 16 + 1 * 4)%nat;
  wz ← getword buf (0x1C + i * 16 + 2 * 4)%nat;
  wuv ← getword buf (0x1C + i * 16 + 3 * 4)%nat;
  Some (vset v (d + i)
          (mk_vertex (convert_fixed_to_float (s32 wx))
                     (convert_fixed_to_float (s32 wy))
                     (convert_fixed_to_float (s32 wz))
                     wuv)).

(** [for (i = 0; i < n; i++)] over [load_vertex], counting [i] up from
    [i0]. *)
Fixpoint load_vertices (getword : list byte -> nat -> option Z)
    (buf : list byte) (d i0 n : nat) (v : vertex4 GLfloat) : option (vertex4 GLfloat) :=
  match n with
  | O => Some v
  | S n =>
      v' ← load_vertex getword buf d i0 v;
      load_vertices getword buf d (S i0) n v'
  end.

(** The texture coordinate and vertex calls for [v[i]]. *)
Definition emit_vertex (tex_w tex_h : Z) (vi : vertex GLfloat) : list (gl_call GLfloat) :=
  let u_coord := Z.shiftr (v_uv vi) 16 in
  let v_coord := Z.land (v_uv vi) 0xFFFF in
  let u_coord := Z.shiftr u_coord 3 in
  let v_coord := Z.shiftr v_coord 3 in
  [ glTexCoord2f (fdiv (int_to_float u_coord) (int_to_float tex_w))
                 (fdiv (int_to_float v_coord) (int_to_float tex_h));
    glVertex3f (v_x vi) (v_y vi) (v_z vi) ].

(** "Draw the quad / the triangle w/ OpenGL": [n] vertices in [mode]. *)
Definition emit_polygon (mode : GLenum) (n : nat) (tex_enable texture tex_w tex_h : Z)
    (v : vertex4 GLfloat) : list (gl_call GLfloat) :=
  (if tex_enable =? 0 then [glDisable GL_TEXTURE_2D] else [])
  ++ [glEnable GL_BLEND; glBlendFunc GL_SRC_ALPHA GL_ONE_MINUS_SRC_ALPHA;
      glBindTexture GL_TEXTURE_2D texture; glBegin mode]
  ++ (i ← seq 0 n; emit_vertex tex_w tex_h (vget v i))
  ++ [glEnd; glDisable GL_BLEND]
  ++ (if tex_enable =? 0 then [glEnable GL_TEXTURE_2D] else []).

(** What one pass of the [do] loop did: the OpenGL calls, by how many
    bytes [buf] moved, the arrays [v] and [prev_v], and [stop]. *)
Record polygon_pass : Type := mk_pass {
  calls : list (gl_call GLfloat);
  advance : nat;
  v_after : vertex4 GLfloat;
  prev_v_after : vertex4 GLfloat;
  stop : Z
}.

(** The vertex [switch] of the quad branch of [draw_model_be]: the new
    [v] and the advance of [buf].  A selector without a [case] leaves
    both as they are. *)
Definition quad_switch_be (buf : list byte) (sel : Z)
    (v prev_v : vertex4 GLfloat) : option (vertex4 GLfloat * nat) :=
  match sel with
  | 0 =>
      v ← load_vertices GETWORDBE buf 0 0 4 v; Some (v, 0x5C%nat)
  | 1 =>
      let v := vset v 0 (vget prev_v 0) in
      v ← load_vertices GETWORDBE buf 1 0 3 v; Some (v, 0x4C%nat)
  | 2 =>
      let v := vset v 0 (vget prev_v 1) in
      v ← load_vertices GETWORDBE buf 1 0 3 v; Some (v, 0x4C%nat)
  | 4 =>
      let v := vset v 0 (vget prev_v 2) in
      v ← load_vertices GETWORDBE buf 1 0 3 v; Some (v, 0x4C%nat)
  | 8 =>
      let v := vset v 0 (vget prev_v 3) in
      v ← load_vertices GETWORDBE buf 1 0 3 v; Some (v, 0x4C%nat)
  | 3 =>
      let v := vset v 0 (vget prev_v 0) in
      let v := vset v 1 (vget prev_v 1) in
      v ← load_vertices GETWORDBE buf 2 0 2 v; Some (v, 0x3C%nat)
  | 5 =>
      let v := vset v 0 (vget prev_v 0) in
      let v := vset v 1 (vget prev_v 2) in
      v ← load_vertices GETWORDBE buf 2 0 2 v; Some (v, 0x3C%nat)
  | 6 =>
      let v := vset v 0 (vget prev_v 1) in
      let v := vset v 1 (vget prev_v 2) in
      v ← load_vertices GETWORDBE buf 2 0 2 v; Some (v, 0x3C%nat)
  | 9 =>
      let v := vset v 0 (vget prev_v 0) in
      let v := vset v 1 (vget prev_v 3) in
      v ← load_vertices GETWORDBE buf 2 0 2 v; Some (v, 0x3C%nat)
  | 0xC =>
      let v := vset v 0 (vget prev_v 2) in
      let v := vset v 1 (vget prev_v 3) in
      v ← load_vertices GETWORDBE buf 2 0 2 v; Some (v, 0x3C%nat)
  | _ => Some (v, 0%nat)
  end.

(** The vertex [switch] of the triangle branch of [draw_model_be]. *)
Definition tri_switch_be (buf : list byte) (sel : Z)
    (v prev_v : vertex4 GLfloat) : option (vertex4 GLfloat * nat) :=
  match sel with
  | 0 =>
      v ← load_vertices GETWORDBE buf 0 0 3 v; Some (v, 0x4C%nat)
  | 1 =>
      let v := vset v 0 (vget prev_v 0) in
      v ← load_vertices GETWORDBE buf 1 0 2 v; Some (v, 0x3C%nat)
  | 2 =>
      let v := vset v 0 (vget prev_v 1) in
      v ← load_vertices GETWORDBE buf 1 0 2 v; Some (v, 0x3C%nat)
  | 4 =>
      let v := vset v 0 (vget prev_v 2) in
      v ← load_vertices GETWORDBE buf 1 0 2 v; Some (v, 0x3C%nat)
  | 8 =>
      let v := vset v 0 (vget prev_v 3) in
      v ← load_vertices GETWORDBE buf 1 0 2 v; Some (v, 0x3C%nat)
  | 3 =>
      let v := vset v 0 (vget prev_v 0) in
      let v := vset v 1 (vget prev_v 1) in
      v ← load_vertex GETWORDBE buf 2 0 v; Some (v, 0x2C%nat)
  | 5 =>
      let v := vset v 0 (vget prev_v 0) in
      let v := vset v 1 (vget prev_v 2) in
      v ← load_vertex GETWORDBE buf 2 0 v; Some (v, 0x2C%nat)
  | 6 =>
      let v := vset v 0 (vget prev_v 1) in
      let v := vset v 1 (vget prev_v 2) in
      v ← load_vertex GETWORDBE buf 2 0 v; Some (v, 0x2C%nat)
  | 9 =>
      let v := vset v 0 (vget prev_v 0) in
      let v := vset v 1 (vget prev_v 3) in
      v ← load_vertex GETWORDBE buf 2 0 v; Some (v, 0x2C%nat)
  | 0xC =>
      let v := vset v 0 (vget prev_v 2) in
      let v := vset v 1 (vget prev_v 3) in
      v ← load_vertex GETWORDBE buf 2 0 v; Some (v, 0x2C%nat)
  | _ => Some (v, 0%nat)
  end.

(** The body of the [do] loop of [draw_model_be]. *)
Definition draw_polygon_be (texture_grid : list Z) (buf : list byte)
    (v prev_v : vertex4 GLfloat) : option polygon_pass :=
  w3 ← GETWORDBE buf (3 * 4);
  w4 ← GETWORDBE buf (4 * 4);
  w5 ← GETWORDBE buf (5 * 4);
  let tex_w := u32 (Z.shiftl 32 (Z.land (Z.shiftr w3 3) 7)) in
  let tex_h := u32 (Z.shiftl 32 (Z.land (Z.shiftr w3 0) 7)) in
  let u_base := Z.lor (u32 (Z.shiftl (Z.land w4 0x1F) 1)) (Z.shiftr (Z.land w5 0x80) 7) in
  let v_base := Z.lor (Z.land w5 0x1F) (Z.shiftr (Z.land w4 0x40) 1) in
  let u_base := u32 (u_base * 32) in
  let v_base := u32 (v_base * 32) in
  r ← load_u8 buf (4 * 4 + 0);
  g ← load_u8 buf (4 * 4 + 1);
  b ← load_u8 buf (4 * 4 + 2);
  te ← load_u8 buf (6 * 4 + 0);
  let tex_enable := Z.land te 0x04 in
  st ← load_u8 buf (1 * 4 + 3);
  let stop := Z.land st 4 in
  flags ← load_u8 buf (0 * 4 + 3);
  texture ← texture_grid !! Z.to_nat (u32 (u32 (v_base / 32 * 64) + u_base / 32));
  if negb (Z.land flags 0x40 =? 0) then
    '(v, adv) ← quad_switch_be buf (Z.land flags 0x0F) v prev_v;
    let prev_v := mk_vertex4 (vget v 0) (vget v 1) (vget v 2) (vget v 3) in
    Some (mk_pass (glColor3ub r g b
                     :: emit_polygon GL_QUADS 4 tex_enable texture tex_w tex_h v)
                  adv v prev_v stop)
  else
    '(v, adv) ← tri_switch_be buf (Z.land flags 0x0F) v prev_v;
    let prev_v := mk_vertex4 (vget v 0) (vget v 1) (vget v 2) (vget prev_v 3) in
    Some (mk_pass (glColor3ub r g b
                     :: emit_polygon GL_TRIANGLES 3 tex_enable texture tex_w tex_h v)
                  adv v prev_v stop).

(** The vertex [switch] of the quad branch of [draw_model_le]. *)
Definition quad_switch_le (buf : list byte) (sel : Z)
    (v prev_v : vertex4 GLfloat) : option (vertex4 GLfloat * nat) :=
  match sel with
  | 0 =>
      v ← load_vertices GETWORDLE buf 0 0 4 v; Some (v, 0x5C%nat)
  | 1 =>
      let v := vset v 0 (vget prev_v 0) in
      v ← load_vertices GETWORDLE buf 1 0 3 v; Some (v, 0x4C%nat)
  | 2 =>
      let v := vset v 0 (vget prev_v 1) in
      v ← load_vertices GETWORDLE buf 1 0 3 v; Some (v, 0x4C%nat)
  | 4 =>
      let v := vset v 0 (vget prev_v 2) in
      v ← load_vertices GETWORDLE buf 1 0 3 v; Some (v, 0x4C%nat)
  | 8 =>
      let v := vset v 0 (vget prev_v 3) in
      v ← load_vertices GETWORDLE buf 1 0 3 v; Some (v, 0x4C%nat)
  | 3 =>
      let v := vset v 0 (vget prev_v 0) in
      let v := vset v 1 (vget prev_v 1) in
      v ← load_vertices GETWORDLE buf 2 0 2 v; Some (v, 0x3C%nat)
  | 5 =>
      let v := vset v 0 (vget prev_v 0) in
      let v := vset v 1 (vget prev_v 2) in
      v ← load_vertices GETWORDLE buf 2 0 2 v; Some (v, 0x3C%nat)
  | 6 =>
      let v := vset v 0 (vget prev_v 1) in
      let v := vset v 1 (vget prev_v 2) in
      v ← load_vertices GETWORDLE buf 2 0 2 v; Some (v, 0x3C%nat)
  | 9 =>
      let v := vset v 0 (vget prev_v 0) in
      let v := vset v 1 (vget prev_v 3) in
      v ← load_vertices GETWORDLE buf 2 0 2 v; Some (v, 0x3C%nat)
  | 0xC =>
      let v := vset v 0 (vget prev_v 2) in
      let v := vset v 1 (vget prev_v 3) in
      v ← load_vertices GETWORDLE buf 2 0 2 v; Some (v, 0x3C%nat)
  | _ => Some (v, 0%nat)
  end.

(** The vertex [switch] of the triangle branch of [draw_model_le]. *)
Definition tri_switch_le (buf : list byte) (sel : Z)
    (v prev_v : vertex4 GLfloat) : option (vertex4 GLfloat * nat) :=
  match sel with
  | 0 =>
      v ← load_vertices GETWORDLE buf 0 0 3 v; Some (v, 0x4C%nat)
  | 1 =>
      let v := vset v 0 (vget prev_v 0) in
      v ← load_vertices GETWORDLE buf 1 0 2 v; Some (v, 0x3C%nat)
  | 2 =>
      let v := vset v 0 (vget prev_v 1) in
      v ← load_vertices GETWORDLE buf 1 0 2 v; Some (v, 0x3C%nat)
  | 4 =>
      let v := vset v 0 (vget prev_v 2) in
      v ← load_vertices GETWORDLE buf 1 0 2 v; Some (v, 0x3C%nat)
  | 8 =>
      let v := vset v 0 (vget prev_v 3) in
      v ← load_vertices GETWORDLE buf 1 0 2 v; Some (v, 0x3C%nat)
  | 3 =>
      let v := vset v 0 (vget prev_v 0) in
      let v := vset v 1 (vget prev_v 1) in
      v ← load_vertex GETWORDLE buf 2 0 v; Some (v, 0x2C%nat)
  | 5 =>
      let v := vset v 0 (vget prev_v 0) in
      let v := vset v 1 (vget prev_v 2) in
      v ← load_vertex GETWORDLE buf 2 0 v; Some (v, 0x2C%nat)
  | 6 =>
      let v := vset v 0 (vget prev_v 1) in
      let v := vset v 1 (vget prev_v 2) in
      v ← load_vertex GETWORDLE buf 2 0 v; Some (v, 0x2C%nat)
  | 9 =>
      let v := vset v 0 (vget prev_v 0) in
      let v := vset v 1 (vget prev_v 3) in
      v ← load_vertex GETWORDLE buf 2 0 v; Some (v, 0x2C%nat)
  | 0xC =>
      let v := vset v 0 (vget prev_v 2) in
      let v := vset v 1 (vget prev_v 3) in
      v ← load_vertex GETWORDLE buf 2 0 v; Some (v, 0x2C%nat)
  | _ => Some (v, 0%nat)
  end.

(** The body of the [do] loop of [draw_model_le]. *)
Definition draw_polygon_le (texture_grid : list Z) (buf : list byte)
    (v prev_v : vertex4 GLfloat) : option polygon_pass :=
  w3 ← GETWORDLE buf (3 * 4);
  w4 ← GETWORDLE buf (4 * 4);
  w5 ← GETWORDLE buf (5 * 4);
  let tex_w := u32 (Z.shiftl 32 (Z.land (Z.shiftr w3 3) 7)) in
  let tex_h := u32 (Z.shiftl 32 (Z.land (Z.shiftr w3 0) 7)) in
  let u_base := Z.lor (u32 (Z.shiftl (Z.land w4 0x1F) 1)) (Z.shiftr (Z.land w5 0x80) 7) in
  let v_base := Z.lor (Z.land w5 0x1F) (Z.shiftr (Z.land w4 0x40) 1) in
  let u_base := u32 (u_base * 32) in
  let v_base := u32 (v_base * 32) in
  r ← load_u8 buf (4 * 4 + 3);
  g ← load_u8 buf (4 * 4 + 2);
  b ← load_u8 buf (4 * 4 + 1);
  te ← load_u8 buf (6 * 4 + 3);
  let tex_enable := Z.land te 0x04 in
  st ← load_u8 buf (1 * 4 + 0);
  let stop := Z.land st 4 in
  flags ← load_u8 buf (0 * 4 + 0);
  texture ← texture_grid !! Z.to_nat (u32 (u32 (v_base / 32 * 64) + u_base / 32));
  if negb (Z.land flags 0x40 =? 0) then
    '(v, adv) ← quad_switch_le buf (Z.land flags 0x0F) v prev_v;
    let prev_v := mk_vertex4 (vget v 0) (vget v 1) (vget v 2) (vget v 3) in
    Some (mk_pass (glColor3ub r g b
                     :: emit_polygon GL_QUADS 4 tex_enable texture tex_w tex_h v)
                  adv v prev_v stop)
  else
    '(v, adv) ← tri_switch_le buf (Z.land flags 0x0F) v prev_v;
    let prev_v := mk_vertex4 (vget v 0) (vget v 1) (vget v 2) (vget prev_v 3) in
    Some (mk_pass (glColor3ub r g b
                     :: emit_polygon GL_TRIANGLES 3 tex_enable texture tex_w tex_h v)
                  adv v prev_v stop).

(** [do { ... } while (!stop);] over a loop body [pass], which sees the
    buffer from the current [buf] on.  The loop need not end (a selector
    without a [case] and a clear [stop] flag repeat the same polygon
    forever), hence the iteration budget [fuel]. *)
Fixpoint draw_loop
    (pass : list byte -> vertex4 GLfloat -> vertex4 GLfloat -> option polygon_pass)
    (fuel : nat) (buf : list byte) (v prev_v : vertex4 GLfloat)
    : list (gl_call GLfloat) * outcome :=
  match fuel with
  | O => ([], Unfinished)
  | S fuel =>
      match pass buf v prev_v with
      | None => ([], Faulted)
      | Some p =>
          if stop p =? 0 then
            let '(rest, o) :=
              draw_loop pass fuel (drop (advance p) buf) (v_after p) (prev_v_after p) in
            (calls p ++ rest, o)
          else (calls p, Finished)
      end
  end.

(** [draw_model_be]: [buf] is [None] for [NULL]; [v] and [prev_v] are the
    indeterminate initial contents of the two local arrays. *)
Definition draw_model_be (fuel : nat) (texture_grid : list Z)
    (buf : option (list byte)) (v prev_v : vertex4 GLfloat)
    : list (gl_call GLfloat) * outcome :=
  match buf with
  | None => ([], Finished)
  | Some buf =>
      match GETWORDBE buf (0 * 4) with
      | None => ([], Faulted)
      | Some w =>
          if w =? 0 then ([], Finished)
          else draw_loop (draw_polygon_be texture_grid) fuel buf v prev_v
      end
  end.

(** [draw_model_le]. *)
Definition draw_model_le (fuel : nat) (texture_grid : list Z)
    (buf : option (list byte)) (v prev_v : vertex4 GLfloat)
    : list (gl_call GLfloat) * outcome :=
  match buf with
  | None => ([], Finished)
  | Some buf =>
      match GETWORDLE buf (0 * 4) with
      | None => ([], Faulted)
      | Some w =>
          if w =? 0 then ([], Finished)
          else draw_loop (draw_polygon_le texture_grid) fuel buf v prev_v
      end
  end.

End Model.

(** The buffer in which every aligned 32-bit word has its four bytes
    reversed. *)
Fixpoint bswap_words (buf : list byte) : list byte :=
  match buf with
  | b0 :: b1 :: b2 :: b3 :: rest => b3 :: b2 :: b1 :: b0 :: bswap_words rest
  | _ => buf
  end.

(** A byte count that is a whole number of 32-bit words, and a buffer
    made of whole 32-bit words. *)
Definition aligned (n : nat) : Prop := (n mod 4 = 0)%nat.

Definition word_sized (buf : list byte) : Prop := aligned (length buf).

(** Where the byte at offset [a] of a buffer goes when the bytes of each
    word are reversed. *)
Definition mirror (a : nat) : nat := (a / 4 * 4 + (3 - a mod 4))%nat.

(** The advances the two [switch]es of a pass can make: past a polygon
    of four, three, two or one new vertices, or none where the selector
    has no [case]. *)
Definition polygon_advances : list nat := [0x5C; 0x4C; 0x3C; 0x2C; 0]%nat.

(** A model of one triangle (selector 0, three vertices, last polygon),
    as it lies in VROM: 0x4C bytes. *)
Definition sample_model : list byte :=
  [ x01; x00; x00; x00;  x00; x00; x00; x04;  x00; x00; x00; x00;
    x00; x00; x00; x09;  xff; x80; x40; x02;  x00; x00; x00; x03;
    x04; x00; x00; x00;
    x00; x08; x00; x00;  x00; x00; x00; x00;  x00; x10; x00; x00;
    x00; x00; x00; x00;
    xff; xf8; x00; x00;  x00; x08; x00; x00;  x00; x10; x00; x00;
    x02; x00; x02; x00;
    x00; x08; x00; x00;  xff; xf8; x00; x00;  x00; x10; x00; x00;
    x01; x00; x03; x00 ].

(** Test data: exact rational arithmetic, to run the model on.  It is not
    the arithmetic of the C floats, which round; nothing is proved of
    the floats through it. *)
#[global] Instance Q_GLfloatOps : GLfloatOps Q :=
  {| int_to_float := inject_Z; fadd := Qplus; fdiv := Qdiv |}.

Definition zero_vertex4 : vertex4 Q :=
  let z := mk_vertex 0%Q 0%Q 0%Q 0 in mk_vertex4 z z z z.

(** ** Execution driver and code cache manager

    The engine proper (the control loop, the block lookup and the two code
    caches behind drppc.h) is not among the sources.  What follows is
    written from the specification, over the records of drppc.h. *)

(** Modelled from the spec: the three states a basic block is in for the
    Execution Driver. *)
Inductive block_state : Set :=
  | Uncompiled
  | Interpreted
  | Native.

(** Modelled from the spec: one arena of the Code Cache Manager, sized by
    configuration; the last [arena_guard] bytes are the guard region. *)
Record arena : Set := mk_arena {
  arena_base : Z;
  arena_size : Z;
  arena_guard : Z;
  arena_used : Z
}.

(** Modelled from the spec: [Allocate(arena, size)] gives a pointer into
    the arena, or capacity-exceeded ([None]) when the request would go
    past the guard boundary. *)
Definition Allocate (a : arena) (size : Z) : option (Z * arena) :=
  if arena_used a + size <=? arena_size a - arena_guard a
  then Some (arena_base a + arena_used a,
             mk_arena (arena_base a) (arena_size a) (arena_guard a) (arena_used a + size))
  else None.

(** Modelled from the spec: an arena reset to empty. *)
Definition arena_reset (a : arena) : arena :=
  mk_arena (arena_base a) (arena_size a) (arena_guard a) 0.

(** Modelled from the spec: the state of one engine instance: the two
    arenas, the Block Descriptor Store, and the Block Lookup Index from
    guest address to the slot of the descriptor in the store. *)
Record engine : Type := mk_engine {
  native_cache : arena;
  intermediate_cache : arena;
  descriptors : list DRPPC_BB;
  lookup_index : gmap Z nat
}.

(** Modelled from the spec: an engine right after initialisation, the
    arenas sized by the configuration record and placed by the host's
    allocator at [native_base] and [intermediate_base]. *)
Definition drppc_init (cfg : DRPPC_CFG) (native_base intermediate_base : Z) : engine :=
  mk_engine
    (mk_arena native_base (native_cache_size cfg) (native_cache_guard_size cfg) 0)
    (mk_arena intermediate_base (intermediate_cache_size cfg)
       (intermediate_cache_guard_size cfg) 0)
    [] ∅.

(** Modelled from the spec: [Lookup(address)], the descriptor of the block
    at a guest address together with its slot, or not-found. *)
Definition LookupBB (e : engine) (pc : Z) : option (nat * DRPPC_BB) :=
  slot ← lookup_index e !! pc;
  bb ← descriptors e !! slot;
  Some (slot, bb).

(** Modelled from the spec: a block never seen is Uncompiled; a block with
    a descriptor is Native once its native-code pointer is set and
    Interpreted until then. *)
Definition state_of (e : engine) (pc : Z) : block_state :=
  match LookupBB e pc with
  | None => Uncompiled
  | Some (_, bb) => if bb_ptr bb =? NULL then Interpreted else Native
  end.

(** Modelled from the spec: the execution count of the block at [pc]. *)
Definition execution_count (e : engine) (pc : Z) : option Z :=
  '(_, bb) ← LookupBB e pc; Some (count bb).

(** Modelled from the spec: the full flush: all descriptors discarded,
    both arenas reset to empty, the lookup index invalidated in full. *)
Definition flush (e : engine) : engine :=
  mk_engine (arena_reset (native_cache e)) (arena_reset (intermediate_cache e)) [] ∅.

(** Modelled from the spec: the worst-case space the driver reserves
    before it translates a block, in either arena. *)
Record reservation : Set := mk_reservation {
  intermediate_need : Z;
  native_need : Z
}.

(** Modelled from the spec: how the driver ran the block it was asked
    for. *)
Inductive exec_path : Set :=
  | ByInterpreter
  | ByTranslation
  | ByNativeCode
  | AfterFlush
  | Stopped.

(** Modelled from the spec: the hot test of the promotion policy: code
    generation is enabled and the execution count has reached the hot
    threshold. *)
Definition is_hot (cfg : DRPPC_CFG) (bb : DRPPC_BB) : bool :=
  negb (interpret_only cfg) && (hot_threshold cfg <=? count bb).

(** Modelled from the spec: the descriptor of the block at [pc], created
    on first encounter through the host allocator; [host_alloc] tells
    whether that allocator has memory left.  The result is the engine
    with the descriptor in place, its slot and the descriptor. *)
Definition find_or_create (host_alloc : bool) (e : engine) (pc : Z)
    : option (engine * nat * DRPPC_BB) :=
  match LookupBB e pc with
  | Some (slot, bb) => Some (e, slot, bb)
  | None =>
      if host_alloc then
        let bb := mk_bb 0 NULL 0 0 0 0 in
        let slot := length (descriptors e) in
        Some (mk_engine (native_cache e) (intermediate_cache e)
                (descriptors e ++ [bb]) (<[pc := slot]> (lookup_index e)),
              slot, bb)
      else None
  end.

(** Modelled from the spec: one entry of the Execution Driver into the
    block at [pc], an address the fetch list resolves (see
    [drppc_run_block]).  A Native block is entered directly.  Otherwise
    the count goes up by one; a block that is hot by then is translated,
    after the worst-case space [need] has been reserved in both arenas,
    and a reservation that would go past a guard boundary flushes the
    engine instead; a block that is not hot is interpreted.  The
    translation of a block can fail ([compiles] tells whether the
    translator can translate the block at [pc]): the reservation is then
    given back, the block stays Interpreted and is run by the interpreter,
    and the run goes on.  Running out of host memory for a new descriptor
    stops the run. *)
Definition drppc_enter (cfg : DRPPC_CFG) (host_alloc compiles : bool)
    (need : reservation) (e : engine) (pc : Z) : DRPPC_ERRNUM * exec_path * engine :=
  match find_or_create host_alloc e pc with
  | None => (DRPPC_OUT_OF_MEMORY, Stopped, e)
  | Some (e, slot, bb) =>
      if negb (bb_ptr bb =? NULL) then (DRPPC_OKAY, ByNativeCode, e)
      else
        let bb := mk_bb (u32 (count bb + 1)) (bb_ptr bb) (interp_size bb)
                    (native_size bb) (interp_exec_time bb) (native_exec_time bb) in
        let interpreted :=
          mk_engine (native_cache e) (intermediate_cache e)
            (<[slot := bb]> (descriptors e)) (lookup_index e) in
        if is_hot cfg bb then
          match Allocate (intermediate_cache e) (intermediate_need need),
                Allocate (native_cache e) (native_need need) with
          | Some (_, ir), Some (code, nat_cache) =>
              if compiles then
                let bb := mk_bb (count bb) code (interp_size bb) (native_need need)
                            (interp_exec_time bb) (native_exec_time bb) in
                (DRPPC_OKAY, ByTranslation,
                 mk_engine nat_cache ir (<[slot := bb]> (descriptors e)) (lookup_index e))
              else (DRPPC_OKAY, ByInterpreter, interpreted)
          | _, _ => (DRPPC_OKAY, AfterFlush, flush e)
          end
        else (DRPPC_OKAY, ByInterpreter, interpreted)
  end.

(** Modelled from the spec: the region of the fetch list of the memory
    map that holds a guest address, the first whose bounds, both
    inclusive, contain it. *)
Definition fetch_region (fetch : list DRPPC_REGION) (pc : Z) : option DRPPC_REGION :=
  List.find (fun r => (start r <=? pc) && (pc <=? end_ r)) fetch.

(** Modelled from the spec: the driver asked to run the block at [pc].
    An address that matches no region of the fetch list is a fatal
    [DRPPC_BAD_PC]: the run stops and nothing is retried. *)
Definition drppc_run_block (cfg : DRPPC_CFG) (fetch : list DRPPC_REGION)
    (host_alloc compiles : bool) (need : reservation) (e : engine) (pc : Z)
    : DRPPC_ERRNUM * exec_path * engine :=
  match fetch_region fetch pc with
  | None => (DRPPC_BAD_PC, Stopped, e)
  | Some _ => drppc_enter cfg host_alloc compiles need e pc
  end.

(** Modelled from the spec: [n] entries in a row into the block at [pc],
    the host allocator never failing; the engine after the last one. *)
Fixpoint enter_times (cfg : DRPPC_CFG) (compiles : bool) (need : reservation)
    (n : nat) (e : engine) (pc : Z) : engine :=
  match n with
  | O => e
  | S n => enter_times cfg compiles need n (drppc_enter cfg true compiles need e pc).2 pc
  end.

(** Modelled from the spec: arenas placed at a non-null address and
    filled from the bottom. *)
Definition arena_ok (a : arena) : Prop :=
  NULL < arena_base a /\ 0 <= arena_used a.

(** Modelled from the spec: an engine whose two arenas are such. *)
Definition engine_ok (e : engine) : Prop :=
  arena_ok (native_cache e) /\ arena_ok (intermediate_cache e).

(** Modelled from the spec: a request that stays before the guard
    boundary of an arena. *)
Definition fits (a : arena) (size : Z) : Prop :=
  arena_used a + size <= arena_size a - arena_guard a.

(** Modelled from the spec: how often the block at [pc] has been entered
    through the interpreter, zero for a block never seen. *)
Definition entered (e : engine) (pc : Z) : Z :=
  match LookupBB e pc with
  | None => 0
  | Some (_, bb) => count bb
  end.

(** Modelled from the spec: the block at [pc] has been interpreted [c]
    times and is not translated. *)
Definition cold (e : engine) (pc : Z) (c : Z) : Prop :=
  match LookupBB e pc with
  | None => c = 0
  | Some (_, bb) => bb_ptr bb = NULL /\ count bb = c
  end.

(** The configuration of the specification's example scenario (hot
    threshold 5, code generation on), an engine fresh from
    initialisation, and a reservation that fits its caches. *)
Definition sample_cfg : DRPPC_CFG :=
  mk_cfg false 0x100000 0x1000 0x100000 0x1000 5.

Definition sample_engine : engine :=
  drppc_init sample_cfg 0x10000000 0x20000000.

Definition sample_need : reservation := mk_reservation 0x400 0x200.

(** The fetch list of the specification's example scenario: one region
    [0x0000, 0xFFFF] backed by a buffer. *)
Definition sample_fetch : list DRPPC_REGION :=
  [DRPPC_REGION_BUF_BE 0x0000 0xFFFF 0x30000000 false].

(** An engine whose native cache is filled up to its guard boundary. *)
Definition full_engine : engine :=
  mk_engine (mk_arena 0x10000000 0x100000 0x1000 0xFF000)
            (mk_arena 0x20000000 0x100000 0x1000 0) [] ∅.

(** ** r3dgl.c: what the drawing and upload code decides

    Names for quantities the functions above compute on the way. *)

(** The texture dimensions a polygon header can select: [32 << n] for a
    three-bit [n]. *)
Definition texture_sizes : list Z := [32; 64; 128; 256; 512; 1024; 2048; 4096].

(** The values of the vertex selector [buf[..] & 0x0F] for which neither
    [switch] of a loop pass has a [case]. *)
Definition unhandled_selectors : list Z := [7; 10; 11; 13; 14; 15].

(** [u_base / 32] and [v_base / 32] of a loop pass, from the header words
    4 and 5 of the polygon: column and row of its texture in the grid. *)
Definition polygon_u_cell (w4 w5 : Z) : Z :=
  Z.lor (u32 (Z.shiftl (Z.land w4 0x1F) 1)) (Z.shiftr (Z.land w5 0x80) 7).

Definition polygon_v_cell (w4 w5 : Z) : Z :=
  Z.lor (Z.land w5 0x1F) (Z.shiftr (Z.land w4 0x40) 1).

(** The rectangle of grid cells [r3dgl_upload_texture] marks: [xpos / 32]
    and [ypos / 32], and the two loop bounds. *)
Definition grid_left (g : texture_geometry) : Z := xpos g / 32.
Definition grid_top (g : texture_geometry) : Z := ypos g / 32.
Definition grid_width (g : texture_geometry) : Z := tiles_x g * 8 / 32.
Definition grid_height (g : texture_geometry) : Z := tiles_y g * 8 / 32.

(** A texture that does not reach past the right or the lower edge of the
    64x64 sheet. *)
Definition inside_sheet (g : texture_geometry) : Prop :=
  grid_left g + grid_width g <= 64 /\ grid_top g + grid_height g <= 64.

(** Row [y], column [x] of the grid lies in the rectangle of [g]. *)
Definition in_rect (g : texture_geometry) (y x : Z) : bool :=
  (grid_top g <=? y) && (y <? grid_top g + grid_height g) &&
  (grid_left g <=? x) && (x <? grid_left g + grid_width g).












(** Test data: a polygon header with the selector 7, for which there is
    no [case], and a clear last-polygon flag; the first pass over the
    sample model; a 32x32 texture at column 4, row 3 of the sheet, which
    is where the sample model looks for its texture. *)
Definition looping_model : list byte :=
  [ x01; x00; x00; x07;  x00; x00; x00; x00;  x00; x00; x00; x00;
    x00; x00; x00; x09;  xff; x80; x40; x02;  x00; x00; x00; x03;
    x04; x00; x00; x00 ].

Definition sample_pass : polygon_pass (GLfloat := Q) :=
  Eval vm_compute in
    default (mk_pass [] 0 zero_vertex4 zero_vertex4 0)
      (draw_polygon_be (replicate 4096 7) sample_model zero_vertex4 zero_vertex4).

Definition sample_texture_header : Z := 0x00000184.

(** ** r3dgl.c: texture decoding *)

(** [decode]: where the pixel at row [yi], column [xi] of an 8x8 tile lies
    in the tile's data, at index [yi * 8 + xi]. *)
Definition decode : list Z :=
  [  0;  1;  4;  5;  8;  9; 12; 13;
     2;  3;  6;  7; 10; 11; 14; 15;
    16; 17; 20; 21; 24; 25; 28; 29;
    18; 19; 22; 23; 26; 27; 30; 31;
    32; 33; 36; 37; 40; 41; 44; 45;
    34; 35; 38; 39; 42; 43; 46; 47;
    48; 49; 52; 53; 56; 57; 60; 61;
    50; 51; 54; 55; 58; 59; 62; 63 ].

(** [texture_buffer] has [512*512*4] elements of type [GLbyte]; an element
    is kept as its bit pattern, a number below 256. *)
Definition texture_buffer_size : Z := 512 * 512 * 4.

Definition u8 (x : Z) : Z := x mod 256.

(** [texture_buffer[i] = x]: a store outside the array is undefined
    behaviour, [None] here. *)
Definition texture_store (tb : list Z) (i x : Z) : option (list Z) :=
  if (0 <=? i) && (i <? Z.of_nat (length tb))
  then Some (<[Z.to_nat i := u8 x]> tb)
  else None.

(** The index [((y + yi) * w + (x + xi)) * 4 + c], in [UINT] arithmetic. *)
Definition pixel_index (x y w xi yi c : Z) : Z :=
  u32 (u32 (u32 (u32 (u32 (y + yi) * w) + u32 (x + xi)) * 4) + c).

(** The four stores that set one pixel of [texture_buffer]. *)
Definition put_pixel (tb : list Z) (x y w xi yi : Z) (r g b a : Z) : option (list Z) :=
  tb ← texture_store tb (pixel_index x y w xi yi 0) r;
  tb ← texture_store tb (pixel_index x y w xi yi 1) g;
  tb ← texture_store tb (pixel_index x y w xi yi 2) b;
  texture_store tb (pixel_index x y w xi yi 3) a.

(** The pairs [(yi, xi)] the two nested [for] loops of a tile run
    through, in program order. *)
Definition tile_pixels : list (Z * Z) :=
  yi ← seqZ 0 8; xi ← seqZ 0 8; [(yi, xi)].

(** A loop body run over a list of loop-variable values, as long as no
    pass fails. *)
Fixpoint for_each {A S : Type} (body : S -> A -> option S) (l : list A) (s : S)
    : option S :=
  match l with
  | [] => Some s
  | a :: l => s' ← body s a; for_each body l s'
  end.

(** The loop body of [draw_texture_tile_8]. *)
Definition tile_8_pixel (x y : Z) (buf : list byte) (w : Z) (little_endian : bool)
    (tb : list Z) (p : Z * Z) : option (list Z) :=
  let '(yi, xi) := p in
  pixel_offs ←
    (if little_endian
     then decode !! Z.to_nat (Z.lxor (yi * 8 + xi) (Z.lor 8 1))
     else decode !! Z.to_nat (yi * 8 + xi));
  lum8 ← load_u8 buf (Z.to_nat pixel_offs);
  put_pixel tb x y w xi yi lum8 lum8 lum8 0xFF.

Definition draw_texture_tile_8 (x y : Z) (buf : list byte) (w : Z)
    (little_endian : bool) (tb : list Z) : option (list Z) :=
  for_each (tile_8_pixel x y buf w little_endian) tile_pixels tb.

(** The 16-bit pixel word: loaded as one [UINT16] by the (little-endian)
    host in little-endian mode, put together from two bytes otherwise. *)
Definition load_rgb16 (buf : list byte) (pixel_offs : Z) (little_endian : bool)
    : option Z :=
  b0 ← load_u8 buf (Z.to_nat pixel_offs);
  b1 ← load_u8 buf (Z.to_nat (pixel_offs + 1));
  if little_endian
  then Some (Z.lor b0 (Z.shiftl b1 8))
  else Some (Z.lor (Z.shiftl b0 8) b1).

(** The loop body of [draw_texture_tile_16]. *)
Definition tile_16_pixel (x y : Z) (buf : list byte) (w : Z) (little_endian : bool)
    (tb : list Z) (p : Z * Z) : option (list Z) :=
  let '(yi, xi) := p in
  d ←
    (if little_endian
     then decode !! Z.to_nat (Z.lxor (yi * 8 + xi) 1)
     else decode !! Z.to_nat (yi * 8 + xi));
  let pixel_offs := d * 2 in
  rgb16 ← load_rgb16 buf pixel_offs little_endian;
  let b := Z.shiftl (Z.land rgb16 0x1f) 3 in
  let g := Z.shiftl (Z.land (Z.shiftr rgb16 5) 0x1f) 3 in
  let r := Z.shiftl (Z.land (Z.shiftr rgb16 10) 0x1f) 3 in
  let a := if negb (Z.land rgb16 0x8000 =? 0) then 0x00 else 0xFF in
  put_pixel tb x y w xi yi r g b a.

Definition draw_texture_tile_16 (x y : Z) (buf : list byte) (w : Z)
    (little_endian : bool) (tb : list Z) : option (list Z) :=
  for_each (tile_16_pixel x y buf w little_endian) tile_pixels tb.

(** The values a loop variable takes in [for (i = 0; i < bound; i += 8)].
    (For a bound above [2^32 - 8] the increment would wrap around; the
    callers' bounds are at most 256.) *)
Definition steps_of_8 (bound : Z) : list Z :=
  (fun k => 8 * k) <$> seqZ 0 ((bound + 7) / 8).

(** The pairs [(yi, xi)] of tile origins the two nested loops of
    [draw_texture_8] and [draw_texture_16] run through. *)
Definition tile_origins (w h : Z) : list (Z * Z) :=
  yi ← steps_of_8 (u32 (h * 8)); xi ← steps_of_8 (u32 (w * 8)); [(yi, xi)].

(** The loop state of [draw_texture_8] and [draw_texture_16]: the texture
    buffer and what is left of the source data at [buf]. *)
Definition draw_texture_8_tile (w : Z) (little_endian : bool)
    (s : list Z * list byte) (p : Z * Z) : option (list Z * list byte) :=
  let '(tb, buf) := s in
  let '(yi, xi) := p in
  tb ← draw_texture_tile_8 xi yi buf (u32 (w * 8)) little_endian tb;
  Some (tb, drop (8 * 8) buf).

Definition draw_texture_8 (w h : Z) (buf : list byte) (little_endian : bool)
    (tb : list Z) : option (list Z) :=
  fst <$> for_each (draw_texture_8_tile w little_endian) (tile_origins w h) (tb, buf).

Definition draw_texture_16_tile (w : Z) (little_endian : bool)
    (s : list Z * list byte) (p : Z * Z) : option (list Z * list byte) :=
  let '(tb, buf) := s in
  let '(yi, xi) := p in
  tb ← draw_texture_tile_16 xi yi buf (u32 (w * 8)) little_endian tb;
  Some (tb, drop (8 * 8 * 2) buf).

Definition draw_texture_16 (w h : Z) (buf : list byte) (little_endian : bool)
    (tb : list Z) : option (list Z) :=
  fst <$> for_each (draw_texture_16_tile w little_endian) (tile_origins w h) (tb, buf).

(** [r3dgl_upload_texture], as far as [texture_buffer] is concerned: a
    header of type 2 returns at once; bit 0x00800000 of the header selects
    16-bit texels. *)
Definition r3dgl_upload_texture_pixels (header : Z) (src : list byte)
    (little_endian : bool) (texture_buffer : list Z) : option (list Z) :=
  let g := texture_header header in
  if Z.land header 0x0f000000 =? 0x02000000 then Some texture_buffer
  else if negb (Z.land header 0x00800000 =? 0)
  then draw_texture_16 (tiles_x g) (tiles_y g) src little_endian texture_buffer
  else draw_texture_8 (tiles_x g) (tiles_y g) src little_endian texture_buffer.

(** The colour the loop body of [draw_texture_tile_8] computes for the
    pixel at row [yi], column [xi] of a tile: red, green, blue, alpha. *)
Definition texel_8 (buf : list byte) (little_endian : bool) (p : Z * Z)
    : option (Z * Z * Z * Z) :=
  let '(yi, xi) := p in
  pixel_offs ←
    (if little_endian
     then decode !! Z.to_nat (Z.lxor (yi * 8 + xi) (Z.lor 8 1))
     else decode !! Z.to_nat (yi * 8 + xi));
  lum8 ← load_u8 buf (Z.to_nat pixel_offs);
  Some (lum8, lum8, lum8, 0xFF).

(** The colour the loop body of [draw_texture_tile_16] computes. *)
Definition texel_16 (buf : list byte) (little_endian : bool) (p : Z * Z)
    : option (Z * Z * Z * Z) :=
  let '(yi, xi) := p in
  d ←
    (if little_endian
     then decode !! Z.to_nat (Z.lxor (yi * 8 + xi) 1)
     else decode !! Z.to_nat (yi * 8 + xi));
  let pixel_offs := d * 2 in
  rgb16 ← load_rgb16 buf pixel_offs little_endian;
  let b := Z.shiftl (Z.land rgb16 0x1f) 3 in
  let g := Z.shiftl (Z.land (Z.shiftr rgb16 5) 0x1f) 3 in
  let r := Z.shiftl (Z.land (Z.shiftr rgb16 10) 0x1f) 3 in
  let a := if negb (Z.land rgb16 0x8000 =? 0) then 0x00 else 0xFF in
  Some (r, g, b, a).

(** The four elements of [texture_buffer] that hold the pixel at column
    [px], row [py] of an image [w] pixels wide. *)
Definition pixel_at (tb : list Z) (w px py : Z) : option (Z * Z * Z * Z) :=
  r ← tb !! Z.to_nat ((py * w + px) * 4 + 0);
  g ← tb !! Z.to_nat ((py * w + px) * 4 + 1);
  b ← tb !! Z.to_nat ((py * w + px) * 4 + 2);
  a ← tb !! Z.to_nat ((py * w + px) * 4 + 3);
  Some (r, g, b, a).

(** What it is for the tile with origin [(x, y)] to have been drawn
    into an image [w] pixels wide: each of its 64 pixels holds the colour
    [texel] gives for its row and column within the tile, and every
    pixel outside the tile is in [tb'] what it was in [tb]. *)
Definition tile_drawn (texel : Z * Z -> option (Z * Z * Z * Z)) (x y w : Z)
    (tb tb' : list Z) : Prop :=
  (forall yi xi, 0 <= yi < 8 -> 0 <= xi < 8 ->
     exists c, texel (yi, xi) = Some c /\
               pixel_at tb' w (x + xi) (y + yi) = Some c) /\
  (forall px py, 0 <= px < w -> 0 <= py ->
     ~ (x <= px < x + 8 /\ y <= py < y + 8) ->
     pixel_at tb' w px py = pixel_at tb w px py).

(** What it is for a texture of [w] by [h] tiles to have been drawn from
    the data at [buf], [sz] bytes per tile: the tile in row [ty], column
    [tx] is the [(ty * w + tx)]-th of the data, and each of its pixels
    holds the colour [texel] gives for it from that tile's bytes. *)
Definition texture_drawn (texel : list byte -> Z * Z -> option (Z * Z * Z * Z))
    (sz w h : Z) (buf : list byte) (tb' : list Z) : Prop :=
  forall ty tx yi xi, 0 <= ty < h -> 0 <= tx < w -> 0 <= yi < 8 -> 0 <= xi < 8 ->
    exists c, texel (drop (Z.to_nat (sz * (ty * w + tx))) buf) (yi, xi) = Some c /\
              pixel_at tb' (w * 8) (8 * tx + xi) (8 * ty + yi) = Some c.

(** The size of a texel in the source data, by bit 0x00800000 of the
    header as [r3dgl_upload_texture] tests it. *)
Definition texel_bytes (header : Z) : Z :=
  if negb (Z.land header 0x00800000 =? 0) then 2 else 1.

(** Test data: 64 texels of a tile, as bytes. *)
Definition sample_tile : list byte :=
  [ x00; x01; x02; x03; x04; x05; x06; x07; x08; x09; x0a; x0b; x0c; x0d; x0e; x0f;
    x10; x11; x12; x13; x14; x15; x16; x17; x18; x19; x1a; x1b; x1c; x1d; x1e; x1f;
    x20; x21; x22; x23; x24; x25; x26; x27; x28; x29; x2a; x2b; x2c; x2d; x2e; x2f;
    x30; x31; x32; x33; x34; x35; x36; x37; x38; x39; x3a; x3b; x3c; x3d; x3e; x3f ].

(** Test data: [sample_tile] drawn as 8-bit texels into an empty image of
    one tile. *)
Definition sample_tile_drawn : list Z :=
  Eval vm_compute in
    default [] (draw_texture_tile_8 0 0 sample_tile 8 false (replicate 256 0)).

(** Test data: four tiles, and what [draw_texture_8] makes of them as a
    texture of two by two tiles. *)
Definition sample_tiles : list byte :=
  sample_tile ++ reverse sample_tile ++ sample_tile ++ reverse sample_tile.

Definition sample_texture_drawn : list Z :=
  Eval vm_compute in
    default [] (draw_texture_8 2 2 sample_tiles false (replicate 1024 0)).
(** ** r3dgl.c: scene drawing *)

(** [get_float] reads a word and takes it as the representation of a
    [float]; that reading of 32 bits is kept abstract. *)
Class GLfloatBits (GLfloat : Type) := {
  float_of_bits : Z -> GLfloat
}.

(** The contents of the four memory regions. *)
Definition r3d_memory : Type := r3d_buffer -> list byte.

(** The bytes from where a pointer points on.  There is nothing to read
    at [NULL] or before the start of a buffer. *)
Definition deref (mem : r3d_memory) (p : r3d_ptr) : option (list byte) :=
  match p with
  | r3d_null => None
  | r3d_at b off => if off <? 0 then None else Some (drop (Z.to_nat off) (mem b))
  end.

(** A pointer handed to [draw_model_be] or [draw_model_le], which test it
    for [NULL] themselves. *)
Definition model_buffer (mem : r3d_memory) (p : r3d_ptr) : option (list byte) :=
  match p with
  | r3d_null => None
  | r3d_at b off => Some (if off <? 0 then [] else drop (Z.to_nat off) (mem b))
  end.

(** [p + k] for a byte pointer. *)
Definition ptr_add (p : r3d_ptr) (k : Z) : r3d_ptr :=
  match p with
  | r3d_null => r3d_null
  | r3d_at b off => r3d_at b (off + k)
  end.

(** The messages of the calls to [error]. *)
Inductive error_message : Set :=
  | Invalid_list_address
  | List_in_VROM
  | Unable_to_handle_Real3D_address
  | Unknown_scene_descriptor_link.

(** The calls made while a scene is drawn: those of the two model
    drawing functions, the matrix calls of [draw_block], and [error]. *)
Inductive scene_call (GLfloat : Type) : Type :=
  | model_call (c : gl_call GLfloat)
  | glPushMatrix
  | glPopMatrix
  | glMultMatrixf (m : list GLfloat)
  | glTranslatef (x y z : GLfloat)
  | error (msg : error_message) (arg : Z).

Arguments model_call {GLfloat} c.
Arguments glPushMatrix {GLfloat}.
Arguments glPopMatrix {GLfloat}.
Arguments glMultMatrixf {GLfloat} m.
Arguments glTranslatef {GLfloat} x y z.
Arguments error {GLfloat} msg arg.

(** Why a traversal stopped before its end: a read outside a buffer or
    through [NULL], the iteration budget of the model, or a call to
    [error] that does not return. *)
Inductive halt : Set :=
  | ReadFault
  | OutOfFuel
  | ErrorExit.

(** A computation that makes calls and then either stops or yields a
    value. *)
Definition scene (GLfloat : Type) (A : Type) : Type :=
  list (scene_call GLfloat) * (halt + A).

#[global] Instance scene_ret {GLfloat : Type} : MRet (scene GLfloat) :=
  fun A a => ([], inr a).

#[global] Instance scene_bind {GLfloat : Type} : MBind (scene GLfloat) :=
  fun A B k m =>
    match m with
    | (t, inl h) => (t, inl h)
    | (t, inr a) => let '(t', r) := k a in (t ++ t', r)
    end.

Definition emit {GLfloat : Type} (c : scene_call GLfloat) : scene GLfloat unit :=
  ([c], inr tt).

Definition stop_with {GLfloat : Type} {A : Type} (h : halt) : scene GLfloat A :=
  ([], inl h).

(** A read: it yields the value or is a fault. *)
Definition reading {GLfloat : Type} {A : Type} (o : option A) : scene GLfloat A :=
  match o with
  | Some a => mret a
  | None => stop_with ReadFault
  end.

(** A run of [draw_model_be] or [draw_model_le] within a traversal. *)
Definition model_run {GLfloat : Type} (r : list (gl_call GLfloat) * outcome)
    : scene GLfloat unit :=
  (model_call <$> r.1,
   match r.2 with
   | Finished => inr tt
   | Faulted => inl ReadFault
   | Unfinished => inl OutOfFuel
   end).

(** [CMINDEX(y, x)]. *)
Definition CMINDEX (y x : nat) : nat := (x * 4 + y)%nat.

(** What [draw_block] does with the word [addr] of a block, before the
    calls are made: the calls in program order.  [link_error] stands for
    a call of [error], the other four for calls of [draw_block],
    [draw_model_be], [draw_model_le] and [draw_list] on a translated
    pointer. *)
Inductive link : Set :=
  | link_error (msg : error_message) (arg : Z)
  | link_block (p : r3d_ptr)
  | link_model_be (p : r3d_ptr)
  | link_model_le (p : r3d_ptr)
  | link_list (p : r3d_ptr).

(** "Draw a model or process a list": the [if] on bit 0x08 of the first
    word [w0] of the block and the [switch] on the top byte of [addr]. *)
Definition block_links (w0 addr : Z) : list link :=
  if negb (Z.land w0 0x08 =? 0) then
    (if negb (Z.land addr 0xFE000000 =? 0)
     then [link_error Invalid_list_address addr] else [])
    ++ [link_block (translate_r3d_address (Z.land addr 0x00FFFFFF))]
  else
    match Z.land (Z.shiftr addr 24) 0xFF with
    | 0x00 =>
        if negb (addr =? 0)
        then [link_block (translate_r3d_address (Z.land addr 0x01FFFFFF))]
        else []
    | 0x01 | 0x03 =>
        if negb (addr =? 0) then
          if 0x01800000 <=? Z.land addr 0x01FFFFFF
          then [link_model_be (translate_r3d_address (Z.land addr 0x01FFFFFF))]
          else [link_model_le (translate_r3d_address (Z.land addr 0x01FFFFFF))]
        else []
    | 0x04 =>
        (if 0x018000000 <=? Z.land addr 0x01FFFFFF
         then [link_error List_in_VROM addr] else [])
        ++ [link_list (translate_r3d_address (Z.land addr 0x01FFFFFF))]
    | _ => [link_error Unable_to_handle_Real3D_address addr]
    end.

(** The test at the head of the loop of [draw_block]: one of the first
    four words of the block has the top byte 0x01.  The words are read as
    far as [||] needs them. *)
Definition block_is_pointer (blk : list byte) : option bool :=
  w0 ← GETWORDLE blk (0 * 4);
  if Z.shiftr w0 24 =? 0x01 then Some true else
  w1 ← GETWORDLE blk (1 * 4);
  if Z.shiftr w1 24 =? 0x01 then Some true else
  w2 ← GETWORDLE blk (2 * 4);
  if Z.shiftr w2 24 =? 0x01 then Some true else
  w3 ← GETWORDLE blk (3 * 4);
  Some (Z.shiftr w3 24 =? 0x01).

(** The address [draw_block] hands to [draw_model_be] for a pointer block
    whose first word [w0] has bit 0x00800000 set. *)
Definition pointer_model_address (w0 : Z) : Z :=
  Z.lor (Z.land w0 0x00FFFFFF) 0x01000000.

(** The address of the block a pointer block stands for otherwise. *)
Definition pointer_block_address (w0 : Z) : Z :=
  Z.land w0 0x00FFFFFF.

(** [p] is [NULL] or points into one of the buffers [bs]. *)
Definition points_into (bs : list r3d_buffer) (p : r3d_ptr) : Prop :=
  match p with
  | r3d_null => True
  | r3d_at b _ => b ∈ bs
  end.

Section Scene.

Context {GLfloat : Type} `{GLfloatOps GLfloat} `{GLfloatBits GLfloat}.

(** [get_float]. *)
Definition get_float (src : list byte) (a : nat) : option GLfloat :=
  float_of_bits <$> GETWORDLE src a.

(** [get_matrix]: [src] is the matrix table from the matrix on, [dest]
    the array [m] of the caller with what it held before. *)
Definition get_matrix (dest : list GLfloat) (src : list byte) : option (list GLfloat) :=
  f ← get_float src (3 * 4); let dest := <[CMINDEX 0 0 := f]> dest in
  f ← get_float src (4 * 4); let dest := <[CMINDEX 0 1 := f]> dest in
  f ← get_float src (5 * 4); let dest := <[CMINDEX 0 2 := f]> dest in
  f ← get_float src (0 * 4); let dest := <[CMINDEX 0 3 := f]> dest in
  f ← get_float src (6 * 4); let dest := <[CMINDEX 1 0 := f]> dest in
  f ← get_float src (7 * 4); let dest := <[CMINDEX 1 1 := f]> dest in
  f ← get_float src (8 * 4); let dest := <[CMINDEX 1 2 := f]> dest in
  f ← get_float src (1 * 4); let dest := <[CMINDEX 1 3 := f]> dest in
  f ← get_float src (9 * 4); let dest := <[CMINDEX 2 0 := f]> dest in
  f ← get_float src (10 * 4); let dest := <[CMINDEX 2 1 := f]> dest in
  f ← get_float src (11 * 4); let dest := <[CMINDEX 2 2 := f]> dest in
  f ← get_float src (2 * 4); let dest := <[CMINDEX 2 3 := f]> dest in
  let dest := <[CMINDEX 3 0 := int_to_float 0]> dest in
  let dest := <[CMINDEX 3 1 := int_to_float 0]> dest in
  let dest := <[CMINDEX 3 2 := int_to_float 0]> dest in
  let dest := <[CMINDEX 3 3 := int_to_float 1]> dest in
  Some dest.

(** What a traversal is run with: the memory, the texture grid, whether
    [error] returns to its caller, the iteration budget given to each
    model, and the indeterminate initial contents of the local arrays
    [v], [prev_v] (of the model functions) and [m] (of [draw_block]).
    The static [current_matrix] is only ever written by this file and is
    left out; so are the log messages. *)
Record scene_env : Type := mk_scene_env {
  env_mem : r3d_memory;
  env_grid : list Z;
  error_returns : bool;
  model_fuel : nat;
  junk_v : vertex4 GLfloat;
  junk_m : list GLfloat
}.

(** A call of [error]. *)
Definition call_error (env : scene_env) (msg : error_message) (arg : Z)
    : scene GLfloat unit :=
  ([error msg arg], if error_returns env then inr tt else inl ErrorExit).

Definition call_draw_model_be (env : scene_env) (p : r3d_ptr) : scene GLfloat unit :=
  model_run (draw_model_be (model_fuel env) (env_grid env)
               (model_buffer (env_mem env) p) (junk_v env) (junk_v env)).

Definition call_draw_model_le (env : scene_env) (p : r3d_ptr) : scene GLfloat unit :=
  model_run (draw_model_le (model_fuel env) (env_grid env)
               (model_buffer (env_mem env) p) (junk_v env) (junk_v env)).

(** "Multiply by the specified matrix": the part of [draw_block] between
    [glPushMatrix] and the reading of [addr]. *)
Definition block_transform (env : scene_env) (matrix_base : r3d_ptr)
    (blk : list byte) : scene GLfloat unit :=
  matrix ← reading (GETWORDLE blk (3 * 4));
  _ ← (if negb (Z.land matrix 0x20000000 =? 0) && negb (Z.land matrix 0x3FF =? 0) then
         base ← reading (deref (env_mem env) matrix_base);
         m ← reading (get_matrix (junk_m env)
                        (drop (Z.to_nat (u32 (u32 (Z.land matrix 0x03FF * 12) * 4))) base));
         if negb (Z.land matrix 0x3FF =? 0) then emit (glMultMatrixf m) else mret tt
       else mret tt);
  tx ← reading (get_float blk (4 * 4));
  ty ← reading (get_float blk (5 * 4));
  tz ← reading (get_float blk (6 * 4));
  emit (glTranslatef tx ty tz).

(** The calls [block_links] lists, made one after the other;
    [draw_block] and [draw_list] are given as arguments. *)
Definition call_link (env : scene_env)
    (draw_block draw_list : r3d_ptr -> scene GLfloat unit) (l : link)
    : scene GLfloat unit :=
  match l with
  | link_error msg arg => call_error env msg arg
  | link_block p => draw_block p
  | link_model_be p => call_draw_model_be env p
  | link_model_le p => call_draw_model_le env p
  | link_list p => draw_list p
  end.

Fixpoint for_links (env : scene_env)
    (draw_block draw_list : r3d_ptr -> scene GLfloat unit) (links : list link)
    : scene GLfloat unit :=
  match links with
  | [] => mret tt
  | l :: links =>
      _ ← call_link env draw_block draw_list l;
      for_links env draw_block draw_list links
  end.

(** [draw_block] and [draw_list].  Every pass of a loop and every call
    takes one unit of [fuel]: blocks and lists may be linked in
    circles. *)
Fixpoint draw_block (env : scene_env) (matrix_base : r3d_ptr) (fuel : nat)
    (block : r3d_ptr) {struct fuel} : scene GLfloat unit :=
  match fuel with
  | O => stop_with OutOfFuel
  | S fuel =>
      blk ← reading (deref (env_mem env) block);
      is_pointer ← reading (block_is_pointer blk);
      let continue (block : r3d_ptr) : scene GLfloat unit :=
        _ ← emit glPushMatrix;
        blk ← reading (deref (env_mem env) block);
        _ ← block_transform env matrix_base blk;
        addr ← reading (GETWORDLE blk (7 * 4));
        w0 ← reading (GETWORDLE blk (0 * 4));
        _ ← for_links env (draw_block env matrix_base fuel)
              (draw_list env matrix_base fuel) (block_links w0 addr);
        _ ← emit glPopMatrix;
        next_ptr ← reading (GETWORDLE blk (8 * 4));
        if negb (Z.land next_ptr 0x01000000 =? 0) || (next_ptr =? 0)
        then mret tt
        else draw_block env matrix_base fuel (translate_r3d_address next_ptr)
      in
      if is_pointer : bool then
        w0 ← reading (GETWORDLE blk (0 * 4));
        if negb (Z.land w0 0x00800000 =? 0)
        then call_draw_model_be env (translate_r3d_address (pointer_model_address w0))
        else continue (translate_r3d_address (pointer_block_address w0))
      else continue block
  end

with draw_list (env : scene_env) (matrix_base : r3d_ptr) (fuel : nat)
    (list : r3d_ptr) {struct fuel} : scene GLfloat unit :=
  match fuel with
  | O => stop_with OutOfFuel
  | S fuel =>
      l ← reading (deref (env_mem env) list);
      addr ← reading (GETWORDLE l 0);
      if (addr =? 0) || (addr =? 0x800800) then mret tt
      else if addr =? 0x03000000 then mret tt
      else
        _ ← draw_block env matrix_base fuel
              (translate_r3d_address (Z.land addr 0x01FFFFFF));
        if negb (Z.land addr 0x02000000 =? 0) then mret tt
        else draw_list env matrix_base fuel (ptr_add list 4)
  end.

(** The [switch] of [draw_scene] on the link word of a scene
    descriptor: a block is drawn, a list is not (the call is commented
    out), anything else is an error. *)
Definition scene_link (env : scene_env) (draw_block : r3d_ptr -> scene GLfloat unit)
    (word j : Z) : scene GLfloat unit :=
  match Z.land (Z.shiftr word 24) 0xFE with
  | 0x00 => draw_block (r3d_at culling_ram_8e j)
  | 0x04 => mret tt
  | _ => call_error env Unknown_scene_descriptor_link word
  end.

(** The loop of [draw_scene], from the scene descriptor at byte offset
    [i] of 8E culling RAM on.  (The calls of [message] and of the log
    read the descriptor but leave no trace here.) *)
Fixpoint draw_scene_from (env : scene_env) (fuel : nat) (i : Z) {struct fuel}
    : scene GLfloat unit :=
  match fuel with
  | O => stop_with OutOfFuel
  | S fuel =>
      let ram := env_mem env culling_ram_8e in
      base ← reading (GETWORDLE ram (Z.to_nat (u32 (i + 0x16 * 4))));
      let matrix_base := translate_r3d_address base in
      j ← reading (GETWORDLE ram (Z.to_nat (u32 (i + 8))));
      let j := u32 (Z.land j 0xFFFF * 4) in
      if j =? 0 then mret tt
      else
        next ← reading (GETWORDLE ram (Z.to_nat (u32 (i + 4))));
        let stop := next =? 0x01000000 in
        let i := u32 (Z.land next 0xFFFF * 4) in
        word ← reading (GETWORDLE ram (Z.to_nat (u32 (i + 8))));
        _ ← scene_link env (draw_block env matrix_base fuel) word j;
        if stop then mret tt else draw_scene_from env fuel i
  end.

(** [draw_scene]: the traversal starts at the descriptor at offset 0. *)
Definition draw_scene (env : scene_env) (fuel : nat) : scene GLfloat unit :=
  draw_scene_from env fuel 0.

End Scene.

(** How deep the matrix stack stands after a sequence of calls that
    starts at depth [d]; [None] if a [glPopMatrix] finds nothing that the
    sequence has pushed or that was there at its start. *)
Fixpoint matrix_depth {GLfloat : Type} (d : nat) (t : list (scene_call GLfloat))
    : option nat :=
  match t with
  | [] => Some d
  | glPushMatrix :: t => matrix_depth (S d) t
  | glPopMatrix :: t =>
      match d with
      | O => None
      | S d => matrix_depth d t
      end
  | _ :: t => matrix_depth d t
  end.

(** A computation that takes the matrix stack from depth [d1] to depth
    [d2] if it runs to its end, and that never pops more than [d1]
    entries beyond its own, however it ends. *)
Definition moves_depth {GLfloat A : Type} (d1 d2 : nat) (m : scene GLfloat A) : Prop :=
  exists d', matrix_depth d1 m.1 = Some d' /\ (forall a, m.2 = inr a -> d' = d2).

(** The 32-bit word [w] as four bytes, lowest first. *)
Definition le_bytes (w : Z) : list byte :=
  (fun k => default x00 (Byte.of_N (Z.to_N (Z.land (Z.shiftr w (8 * k)) 0xFF))))
    <$> seqZ 0 4.

(** Test data.  A stand-in for the conversion of a bit pattern to a
    float: the pattern read as an integer. *)
Definition sample_GLfloatBits : GLfloatBits Q := {| float_of_bits := inject_Z |}.

(** Test data: 8E culling RAM with one scene descriptor, whose words 1,
    2 and 0x16 are the stop mark, the word address 0x18 of a block, and
    the matrix base; and at word 0x18 a block of ten words with no
    matrix, a translation, no model and no successor. *)
Definition sample_culling_ram_8e : list byte :=
  mjoin (le_bytes <$>
    ([0; 0x01000000; 0x18] ++ replicate 19 0 ++ [0x00800000; 0]
     ++ [0; 0; 0; 0; 1; 2; 3; 0; 0; 0])).

(** Test data: the twelve words of a matrix in the matrix table. *)
Definition sample_matrix : list byte :=
  mjoin (le_bytes <$> [1; 2; 3; 4; 5; 6; 7; 8; 9; 10; 11; 12]).

Definition sample_memory : r3d_memory :=
  fun b => match b with culling_ram_8e => sample_culling_ram_8e | _ => [] end.

Definition sample_env : scene_env (GLfloat := Q) :=
  mk_scene_env sample_memory (replicate 4096 0) true 1000 zero_vertex4
    (replicate 16 0%Q).

(** ** The OpenGL state the model functions act on *)

(** Whether a [glBegin] is open, and the two capabilities the model
    functions switch. *)
Record gl_state : Set := mk_gl_state {
  in_begin_end : bool;
  texture_2d : bool;
  blend : bool
}.

Definition gl_set (cap : GLenum) (on : bool) (s : gl_state) : gl_state :=
  match cap with
  | GL_TEXTURE_2D => mk_gl_state (in_begin_end s) on (blend s)
  | GL_BLEND => mk_gl_state (in_begin_end s) (texture_2d s) on
  | _ => s
  end.

(** The effect of one call.  By the rules of OpenGL, between [glBegin]
    and [glEnd] only vertex data may be given: another [glBegin], a
    [glEnable], [glDisable], [glBlendFunc] or [glBindTexture] there is an
    error, as are a [glEnd] with no [glBegin] open and a [glVertex3f]
    outside the two; [None] stands for these. *)
Definition gl_step {GLfloat : Type} (s : gl_state) (c : gl_call GLfloat)
    : option gl_state :=
  match c with
  | glBegin _ =>
      if in_begin_end s then None
      else Some (mk_gl_state true (texture_2d s) (blend s))
  | glEnd =>
      if in_begin_end s then Some (mk_gl_state false (texture_2d s) (blend s))
      else None
  | glColor3ub _ _ _ | glTexCoord2f _ _ => Some s
  | glVertex3f _ _ _ => if in_begin_end s then Some s else None
  | glEnable cap => if in_begin_end s then None else Some (gl_set cap true s)
  | glDisable cap => if in_begin_end s then None else Some (gl_set cap false s)
  | glBlendFunc _ _ | glBindTexture _ _ => if in_begin_end s then None else Some s
  end.

Definition gl_run {GLfloat : Type} (s : gl_state) (l : list (gl_call GLfloat))
    : option gl_state :=
  for_each gl_step l s.
(** * Properties *)

(** ** Status codes *)

(** C6: [DRPPC_ERRNUM] has exactly eight enumerators: the seven codes the
    host sees, generic error (-1), invalid configuration (-2), bad program
    counter (-3), out of memory (-4), compile error (-5), runtime error
    (-6) and okay (0), and the one internal value [DRPPC_TERMINATOR].  The
    values are pairwise distinct, okay is zero, every error code is
    negative, and [DRPPC_TERMINATOR] differs from every host-visible
    code. *)
Theorem DRPPC_ERRNUM_codes :
  (forall e, In e DRPPC_ERRNUM_all) /\
  List.NoDup DRPPC_ERRNUM_all /\
  List.filter (fun e => negb (internal_only e)) DRPPC_ERRNUM_all =
    [DRPPC_ERROR; DRPPC_INVALID_CONFIG; DRPPC_BAD_PC; DRPPC_OUT_OF_MEMORY;
     DRPPC_COMPILE_ERROR; DRPPC_RUNTIME_ERROR; DRPPC_OKAY] /\
  List.filter internal_only DRPPC_ERRNUM_all = [DRPPC_TERMINATOR] /\
  List.map errnum_value DRPPC_ERRNUM_all = [-1; -2; -3; -4; -5; -6; 0; 1] /\
  (forall a b, errnum_value a = errnum_value b -> a = b) /\
  (forall e, is_error e = true <-> errnum_value e < 0) /\
  (forall e, internal_only e = false ->
     errnum_value e <> errnum_value DRPPC_TERMINATOR).
Proof.
  repeat split.
  - intros e. destruct e; simpl; tauto.
  - unfold DRPPC_ERRNUM_all.
    repeat (constructor; [simpl; intuition discriminate |]). constructor.
  - intros a b. destruct a, b; simpl; intros Hv; (reflexivity || discriminate Hv).
  - destruct e; simpl; intros Hv; (lia || discriminate Hv).
  - destruct e; simpl; intros Hv; (reflexivity || lia).
  - intros e. destruct e; simpl; intros Hv; (lia || discriminate Hv).
Qed.

(** ** Regions *)

Lemma macro_region_fields :
  (forall s e b v, handler (DRPPC_REGION_BUF_BE s e b v) = NULL) /\
  (forall vol s e b f, handler (DRPPC_REGION_BUF_LE vol s e b f) = NULL) /\
  (forall s e h, ptr (DRPPC_REGION_HANDLER s e h) = NULL) /\
  (ptr DRPPC_REGION_END = NULL /\ handler DRPPC_REGION_END = NULL) /\
  (ptr DRPPC_REGION_PLACEHOLDER = NULL /\ handler DRPPC_REGION_PLACEHOLDER = NULL) /\
  (forall r s e b v, handler (DRPPC_SET_REGION_BUF_BE r s e b v) = NULL) /\
  (forall r s e b v, handler (DRPPC_SET_REGION_BUF_LE r s e b v) = NULL) /\
  (forall r s e h, ptr (DRPPC_SET_REGION_HANDLER r s e h) = NULL).
Proof. repeat split. Qed.

(** C5: a region built by any of the eight region macros has at most one
    of [ptr] and [handler] non-NULL: the buffer macros set [handler] to
    NULL, the handler macros set [ptr] to NULL, and the end and placeholder
    regions set both to NULL. *)
Theorem macro_region_exclusive (r : DRPPC_REGION) :
  macro_region r ->
  (ptr r = NULL \/ handler r = NULL) /\
  (forall s e b v, r = DRPPC_REGION_BUF_BE s e b v -> handler r = NULL) /\
  (forall vol s e b f, r = DRPPC_REGION_BUF_LE vol s e b f -> handler r = NULL) /\
  (forall s e h, r = DRPPC_REGION_HANDLER s e h -> ptr r = NULL) /\
  (r = DRPPC_REGION_END -> ptr r = NULL /\ handler r = NULL) /\
  (r = DRPPC_REGION_PLACEHOLDER -> ptr r = NULL /\ handler r = NULL) /\
  (forall r0 s e b v, r = DRPPC_SET_REGION_BUF_BE r0 s e b v -> handler r = NULL) /\
  (forall r0 s e b v, r = DRPPC_SET_REGION_BUF_LE r0 s e b v -> handler r = NULL) /\
  (forall r0 s e h, r = DRPPC_SET_REGION_HANDLER r0 s e h -> ptr r = NULL).
Proof.
  intros Hr. split.
  - destruct Hr; simpl; auto.
  - repeat split; intros; subst r; reflexivity.
Qed.

Lemma macro_region_exclusive_witness :
  ptr (DRPPC_REGION_HANDLER 0xF0000000 0xF00FFFFF 0x401000) = NULL \/
  handler (DRPPC_REGION_HANDLER 0xF0000000 0xF00FFFFF 0x401000) = NULL.
Proof.
  exact (proj1 (macro_region_exclusive _ (mr_handler 0xF0000000 0xF00FFFFF 0x401000))).
Defined.

(** C3, as far as the code goes: the two buffer initialisers agree on
    [start], [end], [ptr] and the NULL [handler], and differ in
    [big_endian]; [volatile_ptr] is the fourth argument for the big-endian
    macro, but for the little-endian one it is the object [vol] of the
    enclosing scope, whatever the fourth argument.  With [vol] false in
    scope and TRUE passed, the two regions differ in [volatile_ptr]. *)
Theorem DRPPC_REGION_BUF_LE_volatile_ptr :
  (forall vol_in_scope s e b v,
     let be := DRPPC_REGION_BUF_BE s e b v in
     let le := DRPPC_REGION_BUF_LE vol_in_scope s e b v in
     start le = start be /\ end_ le = end_ be /\ ptr le = ptr be /\
     handler le = NULL /\ handler be = NULL /\
     big_endian be = TRUE /\ big_endian le = FALSE /\
     volatile_ptr be = v /\ volatile_ptr le = vol_in_scope) /\
  volatile_ptr (DRPPC_REGION_BUF_BE 0 0xFFFF 0x1000 TRUE) = TRUE /\
  volatile_ptr (DRPPC_REGION_BUF_LE FALSE 0 0xFFFF 0x1000 TRUE) = FALSE.
Proof. repeat split. Qed.

(** ** Address translation *)

Lemma land_low_bits (addr base n : Z) :
  0 <= n -> base mod 2 ^ n = 0 -> base <= addr < base + 2 ^ n ->
  Z.land addr (Z.ones n) = addr - base.
Proof.
  intros Hn Hbase Haddr. rewrite Z.land_ones by assumption.
  assert (Hpos : 0 < 2 ^ n) by (apply Z.pow_pos_nonneg; lia).
  apply Z.mod_divide in Hbase; [| lia]. destruct Hbase as [q Hq].
  symmetry. apply (Z.mod_unique_pos _ _ q). - lia. - lia.
Qed.

(** What [translate_r3d_address] returns on each of its four ranges, and
    outside them. *)
Lemma translate_r3d_address_cases (addr : Z) :
  is_u32 addr ->
  match translate_r3d_address addr with
  | r3d_at b off =>
      in_r3d_range b addr = true /\ off = 4 * (addr - fst (r3d_range b))
  | r3d_null => forall b, in_r3d_range b addr = false
  end.
Proof.
  unfold is_u32, translate_r3d_address. intros Hu.
  destruct (Z.leb_spec addr 0x007FFFF).
  { split; [unfold in_r3d_range; simpl; lia |].
    unfold u32. simpl fst. rewrite Z.mod_small; lia. }
  destruct (Z.leb_spec 0x0800000 addr), (Z.leb_spec addr 0x083FFFF); simpl andb.
  { change 0x003FFFF with (Z.ones 18).
    rewrite (land_low_bits addr 0x0800000 18) by (reflexivity || lia).
    split; [unfold in_r3d_range; simpl; lia |].
    unfold u32. simpl fst. rewrite Z.mod_small; lia. }
  all: destruct (Z.leb_spec 0x1000000 addr), (Z.leb_spec addr 0x107FFFF); simpl andb.
  all: try (change 0x007FFFF with (Z.ones 19);
    rewrite (land_low_bits addr 0x1000000 19) by (reflexivity || lia);
    split; [unfold in_r3d_range; simpl; lia |];
    unfold u32; simpl fst; rewrite Z.mod_small; lia).
  all: destruct (Z.leb_spec 0x1800000 addr), (Z.leb_spec addr 0x1FFFFFF); simpl andb.
  all: try (change 0x07FFFFF with (Z.ones 23);
    rewrite (land_low_bits addr 0x1800000 23) by (reflexivity || lia);
    split; [unfold in_r3d_range; simpl; lia |];
    unfold u32; simpl fst; rewrite Z.mod_small; lia).
  all: intros b; destruct b; unfold in_r3d_range; simpl; lia.
Qed.

Lemma in_r3d_range_unique (b1 b2 : r3d_buffer) (addr : Z) :
  in_r3d_range b1 addr = true -> in_r3d_range b2 addr = true -> b1 = b2.
Proof.
  unfold in_r3d_range. destruct b1, b2; simpl; intros H1 H2; (reflexivity || lia).
Qed.

(** C1: address resolution is total and unambiguous.  For every guest
    address, the four declared ranges contain it at most once; an address
    inside the range of a region resolves to a pointer into that region's
    buffer, at the offset of its word; a pointer is never into another
    region's buffer; and an address in none of the four ranges resolves to
    NULL. *)
Theorem translate_r3d_address_total (addr : Z) :
  is_u32 addr ->
  (forall b1 b2, in_r3d_range b1 addr = true -> in_r3d_range b2 addr = true -> b1 = b2) /\
  (forall b, in_r3d_range b addr = true ->
     translate_r3d_address addr = r3d_at b (4 * (addr - fst (r3d_range b))) /\
     0 <= 4 * (addr - fst (r3d_range b)) < r3d_extent b) /\
  (forall b off, translate_r3d_address addr = r3d_at b off ->
     in_r3d_range b addr = true) /\
  ((forall b, in_r3d_range b addr = false) <->
     translate_r3d_address addr = r3d_null).
Proof.
  intros Hu. pose proof (translate_r3d_address_cases addr Hu) as Hc.
  split; [| split; [| split]].
  - intros b1 b2. apply in_r3d_range_unique.
  - intros b Hb. destruct (translate_r3d_address addr) as [| b' off].
    + rewrite Hc in Hb. discriminate Hb.
    + destruct Hc as [Hb' ->]. rewrite (in_r3d_range_unique b b' addr Hb Hb').
      split; [reflexivity |]. clear Hb. unfold in_r3d_range in Hb'.
      unfold r3d_extent. destruct b'; simpl in *; lia.
  - intros b off Heq. rewrite Heq in Hc. apply Hc.
  - split.
    + intros Hnone. destruct (translate_r3d_address addr) as [| b off]; [reflexivity |].
      destruct Hc as [Hb _]. rewrite Hnone in Hb. discriminate Hb.
    + intros Heq. rewrite Heq in Hc. exact Hc.
Qed.

Lemma translate_r3d_address_total_witness :
  translate_r3d_address 0x0800600 = r3d_at culling_ram_8e (4 * 0x600) /\
  translate_r3d_address 0x18AA963 = r3d_at vrom (4 * 0x0AA963) /\
  translate_r3d_address 0x1200000 = r3d_null.
Proof.
  assert (H8e : is_u32 0x0800600) by (unfold is_u32; lia).
  assert (Hvr : is_u32 0x18AA963) by (unfold is_u32; lia).
  assert (Hno : is_u32 0x1200000) by (unfold is_u32; lia).
  split; [| split].
  - exact (proj1 (proj1 (proj2 (translate_r3d_address_total _ H8e))
                    culling_ram_8e eq_refl)).
  - exact (proj1 (proj1 (proj2 (translate_r3d_address_total _ Hvr)) vrom eq_refl)).
  - apply (proj2 (proj2 (proj2 (translate_r3d_address_total _ Hno)))).
    intros b; destruct b; reflexivity.
Defined.

(** C10: for every address accepted by one of the four range tests, the
    byte offset added to the region's base pointer stays within the
    region: at most 4*0x7FFFF for 8C culling RAM and polygon RAM, 4*0x3FFFF
    for 8E culling RAM and 4*0x7FFFFF for VROM; it is four times a word
    index that the mask (or the range test) keeps within the region. *)
Theorem translate_r3d_address_offset (addr : Z) (b : r3d_buffer) (off : Z) :
  is_u32 addr ->
  translate_r3d_address addr = r3d_at b off ->
  0 <= off <= r3d_max_offset b /\
  off + 4 <= r3d_extent b /\
  exists word, off = 4 * word /\ 0 <= word <= snd (r3d_range b) - fst (r3d_range b).
Proof.
  intros Hu Heq. pose proof (translate_r3d_address_cases addr Hu) as Hc.
  rewrite Heq in Hc. destruct Hc as [Hb ->].
  unfold in_r3d_range in Hb. unfold r3d_extent.
  split; [| split].
  - destruct b; simpl in *; lia.
  - destruct b; simpl in *; lia.
  - exists (addr - fst (r3d_range b)). destruct b; simpl in *; lia.
Qed.

Lemma translate_r3d_address_offset_witness :
  0 <= 4 * 0x7FFFFF <= r3d_max_offset vrom.
Proof.
  refine (proj1 (translate_r3d_address_offset 0x1FFFFFF vrom (4 * 0x7FFFFF) _ _)).
  - unfold is_u32; lia.
  - reflexivity.
Defined.

(** ** Texture grid *)

Lemma grid_store_length (grid grid' : list Z) (i id : Z) :
  grid_store grid i id = Some grid' -> length grid' = length grid.
Proof.
  unfold grid_store. destruct (_ && _); [| discriminate].
  intros [= <-]. apply length_insert.
Qed.

(** The marking loop runs to its end exactly when every index it stores
    to lies within the grid. *)
Lemma grid_store_all_in_bounds (idxs : list Z) (grid : list Z) (id : Z) :
  is_Some (grid_store_all grid idxs id) <->
  Forall (fun i => 0 <= i < Z.of_nat (length grid)) idxs.
Proof.
  revert grid. induction idxs as [| i idxs IH]; intros grid; simpl.
  - split; [constructor | eauto].
  - rewrite Forall_cons. destruct (grid_store grid i id) as [grid' |] eqn:Hst; simpl.
    + rewrite IH, (grid_store_length _ _ _ _ Hst).
      unfold grid_store in Hst.
      destruct (Z.leb_spec 0 i), (Z.ltb_spec i (Z.of_nat (length grid)));
        simpl in Hst; try discriminate Hst.
      intuition lia.
    + unfold grid_store in Hst.
      destruct (Z.leb_spec 0 i), (Z.ltb_spec i (Z.of_nat (length grid)));
        simpl in Hst; try discriminate Hst.
      all: split; [intros [? [=]] | intros [? _]; lia].
Qed.

(** A texture that lies within the 64x64 sheet marks cells of the grid
    only. *)
Lemma grid_index_inside_sheet (g : texture_geometry) (yi xi : Z) :
  0 <= yi -> 0 <= xi -> 0 <= xpos g -> 0 <= ypos g ->
  yi + ypos g / 32 < 64 -> xi + xpos g / 32 < 64 ->
  0 <= grid_index g yi xi < texture_grid_size.
Proof.
  intros Hyi Hxi Hx Hy Hrow Hcol. unfold grid_index, texture_grid_size, u32.
  assert (0 <= ypos g / 32) by (apply Z.div_pos; lia).
  assert (0 <= xpos g / 32) by (apply Z.div_pos; lia).
  rewrite (Z.mod_small (yi + ypos g / 32)) by lia.
  rewrite (Z.mod_small (xi + xpos g / 32)) by lia.
  rewrite (Z.mod_small ((yi + ypos g / 32) * 64)) by lia.
  rewrite Z.mod_small by lia. lia.
Qed.

(** C9, at the header 0x00160F80 (a 32x256 texture at row 63 of the
    sheet): the marking loop covers the index 4480, which lies past the
    64*64 elements of [texture_grid], and the store at the first such
    index, 4096, leaves the array. *)
Theorem r3dgl_upload_texture_leaves_grid :
  let header := 0x00160F80 in
  let g := texture_header header in
  is_u32 header /\
  g = mk_geometry 4 32 0 (63 * 32) /\
  grid_writes g = [4032; 4096; 4160; 4224; 4288; 4352; 4416; 4480] /\
  grid_index g 7 0 = 4480 /\
  texture_grid_size <= 4480 /\
  r3dgl_upload_texture header 1 (replicate 4096 0) = None.
Proof.
  cbv zeta. split; [unfold is_u32; lia |].
  split; [reflexivity |]. split; [reflexivity |]. split; [reflexivity |].
  split; [unfold texture_grid_size; lia |]. vm_compute. reflexivity.
Qed.

(** ** Word access *)

Lemma byte_val_range (b : byte) : 0 <= byte_val b < 256.
Proof. unfold byte_val. pose proof (Byte.to_N_bounded b). lia. Qed.

Lemma testbit_byte_high (x i : Z) :
  0 <= x < 256 -> 8 <= i -> Z.testbit x i = false.
Proof.
  intros Hx Hi.
  rewrite <- (Z.mod_small x (2 ^ 8)) by (change (2 ^ 8) with 256; lia).
  apply Z.mod_pow2_bits_high. lia.
Qed.

Lemma testbit_mask (k n i : Z) :
  0 <= k -> 0 <= n -> 0 <= i ->
  Z.testbit (Z.shiftl (Z.ones n) k) i = (k <=? i) && (i <? k + n).
Proof.
  intros Hk Hn Hi. destruct (Z.leb_spec k i).
  - rewrite Z.shiftl_spec by lia.
    rewrite Z.testbit_ones_nonneg by lia. simpl.
    destruct (Z.ltb_spec (i - k) n), (Z.ltb_spec i (k + n)); auto; lia.
  - rewrite Z.shiftl_spec_low by lia. reflexivity.
Qed.

(** One rewriting step towards the bits of a word built from bytes. *)
Ltac bits_step :=
  first [ rewrite Z.lor_spec | rewrite Z.land_spec
        | rewrite testbit_mask by lia
        | rewrite Z.shiftr_spec by lia
        | match goal with
          | |- context [Z.testbit (Z.shiftl ?a ?k) ?j] =>
              first [ rewrite (Z.shiftl_spec_low a k j) by lia
                    | rewrite (Z.shiftl_spec a k j) by lia ]
          | H : 0 <= ?b < 256 |- context [Z.testbit ?b ?j] =>
              rewrite (testbit_byte_high b j H) by lia
          | |- context [?a <=? ?b] => destruct (Z.leb_spec a b); try lia
          | |- context [?a <? ?b] => destruct (Z.ltb_spec a b); try lia
          end ].

Ltac bits_bool :=
  repeat first [ rewrite Bool.andb_true_r | rewrite Bool.andb_false_r
               | rewrite Bool.orb_false_r | rewrite Bool.orb_false_l
               | progress cbn [andb orb] ].

Ltac bits_by_byte i :=
  destruct (Z.ltb_spec i 8);
  [| destruct (Z.ltb_spec i 16);
     [| destruct (Z.ltb_spec i 24); [| destruct (Z.ltb_spec i 32)]]].

(** [BSWAP32] turns the little-endian reading of four bytes into their
    big-endian reading. *)
Lemma BSWAP32_word_le (b0 b1 b2 b3 : Z) :
  0 <= b0 < 256 -> 0 <= b1 < 256 -> 0 <= b2 < 256 -> 0 <= b3 < 256 ->
  BSWAP32 (word_le b0 b1 b2 b3) = word_be b0 b1 b2 b3.
Proof.
  intros H0 H1 H2 H3. unfold BSWAP32, word_le, word_be.
  change 0xFF with (Z.shiftl (Z.ones 8) 0).
  change 0xFF00 with (Z.shiftl (Z.ones 8) 8).
  change 0xFF0000 with (Z.shiftl (Z.ones 8) 16).
  change 0xFF000000 with (Z.shiftl (Z.ones 8) 24).
  apply Z.bits_inj'. intros i Hi. bits_by_byte i.
  all: repeat bits_step.
  all: bits_bool; try reflexivity.
  all: f_equal; lia.
Qed.

(** The big-endian reading of four bytes is the little-endian reading of
    the same bytes in reverse order. *)
Lemma word_be_rev (b0 b1 b2 b3 : Z) :
  word_be b0 b1 b2 b3 = word_le b3 b2 b1 b0.
Proof.
  unfold word_be, word_le.
  rewrite (Z.lor_comm (Z.shiftl b2 8) b3).
  rewrite (Z.lor_comm (Z.shiftl b1 16)), (Z.lor_comm (Z.shiftl b0 24)).
  rewrite <- !Z.lor_assoc. reflexivity.
Qed.

Lemma word_le_range (b0 b1 b2 b3 : Z) :
  0 <= b0 < 256 -> 0 <= b1 < 256 -> 0 <= b2 < 256 -> 0 <= b3 < 256 ->
  is_u32 (word_le b0 b1 b2 b3).
Proof.
  intros H0 H1 H2 H3. unfold is_u32.
  assert (Hnn : 0 <= word_le b0 b1 b2 b3).
  { unfold word_le. repeat (apply Z.lor_nonneg; split); try apply Z.shiftl_nonneg; lia. }
  split; [exact Hnn |].
  destruct (Z.eq_dec (word_le b0 b1 b2 b3) 0) as [-> | Hne]; [lia |].
  apply Z.log2_lt_pow2; [lia |].
  destruct (Z.lt_ge_cases (Z.log2 (word_le b0 b1 b2 b3)) 32) as [Hlt | Hge]; [exact Hlt |].
  exfalso. assert (Hbit : Z.testbit (word_le b0 b1 b2 b3) (Z.log2 (word_le b0 b1 b2 b3)) = true)
    by (apply Z.bit_log2; lia).
  revert Hbit. generalize (Z.log2 (word_le b0 b1 b2 b3)) Hge. intros i Hi.
  unfold word_le. repeat bits_step. bits_bool. discriminate.
Qed.

(** C4: the big-endian fetch [GETWORDBE] of four bytes is [BSWAP32] of
    their little-endian fetch [GETWORDLE]; on the bytes [b0 b1 b2 b3] the
    two fetches give the big-endian and the little-endian reading, the
    byte reversals of one another; hence a direct-access big-endian region
    and an otherwise identical little-endian one give byte-swapped 32-bit
    fetch results on the same bytes. *)
Theorem GETWORDBE_BSWAP32_GETWORDLE :
  (forall buf a, GETWORDBE buf a = BSWAP32 <$> GETWORDLE buf a) /\
  (forall b0 b1 b2 b3 : byte,
     GETWORDLE [b0; b1; b2; b3] 0 =
       Some (word_le (byte_val b0) (byte_val b1) (byte_val b2) (byte_val b3)) /\
     GETWORDBE [b0; b1; b2; b3] 0 =
       Some (word_be (byte_val b0) (byte_val b1) (byte_val b2) (byte_val b3)) /\
     GETWORDBE [b0; b1; b2; b3] 0 = GETWORDLE [b3; b2; b1; b0] 0 /\
     GETWORDLE [b0; b1; b2; b3] 0 = BSWAP32 <$> GETWORDBE [b0; b1; b2; b3] 0) /\
  (forall s e p v vol f buf a,
     region_fetch32 (DRPPC_REGION_BUF_BE s e p v) buf a =
       BSWAP32 <$> region_fetch32 (DRPPC_REGION_BUF_LE vol s e p f) buf a).
Proof.
  split; [reflexivity |]. split; [| reflexivity].
  intros b0 b1 b2 b3.
  pose proof (byte_val_range b0). pose proof (byte_val_range b1).
  pose proof (byte_val_range b2). pose proof (byte_val_range b3).
  assert (Hbe : GETWORDBE [b0; b1; b2; b3] 0 =
    Some (word_be (byte_val b0) (byte_val b1) (byte_val b2) (byte_val b3))).
  { unfold GETWORDBE, load_u32, load_u8. simpl.
    rewrite BSWAP32_word_le by assumption. reflexivity. }
  split; [reflexivity |]. split; [exact Hbe |]. split.
  - rewrite Hbe. unfold GETWORDLE, load_u32, load_u8. simpl.
    rewrite word_be_rev. reflexivity.
  - rewrite Hbe. simpl. rewrite word_be_rev, BSWAP32_word_le by assumption.
    rewrite word_be_rev. reflexivity.
Qed.

(** ** Model drawing: byte order *)

Lemma word_sized_cons4 (b0 b1 b2 b3 : byte) (rest : list byte) :
  word_sized (b0 :: b1 :: b2 :: b3 :: rest) <-> word_sized rest.
Proof.
  unfold word_sized, aligned. simpl length.
  replace (S (S (S (S (length rest))))) with (length rest + 1 * 4)%nat by lia.
  rewrite Nat.Div0.mod_add. reflexivity.
Qed.

Lemma word_sized_inv (buf : list byte) :
  word_sized buf ->
  buf = [] \/
  exists b0 b1 b2 b3 rest, buf = b0 :: b1 :: b2 :: b3 :: rest /\ word_sized rest.
Proof.
  intros Hw. destruct buf as [| b0 [| b1 [| b2 [| b3 rest]]]];
    try (left; reflexivity);
    try (exfalso; revert Hw; unfold word_sized, aligned; simpl; discriminate).
  right. exists b0, b1, b2, b3, rest. split; [reflexivity |].
  apply word_sized_cons4 in Hw. exact Hw.
Qed.

Lemma mirror_word (q j : nat) :
  (j < 4)%nat -> mirror (q * 4 + j) = (q * 4 + (3 - j))%nat.
Proof.
  intros Hj. unfold mirror.
  rewrite <- (Nat.div_unique (q * 4 + j) 4 q j) by lia.
  rewrite <- (Nat.mod_unique (q * 4 + j) 4 q j) by lia.
  reflexivity.
Qed.

Lemma bswap_words_lookup (buf : list byte) (a : nat) :
  word_sized buf -> bswap_words buf !! a = buf !! mirror a.
Proof.
  revert a. induction buf as [buf IH] using (induction_ltof1 _ (@length byte)).
  unfold ltof in IH. intros a Hw.
  destruct (word_sized_inv buf Hw) as [-> | (b0 & b1 & b2 & b3 & rest & -> & Hrest)].
  - reflexivity.
  - destruct a as [| [| [| [| a]]]]; try reflexivity.
    change (bswap_words (b0 :: b1 :: b2 :: b3 :: rest))
      with (b3 :: b2 :: b1 :: b0 :: bswap_words rest).
    change ((b3 :: b2 :: b1 :: b0 :: bswap_words rest) !! S (S (S (S a))))
      with (bswap_words rest !! a).
    rewrite IH by (simpl; lia || assumption).
    replace (mirror (S (S (S (S a))))) with (S (S (S (S (mirror a))))); [reflexivity |].
    unfold mirror. replace (S (S (S (S a)))) with (a + 1 * 4)%nat by lia.
    rewrite Nat.div_add, Nat.Div0.mod_add by lia. lia.
Qed.

Lemma load_u8_bswap (buf : list byte) (a : nat) :
  word_sized buf -> load_u8 (bswap_words buf) a = load_u8 buf (mirror a).
Proof.
  intros Hw. unfold load_u8. rewrite bswap_words_lookup by assumption. reflexivity.
Qed.

(** The little-endian fetch from the swapped buffer is the big-endian
    fetch from the original one, at every word offset. *)
Lemma GETWORDLE_bswap (buf : list byte) (a : nat) :
  word_sized buf -> aligned a ->
  GETWORDLE (bswap_words buf) a = GETWORDBE buf a.
Proof.
  intros Hw Ha. unfold GETWORDLE, GETWORDBE, load_u32.
  rewrite !load_u8_bswap by assumption.
  assert (Hq : (a = a / 4 * 4)%nat)
    by (unfold aligned in Ha; pose proof (Nat.div_mod_eq a 4); lia).
  revert Hq. generalize (a / 4)%nat. intros q ->.
  replace (mirror (q * 4)) with (q * 4 + 3)%nat
    by (rewrite <- (Nat.add_0_r (q * 4)) at 2; rewrite mirror_word; lia).
  rewrite !mirror_word by lia.
  replace (q * 4 + (3 - 1))%nat with (q * 4 + 2)%nat by lia.
  replace (q * 4 + (3 - 2))%nat with (q * 4 + 1)%nat by lia.
  replace (q * 4 + (3 - 3))%nat with (q * 4)%nat by lia.
  unfold load_u8.
  destruct (buf !! (q * 4)%nat) as [b0 |]; destruct (buf !! (q * 4 + 1)%nat) as [b1 |];
    destruct (buf !! (q * 4 + 2)%nat) as [b2 |]; destruct (buf !! (q * 4 + 3)%nat) as [b3 |];
    simpl; try reflexivity.
  rewrite BSWAP32_word_le by apply byte_val_range.
  rewrite word_be_rev. reflexivity.
Qed.

Lemma bswap_words_drop (k : nat) (buf : list byte) :
  word_sized buf ->
  drop (k * 4) (bswap_words buf) = bswap_words (drop (k * 4) buf) /\
  word_sized (drop (k * 4) buf).
Proof.
  revert buf. induction k as [| k IH]; intros buf Hw.
  - split; [reflexivity | exact Hw].
  - destruct (word_sized_inv buf Hw) as [-> | (b0 & b1 & b2 & b3 & rest & -> & Hrest)].
    + split; [reflexivity | exact Hw].
    + change (S k * 4)%nat with (S (S (S (S (k * 4))))).
      change (bswap_words (b0 :: b1 :: b2 :: b3 :: rest))
        with (b3 :: b2 :: b1 :: b0 :: bswap_words rest).
      simpl drop. apply IH. exact Hrest.
Qed.

(** Advancing [buf] by whole words commutes with the byte reversal. *)
Lemma drop_aligned (n : nat) (buf : list byte) :
  word_sized buf -> aligned n ->
  drop n (bswap_words buf) = bswap_words (drop n buf) /\ word_sized (drop n buf).
Proof.
  intros Hw Hn.
  assert (Hq : (n = n / 4 * 4)%nat)
    by (unfold aligned in Hn; pose proof (Nat.div_mod_eq n 4); lia).
  rewrite Hq. apply bswap_words_drop. exact Hw.
Qed.

Lemma polygon_advances_aligned (n : nat) : In n polygon_advances -> aligned n.
Proof.
  unfold polygon_advances. simpl.
  intros [<- | [<- | [<- | [<- | [<- | []]]]]]; reflexivity.
Qed.

Section ModelProofs.

Context {GLfloat : Type} `{GLfloatOps GLfloat}.

Lemma vertex_offset_aligned (i c : nat) : aligned (0x1C + i * 16 + c * 4).
Proof.
  unfold aligned.
  replace (0x1C + i * 16 + c * 4)%nat with ((7 + i * 4 + c) * 4)%nat by lia.
  apply Nat.Div0.mod_mul.
Qed.

Lemma load_vertex_bswap (buf : list byte) (d i : nat) (v : vertex4 GLfloat) :
  word_sized buf ->
  load_vertex GETWORDLE (bswap_words buf) d i v = load_vertex GETWORDBE buf d i v.
Proof.
  intros Hw. unfold load_vertex.
  rewrite !GETWORDLE_bswap by (assumption || apply vertex_offset_aligned).
  reflexivity.
Qed.

Lemma load_vertices_bswap (buf : list byte) (d i0 n : nat) (v : vertex4 GLfloat) :
  word_sized buf ->
  load_vertices GETWORDLE (bswap_words buf) d i0 n v =
  load_vertices GETWORDBE buf d i0 n v.
Proof.
  intros Hw. revert i0 v. induction n as [| n IH]; intros i0 v; simpl.
  - reflexivity.
  - rewrite load_vertex_bswap by assumption.
    destruct (load_vertex GETWORDBE buf d i0 v) as [v' |]; simpl;
      [apply IH | reflexivity].
Qed.

Lemma quad_switch_bswap (buf : list byte) (sel : Z) (v prev_v : vertex4 GLfloat) :
  word_sized buf ->
  quad_switch_le (bswap_words buf) sel v prev_v = quad_switch_be buf sel v prev_v.
Proof.
  intros Hw. unfold quad_switch_le, quad_switch_be.
  rewrite !load_vertices_bswap by assumption. reflexivity.
Qed.

Lemma tri_switch_bswap (buf : list byte) (sel : Z) (v prev_v : vertex4 GLfloat) :
  word_sized buf ->
  tri_switch_le (bswap_words buf) sel v prev_v = tri_switch_be buf sel v prev_v.
Proof.
  intros Hw. unfold tri_switch_le, tri_switch_be.
  rewrite !load_vertices_bswap, !load_vertex_bswap by assumption. reflexivity.
Qed.

(** One pass of the loop of [draw_model_le] over the swapped buffer is
    the same pass of [draw_model_be] over the original one. *)
Lemma draw_polygon_bswap (grid : list Z) (buf : list byte)
    (v prev_v : vertex4 GLfloat) :
  word_sized buf ->
  draw_polygon_le grid (bswap_words buf) v prev_v = draw_polygon_be grid buf v prev_v.
Proof.
  intros Hw. unfold draw_polygon_le, draw_polygon_be.
  rewrite !GETWORDLE_bswap by (assumption || reflexivity).
  rewrite !load_u8_bswap by assumption.
  change (mirror (4 * 4 + 3)) with (4 * 4 + 0)%nat.
  change (mirror (4 * 4 + 2)) with (4 * 4 + 1)%nat.
  change (mirror (4 * 4 + 1)) with (4 * 4 + 2)%nat.
  change (mirror (6 * 4 + 3)) with (6 * 4 + 0)%nat.
  change (mirror (1 * 4 + 0)) with (1 * 4 + 3)%nat.
  change (mirror (0 * 4 + 0)) with (0 * 4 + 3)%nat.
  destruct (GETWORDBE buf (3 * 4)) as [w3 |]; [| reflexivity].
  destruct (GETWORDBE buf (4 * 4)) as [w4 |]; [| reflexivity].
  destruct (GETWORDBE buf (5 * 4)) as [w5 |]; [| reflexivity].
  destruct (load_u8 buf (4 * 4 + 0)) as [r |]; [| reflexivity].
  destruct (load_u8 buf (4 * 4 + 1)) as [g |]; [| reflexivity].
  destruct (load_u8 buf (4 * 4 + 2)) as [b |]; [| reflexivity].
  destruct (load_u8 buf (6 * 4 + 0)) as [te |]; [| reflexivity].
  destruct (load_u8 buf (1 * 4 + 3)) as [st |]; [| reflexivity].
  destruct (load_u8 buf (0 * 4 + 3)) as [flags |]; [| reflexivity].
  cbn [mbind option_bind].
  rewrite quad_switch_bswap, tri_switch_bswap by assumption. reflexivity.
Qed.

Lemma quad_switch_be_advance (buf : list byte) (sel : Z)
    (v prev_v v' : vertex4 GLfloat) (adv : nat) :
  quad_switch_be buf sel v prev_v = Some (v', adv) -> In adv polygon_advances.
Proof.
  unfold quad_switch_be, polygon_advances. intros Hs.
  repeat case_match; simplify_option_eq; simpl; tauto.
Qed.

Lemma tri_switch_be_advance (buf : list byte) (sel : Z)
    (v prev_v v' : vertex4 GLfloat) (adv : nat) :
  tri_switch_be buf sel v prev_v = Some (v', adv) -> In adv polygon_advances.
Proof.
  unfold tri_switch_be, polygon_advances. intros Hs.
  repeat case_match; simplify_option_eq; simpl; tauto.
Qed.

Lemma draw_polygon_be_advance (grid : list Z) (buf : list byte)
    (v prev_v : vertex4 GLfloat) (p : polygon_pass) :
  draw_polygon_be grid buf v prev_v = Some p -> In (advance p) polygon_advances.
Proof.
  unfold draw_polygon_be. intros Hp.
  destruct (GETWORDBE buf (3 * 4)) as [w3 |]; [| discriminate Hp].
  destruct (GETWORDBE buf (4 * 4)) as [w4 |]; [| discriminate Hp].
  destruct (GETWORDBE buf (5 * 4)) as [w5 |]; [| discriminate Hp].
  destruct (load_u8 buf (4 * 4 + 0)) as [r |]; [| discriminate Hp].
  destruct (load_u8 buf (4 * 4 + 1)) as [g |]; [| discriminate Hp].
  destruct (load_u8 buf (4 * 4 + 2)) as [b |]; [| discriminate Hp].
  destruct (load_u8 buf (6 * 4 + 0)) as [te |]; [| discriminate Hp].
  destruct (load_u8 buf (1 * 4 + 3)) as [st |]; [| discriminate Hp].
  destruct (load_u8 buf (0 * 4 + 3)) as [flags |]; [| discriminate Hp].
  cbn [mbind option_bind] in Hp.
  destruct (_ !! _) as [texture |]; [| discriminate Hp].
  destruct (negb _).
  - destruct (quad_switch_be buf (Z.land flags 15) v prev_v) as [[v' adv] |] eqn:Hs;
      [| discriminate Hp].
    injection Hp as <-. exact (quad_switch_be_advance _ _ _ _ _ _ Hs).
  - destruct (tri_switch_be buf (Z.land flags 15) v prev_v) as [[v' adv] |] eqn:Hs;
      [| discriminate Hp].
    injection Hp as <-. exact (tri_switch_be_advance _ _ _ _ _ _ Hs).
Qed.

Lemma draw_loop_bswap (grid : list Z) (fuel : nat) (buf : list byte)
    (v prev_v : vertex4 GLfloat) :
  word_sized buf ->
  draw_loop (draw_polygon_le grid) fuel (bswap_words buf) v prev_v =
  draw_loop (draw_polygon_be grid) fuel buf v prev_v.
Proof.
  revert buf v prev_v. induction fuel as [| fuel IH]; intros buf v prev_v Hw; simpl.
  - reflexivity.
  - rewrite draw_polygon_bswap by assumption.
    destruct (draw_polygon_be grid buf v prev_v) as [p |] eqn:Hp; [| reflexivity].
    destruct (stop p =? 0); [| reflexivity].
    destruct (drop_aligned (advance p) buf Hw
                (polygon_advances_aligned _ (draw_polygon_be_advance _ _ _ _ _ Hp)))
      as [-> Hw'].
    rewrite IH by assumption. reflexivity.
Qed.

(** C8: [draw_model_le] on the buffer whose aligned 32-bit words are
    byte-reversed computes what [draw_model_be] computes on the original
    buffer.  Every pass of the loop is the same: the same OpenGL calls
    (texture size and base, the colour bytes in the same order, quad or
    triangle, the vertex coordinates and UV words), the same case and
    buffer advance (0x5C, 0x4C, 0x3C or 0x2C bytes, or none), the same
    arrays [v] and [prev_v] and the same [stop]; the advanced buffers are
    again byte-reversals of one another; and so the two functions make
    the same calls and end the same way, for every iteration budget. *)
Theorem draw_model_le_bswap_words (fuel : nat) (texture_grid : list Z)
    (buf : list byte) (v prev_v : vertex4 GLfloat) :
  word_sized buf ->
  draw_polygon_le texture_grid (bswap_words buf) v prev_v =
    draw_polygon_be texture_grid buf v prev_v /\
  (forall p, draw_polygon_be texture_grid buf v prev_v = Some p ->
     In (advance p) polygon_advances /\
     drop (advance p) (bswap_words buf) = bswap_words (drop (advance p) buf) /\
     word_sized (drop (advance p) buf)) /\
  draw_model_le fuel texture_grid (Some (bswap_words buf)) v prev_v =
    draw_model_be fuel texture_grid (Some buf) v prev_v /\
  draw_model_le fuel texture_grid None v prev_v =
    draw_model_be fuel texture_grid None v prev_v.
Proof.
  intros Hw. split; [| split; [| split]].
  - apply draw_polygon_bswap. exact Hw.
  - intros p Hp. pose proof (draw_polygon_be_advance _ _ _ _ _ Hp) as Hadv.
    split; [exact Hadv |].
    apply drop_aligned; [exact Hw | apply polygon_advances_aligned; exact Hadv].
  - unfold draw_model_le, draw_model_be.
    rewrite GETWORDLE_bswap by (assumption || reflexivity).
    destruct (GETWORDBE buf (0 * 4)) as [w |]; [| reflexivity].
    destruct (w =? 0); [reflexivity |].
    apply draw_loop_bswap. exact Hw.
  - reflexivity.
Qed.

End ModelProofs.

Lemma draw_model_le_bswap_words_witness :
  draw_model_le 8 (replicate 4096 7) (Some (bswap_words sample_model))
    zero_vertex4 zero_vertex4 =
  draw_model_be 8 (replicate 4096 7) (Some sample_model) zero_vertex4 zero_vertex4.
Proof.
  refine (proj1 (proj2 (proj2
    (draw_model_le_bswap_words 8 (replicate 4096 7) sample_model
       zero_vertex4 zero_vertex4 _)))).
  reflexivity.
Defined.

(** The sample model is drawn in one pass, with thirteen calls, the first
    of them setting the colour; read in the wrong byte order it is not. *)
Example draw_model_be_sample :
  let run := draw_model_be 8 (replicate 4096 7) (Some sample_model)
               zero_vertex4 zero_vertex4 in
  run.2 = Finished /\
  length run.1 = 13%nat /\
  head run.1 = Some (glColor3ub 255 128 64) /\
  draw_model_le 8 (replicate 4096 7) (Some sample_model) zero_vertex4 zero_vertex4
    <> run.
Proof. vm_compute. repeat split; try reflexivity. discriminate. Qed.

(** ** Execution driver and code cache manager *)

Lemma LookupBB_insert (e : engine) (pc : Z) (slot : nat) (bb bb' : DRPPC_BB)
    (nc ic : arena) :
  LookupBB e pc = Some (slot, bb) ->
  LookupBB (mk_engine nc ic (<[slot := bb']> (descriptors e)) (lookup_index e)) pc
    = Some (slot, bb').
Proof.
  unfold LookupBB. simpl. intros Hl.
  destruct (lookup_index e !! pc) as [s |] eqn:Hi; simpl in *; [| discriminate Hl].
  destruct (descriptors e !! s) as [b |] eqn:Hd; simpl in *; [| discriminate Hl].
  injection Hl as -> ->.
  rewrite list_lookup_insert_eq by (eapply lookup_lt_Some; eassumption).
  reflexivity.
Qed.

Lemma find_or_create_spec (e : engine) (pc : Z) (c : Z) :
  cold e pc c ->
  exists e1 slot bb,
    find_or_create true e pc = Some (e1, slot, bb) /\
    LookupBB e1 pc = Some (slot, bb) /\
    bb_ptr bb = NULL /\ count bb = c /\
    native_cache e1 = native_cache e /\
    intermediate_cache e1 = intermediate_cache e.
Proof.
  unfold cold, find_or_create. intros Hc.
  destruct (LookupBB e pc) as [[slot bb] |] eqn:Hl.
  - destruct Hc as [Hp Hn]. exists e, slot, bb. repeat split; auto.
  - subst c. eexists _, _, _. split; [reflexivity |].
    split; [| repeat split].
    unfold LookupBB. simpl. rewrite lookup_insert_eq. simpl.
    rewrite lookup_app_r by lia. rewrite Nat.sub_diag. reflexivity.
Qed.

Lemma drppc_enter_cold (cfg : DRPPC_CFG) (compiles : bool) (need : reservation)
    (e : engine)
    (pc c : Z) :
  cold e pc c -> 0 <= c -> c + 1 < hot_threshold cfg -> hot_threshold cfg < 2 ^ 32 ->
  let r := drppc_enter cfg true compiles need e pc in
  r.1 = (DRPPC_OKAY, ByInterpreter) /\
  cold r.2 pc (c + 1) /\
  is_Some (LookupBB r.2 pc) /\
  native_cache r.2 = native_cache e /\
  intermediate_cache r.2 = intermediate_cache e.
Proof.
  intros Hc H0 Hlt Hmax.
  destruct (find_or_create_spec e pc c Hc)
    as (e1 & slot & bb & Hf & Hl & Hp & Hn & Hnc & Hic).
  cbv zeta. unfold drppc_enter. rewrite Hf, Hp. simpl negb. cbv iota.
  unfold is_hot. cbn [count].
  replace (u32 (count bb + 1)) with (c + 1)
    by (unfold u32; rewrite Z.mod_small; lia).
  destruct (Z.leb_spec (hot_threshold cfg) (c + 1)); [lia |].
  rewrite Bool.andb_false_r. cbn [fst snd native_cache intermediate_cache].
  split; [reflexivity |]. unfold cold.
  erewrite LookupBB_insert by eassumption.
  split; [split; reflexivity |]. split; [eauto |]. auto.
Qed.

Lemma drppc_enter_hot (cfg : DRPPC_CFG) (compiles : bool) (need : reservation)
    (e : engine) (pc c : Z) :
  interpret_only cfg = false ->
  cold e pc c -> 0 <= c -> hot_threshold cfg <= c + 1 < 2 ^ 32 ->
  engine_ok e ->
  is_Some (Allocate (intermediate_cache e) (intermediate_need need)) ->
  is_Some (Allocate (native_cache e) (native_need need)) ->
  let r := drppc_enter cfg true compiles need e pc in
  r.1 = (DRPPC_OKAY, if compiles then ByTranslation else ByInterpreter) /\
  state_of r.2 pc = (if compiles then Native else Interpreted) /\
  execution_count r.2 pc = Some (c + 1).
Proof.
  intros Hio Hc H0 Hge Hok [[pi ai] Hai] [[pn an] Han].
  destruct (find_or_create_spec e pc c Hc)
    as (e1 & slot & bb & Hf & Hl & Hp & Hn & Hnc & Hic).
  cbv zeta. unfold drppc_enter. rewrite Hf, Hp. simpl negb. cbv iota.
  unfold is_hot. cbn [count]. rewrite Hio.
  replace (u32 (count bb + 1)) with (c + 1)
    by (unfold u32; rewrite Z.mod_small; lia).
  destruct (Z.leb_spec (hot_threshold cfg) (c + 1)); [| lia].
  simpl andb. cbv iota. rewrite Hnc, Hic, Hai, Han.
  destruct compiles; cbn [fst snd]; (split; [reflexivity |]);
    unfold state_of, execution_count;
    erewrite LookupBB_insert by eassumption; cbn [bb_ptr count mbind option_bind].
  - split; [| reflexivity].
    assert (Hpn : pn <> NULL).
    { unfold Allocate in Han. destruct (_ <=? _); [| discriminate Han].
      injection Han as <- _. destruct Hok as [[Hb Hu] _]. unfold NULL in *. lia. }
    destruct (Z.eqb_spec pn NULL); [contradiction | reflexivity].
  - split; [| reflexivity]. rewrite ?Hp. reflexivity.
Qed.

Lemma Allocate_fits (a : arena) (size : Z) :
  (fits a size <-> is_Some (Allocate a size)) /\
  (~ fits a size <-> Allocate a size = None).
Proof.
  unfold fits, Allocate.
  destruct (Z.leb_spec (arena_used a + size) (arena_size a - arena_guard a)) as [Hle | Hgt].
  - split; split.
    + intros _. eauto.
    + intros _. exact Hle.
    + intros Hn. contradiction.
    + discriminate.
  - split; split.
    + intros Hle. lia.
    + intros [x [=]].
    + reflexivity.
    + intros _. lia.
Qed.

Lemma cold_entered (e : engine) (pc : Z) :
  state_of e pc <> Native -> cold e pc (entered e pc).
Proof.
  unfold state_of, cold, entered.
  destruct (LookupBB e pc) as [[slot bb] |]; [| reflexivity].
  destruct (Z.eqb_spec (bb_ptr bb) NULL); [auto | congruence].
Qed.

Lemma cold_state (e : engine) (pc c : Z) :
  cold e pc c -> is_Some (LookupBB e pc) ->
  state_of e pc = Interpreted /\ execution_count e pc = Some c.
Proof.
  unfold cold, state_of, execution_count. intros Hc [[slot bb] Hl].
  rewrite Hl in *. destruct Hc as [-> <-]. simpl. auto.
Qed.

Lemma enter_times_S_r (cfg : DRPPC_CFG) (compiles : bool) (need : reservation)
    (n : nat)
    (e : engine) (pc : Z) :
  enter_times cfg compiles need (S n) e pc =
  (drppc_enter cfg true compiles need (enter_times cfg compiles need n e pc) pc).2.
Proof.
  revert e. induction n as [| n IH]; intros e; [reflexivity |].
  change (enter_times cfg compiles need (S (S n)) e pc)
    with (enter_times cfg compiles need (S n) (drppc_enter cfg true compiles need e pc).2 pc).
  rewrite IH. reflexivity.
Qed.

Lemma enter_times_cold (cfg : DRPPC_CFG) (compiles : bool) (need : reservation)
    (k : nat)
    (e : engine) (pc c : Z) :
  cold e pc c -> 0 <= c -> c + Z.of_nat k < hot_threshold cfg ->
  hot_threshold cfg < 2 ^ 32 ->
  let e' := enter_times cfg compiles need k e pc in
  cold e' pc (c + Z.of_nat k) /\
  ((0 < k)%nat -> is_Some (LookupBB e' pc)) /\
  native_cache e' = native_cache e /\
  intermediate_cache e' = intermediate_cache e.
Proof.
  revert e c. induction k as [| k IH]; intros e c Hc H0 Hlt Hmax; cbv zeta.
  - simpl. rewrite Z.add_0_r. repeat split; auto. lia.
  - destruct (drppc_enter_cold cfg compiles need e pc c Hc H0 ltac:(lia) Hmax)
      as (_ & Hc1 & Hs1 & Hn1 & Hi1).
    destruct (IH _ (c + 1) Hc1 ltac:(lia) ltac:(lia) Hmax) as (Hc' & Hs' & Hn' & Hi').
    simpl enter_times.
    replace (c + Z.of_nat (S k)) with (c + 1 + Z.of_nat k) by lia.
    split; [exact Hc' |]. split; [| split; congruence].
    intros _. destruct k as [| k]; [exact Hs1 | apply Hs'; lia].
Qed.

Lemma LookupBB_flush (e : engine) (pc : Z) : LookupBB (flush e) pc = None.
Proof. unfold LookupBB, flush. simpl. rewrite lookup_empty. reflexivity. Qed.

Lemma drppc_enter_exhausted (cfg : DRPPC_CFG) (compiles : bool)
    (need : reservation) (e : engine)
    (pc c : Z) :
  interpret_only cfg = false ->
  cold e pc c -> 0 <= c -> hot_threshold cfg <= c + 1 < 2 ^ 32 ->
  ~ fits (intermediate_cache e) (intermediate_need need) \/
  ~ fits (native_cache e) (native_need need) ->
  drppc_enter cfg true compiles need e pc = (DRPPC_OKAY, AfterFlush, flush e).
Proof.
  intros Hio Hc H0 Hge Hfull.
  destruct (find_or_create_spec e pc c Hc)
    as (e1 & slot & bb & Hf & Hl & Hp & Hn & Hnc & Hic).
  unfold drppc_enter. rewrite Hf, Hp. simpl negb. cbv iota.
  unfold is_hot. cbn [count]. rewrite Hio.
  replace (u32 (count bb + 1)) with (c + 1)
    by (unfold u32; rewrite Z.mod_small; lia).
  destruct (Z.leb_spec (hot_threshold cfg) (c + 1)); [| lia].
  simpl andb. cbv iota. rewrite Hnc, Hic.
  assert (Hfl : flush e1 = flush e) by (unfold flush; rewrite Hnc, Hic; reflexivity).
  destruct Hfull as [Hfull | Hfull]; apply Allocate_fits in Hfull; rewrite Hfull.
  - rewrite Hfl. reflexivity.
  - rewrite Hfl.
    destruct (Allocate (intermediate_cache e) (intermediate_need need)) as [[? ?] |];
      reflexivity.
Qed.

(** C2: with code generation on and a hot threshold [T] of at least
    [DRPPC_ZERO_THRESHOLD] = 1, a block never seen before is Interpreted,
    with execution count [k], after each of its first [k < T] entries.
    The entry at which its count reaches [T] promotes it to Native when
    the reservation fits both caches and the translation succeeds; when
    the translation fails the block stays Interpreted, with count [T];
    when the reservation would go past a guard boundary the entry ends in
    the flush and the block is Uncompiled.  With
    [T = DRPPC_ZERO_THRESHOLD] that entry is the very first one. *)
Theorem hot_threshold_promotion (cfg : DRPPC_CFG) (compiles : bool)
    (need : reservation) (e : engine) (pc : Z) :
  interpret_only cfg = false ->
  DRPPC_ZERO_THRESHOLD <= hot_threshold cfg < 2 ^ 32 ->
  engine_ok e ->
  state_of e pc = Uncompiled ->
  let run := fun k => enter_times cfg compiles need k e pc in
  let T := Z.to_nat (hot_threshold cfg) in
  let room := fits (intermediate_cache e) (intermediate_need need) /\
              fits (native_cache e) (native_need need) in
  DRPPC_ZERO_THRESHOLD = 1 /\
  (forall k : nat, (0 < k)%nat -> Z.of_nat k < hot_threshold cfg ->
     state_of (run k) pc = Interpreted /\
     execution_count (run k) pc = Some (Z.of_nat k)) /\
  (room ->
     state_of (run T) pc = (if compiles then Native else Interpreted) /\
     execution_count (run T) pc = Some (hot_threshold cfg)) /\
  (~ room -> run T = flush e /\ state_of (run T) pc = Uncompiled) /\
  (hot_threshold cfg = DRPPC_ZERO_THRESHOLD -> room -> compiles = true ->
     (drppc_enter cfg true compiles need e pc).1 = (DRPPC_OKAY, ByTranslation) /\
     state_of (drppc_enter cfg true compiles need e pc).2 pc = Native).
Proof.
  unfold DRPPC_ZERO_THRESHOLD. intros Hio HT Hok Hun. cbv zeta.
  assert (Hc0 : cold e pc 0).
  { pose proof (cold_entered e pc ltac:(congruence)) as Hc.
    unfold entered in Hc. unfold state_of in Hun, Hc. unfold cold in *.
    destruct (LookupBB e pc) as [[slot bb] |]; [| reflexivity].
    destruct (bb_ptr bb =? NULL); discriminate Hun. }
  assert (Hsplit : Z.to_nat (hot_threshold cfg) = S (Z.to_nat (hot_threshold cfg - 1)))
    by lia.
  destruct (enter_times_cold cfg compiles need (Z.to_nat (hot_threshold cfg - 1)) e pc 0
              Hc0 ltac:(lia) ltac:(lia) ltac:(lia)) as (Hc & _ & Hn & Hi).
  assert (Hok' : engine_ok
            (enter_times cfg compiles need (Z.to_nat (hot_threshold cfg - 1)) e pc)).
  { destruct Hok as [[? ?] [? ?]]. unfold engine_ok, arena_ok. rewrite Hn, Hi. auto. }
  split; [reflexivity |]. split; [| split; [| split]].
  - intros k Hk Hlt.
    destruct (enter_times_cold cfg compiles need k e pc 0 Hc0 ltac:(lia) ltac:(lia)
                ltac:(lia)) as (Hck & Hs & _ & _).
    apply (cold_state _ _ _ Hck (Hs Hk)).
  - intros [Hfi Hfn]. rewrite Hsplit, enter_times_S_r.
    destruct (drppc_enter_hot cfg compiles need _ pc _ Hio Hc ltac:(lia) ltac:(lia) Hok')
      as (_ & Hst & Hec).
    + rewrite Hi. apply Allocate_fits. exact Hfi.
    + rewrite Hn. apply Allocate_fits. exact Hfn.
    + split; [exact Hst |]. rewrite Hec. f_equal. lia.
  - intros Hroom. rewrite Hsplit, enter_times_S_r.
    assert (Hfull : ~ fits (intermediate_cache e) (intermediate_need need) \/
                    ~ fits (native_cache e) (native_need need)).
    { unfold fits in *. lia. }
    rewrite <- Hi, <- Hn in Hfull.
    rewrite (drppc_enter_exhausted cfg compiles need _ pc _ Hio Hc ltac:(lia) ltac:(lia)
               Hfull).
    cbn [snd]. split.
    + unfold flush. rewrite Hn, Hi. reflexivity.
    + unfold state_of. rewrite LookupBB_flush. reflexivity.
  - intros HT1 [Hfi Hfn] ->.
    destruct (drppc_enter_hot cfg true need e pc 0 Hio Hc0 ltac:(lia) ltac:(lia) Hok
                (proj1 (proj1 (Allocate_fits _ _)) Hfi)
                (proj1 (proj1 (Allocate_fits _ _)) Hfn)) as (Hp & Hst & _).
    split; assumption.
Qed.

(** C7: when the block entered becomes hot and the reservation for its
    translation would go past the guard boundary of the intermediate or
    of the native cache, the entry ends in a full flush and reports
    [DRPPC_OKAY]: no descriptor is left, the lookup index is empty, both
    arenas are empty, every block is Uncompiled again and is interpreted
    on its next entry (for a threshold above one).  Running out of host
    memory for a new descriptor, in contrast, stops the run with
    [DRPPC_OUT_OF_MEMORY]. *)
Theorem cache_exhaustion_flush (cfg : DRPPC_CFG) (compiles : bool)
    (need : reservation) (e : engine) (pc : Z) :
  interpret_only cfg = false ->
  state_of e pc = Uncompiled \/ state_of e pc = Interpreted ->
  0 <= entered e pc ->
  hot_threshold cfg <= entered e pc + 1 < 2 ^ 32 ->
  ~ fits (intermediate_cache e) (intermediate_need need) \/
  ~ fits (native_cache e) (native_need need) ->
  let r := drppc_enter cfg true compiles need e pc in
  (Allocate (intermediate_cache e) (intermediate_need need) = None \/
   Allocate (native_cache e) (native_need need) = None) /\
  r.1 = (DRPPC_OKAY, AfterFlush) /\
  is_error r.1.1 = false /\
  descriptors r.2 = [] /\
  lookup_index r.2 = ∅ /\
  arena_used (native_cache r.2) = 0 /\
  arena_used (intermediate_cache r.2) = 0 /\
  (forall pc', state_of r.2 pc' = Uncompiled) /\
  (forall compiles' need' pc', 1 < hot_threshold cfg ->
     (drppc_enter cfg true compiles' need' r.2 pc').1 = (DRPPC_OKAY, ByInterpreter) /\
     state_of (drppc_enter cfg true compiles' need' r.2 pc').2 pc' = Interpreted) /\
  (forall e0 pc0, state_of e0 pc0 = Uncompiled ->
     drppc_enter cfg false compiles need e0 pc0 = (DRPPC_OUT_OF_MEMORY, Stopped, e0) /\
     is_error DRPPC_OUT_OF_MEMORY = true).
Proof.
  intros Hio Hst H0 Hge Hfull. cbv zeta.
  assert (Hnn : state_of e pc <> Native) by (destruct Hst; congruence).
  rewrite (drppc_enter_exhausted cfg compiles need e pc (entered e pc) Hio
             (cold_entered e pc Hnn) H0 Hge Hfull).
  cbn [fst snd]. split.
  { destruct Hfull as [Hf | Hf]; apply Allocate_fits in Hf; auto. }
  split; [reflexivity |]. split; [reflexivity |]. split; [reflexivity |].
  split; [reflexivity |]. split; [reflexivity |]. split; [reflexivity |].
  split; [| split].
  - intros pc'. unfold state_of. rewrite LookupBB_flush. reflexivity.
  - intros compiles' need' pc' HT.
    assert (Hc : cold (flush e) pc' 0) by (unfold cold; rewrite LookupBB_flush; reflexivity).
    destruct (drppc_enter_cold cfg compiles' need' (flush e) pc' 0 Hc ltac:(lia) ltac:(lia) ltac:(lia))
      as (Hp & Hc' & Hs & _).
    split; [exact Hp |]. apply (cold_state _ _ _ Hc' Hs).
  - intros e0 pc0 Hun. split; [| reflexivity].
    unfold drppc_enter, find_or_create. unfold state_of in Hun.
    destruct (LookupBB e0 pc0) as [[slot bb] |]; [| reflexivity].
    destruct (bb_ptr bb =? NULL); discriminate Hun.
Qed.

Lemma hot_threshold_promotion_witness :
  state_of (enter_times sample_cfg true sample_need 4 sample_engine 0x0100) 0x0100
    = Interpreted /\
  execution_count (enter_times sample_cfg true sample_need 4 sample_engine 0x0100) 0x0100
    = Some 4 /\
  state_of (enter_times sample_cfg true sample_need 5 sample_engine 0x0100) 0x0100
    = Native.
Proof.
  assert (Hall := hot_threshold_promotion sample_cfg true sample_need sample_engine
                    0x0100).
  cbv zeta in Hall. destruct Hall as (_ & Hcold & Hhot & _).
  - reflexivity.
  - unfold DRPPC_ZERO_THRESHOLD. simpl. lia.
  - unfold engine_ok, arena_ok, NULL. simpl. lia.
  - reflexivity.
  - destruct (Hcold 4%nat) as [Hst Hcnt]; [lia | simpl; lia |].
    split; [exact Hst |]. split; [exact Hcnt |].
    apply Hhot. unfold fits. simpl. lia.
Defined.

(** The claim as it stands fails where the translation of the block fails
    and where the caches are full: in the specification's scenario
    (threshold 5) the count of a block that does not compile reaches 5
    and the block is not Native, and with the native cache filled up to
    its guard the block is not Native after five entries either. *)
Lemma hot_threshold_promotion_counterexample :
  execution_count (enter_times sample_cfg false sample_need 5 sample_engine 0x0100)
    0x0100 = Some (hot_threshold sample_cfg) /\
  state_of (enter_times sample_cfg false sample_need 5 sample_engine 0x0100) 0x0100
    <> Native /\
  state_of (enter_times sample_cfg true sample_need 5 full_engine 0x0100) 0x0100
    <> Native.
Proof. vm_compute. repeat split; discriminate. Qed.

(** An address outside the fetch list stops the run with
    [DRPPC_BAD_PC] and leaves the engine as it was; one inside is
    entered. *)
Example drppc_run_block_sample :
  drppc_run_block sample_cfg sample_fetch true true sample_need sample_engine 0x10000
    = (DRPPC_BAD_PC, Stopped, sample_engine) /\
  is_error DRPPC_BAD_PC = true /\
  (drppc_run_block sample_cfg sample_fetch true true sample_need sample_engine 0x0100).1
    = (DRPPC_OKAY, ByInterpreter).
Proof. vm_compute. repeat split. Qed.

Lemma cache_exhaustion_flush_witness :
  drppc_enter sample_cfg true true sample_need
    (enter_times sample_cfg true sample_need 4 full_engine 0x0100) 0x0100
  = (DRPPC_OKAY, AfterFlush, flush full_engine).
Proof.
  assert (Hall := cache_exhaustion_flush sample_cfg true sample_need
            (enter_times sample_cfg true sample_need 4 full_engine 0x0100) 0x0100).
  cbv zeta in Hall. destruct Hall as (_ & Hpath & _ & Hd & Hi & Hn & Hm & _).
  - reflexivity.
  - right. reflexivity.
  - replace (entered _ _) with 4 by (vm_compute; reflexivity). lia.
  - replace (entered _ _) with 4 by (vm_compute; reflexivity). simpl. lia.
  - right.
    replace (native_cache _) with (native_cache full_engine)
      by (vm_compute; reflexivity).
    unfold fits. simpl. lia.
  - rewrite (surjective_pairing (drppc_enter _ _ _ _ _ _)).
    rewrite Hpath. f_equal.
Defined.

(** * Further properties *)



Lemma bits_bound (x n : Z) :
  0 <= n -> 0 <= x -> (forall i, n <= i -> Z.testbit x i = false) -> x < 2 ^ n.
Proof.
  intros Hn Hx Hbits. destruct (Z.eq_dec x 0) as [-> | Hne].
  - apply Z.pow_pos_nonneg; lia.
  - apply Z.log2_lt_pow2; [lia |].
    destruct (Z.lt_ge_cases (Z.log2 x) n) as [Hlt | Hge]; [exact Hlt |].
    pose proof (Z.bit_log2 x ltac:(lia)) as Hb.
    rewrite (Hbits _ Hge) in Hb. discriminate Hb.
Qed.

Lemma testbit_high (x n i : Z) :
  0 <= x < 2 ^ n -> n <= i -> Z.testbit x i = false.
Proof.
  intros Hx Hi. destruct (Z.eq_dec x 0) as [-> | Hne]; [apply Z.bits_0 |].
  apply Z.bits_above_log2; [lia |].
  assert (Z.log2 x < n) by (apply Z.log2_lt_pow2; lia). lia.
Qed.

Lemma land_mask_bound (a m n : Z) :
  0 <= n -> 0 <= m < 2 ^ n -> 0 <= Z.land a m < 2 ^ n.
Proof.
  intros Hn Hm. assert (H0 : 0 <= Z.land a m) by (apply Z.land_nonneg; lia).
  split; [exact H0 |]. apply bits_bound; [assumption .. |].
  intros i Hi. rewrite Z.land_spec, (testbit_high m n i) by assumption.
  apply Bool.andb_false_r.
Qed.

Lemma lor_bound (a b n : Z) :
  0 <= n -> 0 <= a < 2 ^ n -> 0 <= b < 2 ^ n -> 0 <= Z.lor a b < 2 ^ n.
Proof.
  intros Hn Ha Hb. assert (H0 : 0 <= Z.lor a b) by (apply Z.lor_nonneg; lia).
  split; [exact H0 |]. apply bits_bound; [assumption .. |].
  intros i Hi. rewrite Z.lor_spec, (testbit_high a n i), (testbit_high b n i) by assumption.
  reflexivity.
Qed.

(** The element of [texture_grid] a polygon binds lies within the 64x64
    grid, whatever its header words. *)
Lemma polygon_texture_index (w4 w5 : Z) :
  0 <=
  u32 (u32 (u32 (Z.lor (Z.land w5 0x1F) (Z.shiftr (Z.land w4 0x40) 1) * 32) / 32 * 64)
       + u32 (Z.lor (u32 (Z.shiftl (Z.land w4 0x1F) 1))
                    (Z.shiftr (Z.land w5 0x80) 7) * 32) / 32)
  < texture_grid_size.
Proof.
  assert (Hv : 0 <= Z.lor (Z.land w5 0x1F) (Z.shiftr (Z.land w4 0x40) 1) < 2 ^ 6).
  { apply lor_bound; [lia | |].
    - pose proof (land_mask_bound w5 0x1F 5 ltac:(lia) ltac:(lia)).
      change (2 ^ 5) with 32 in *. change (2 ^ 6) with 64. lia.
    - pose proof (land_mask_bound w4 0x40 7 ltac:(lia) ltac:(lia)) as Hb.
      rewrite Z.shiftr_div_pow2 by lia. change (2 ^ 7) with 128 in Hb.
      change (2 ^ 1) with 2. change (2 ^ 6) with 64.
      split; [apply Z.div_pos; lia | apply Z.div_lt_upper_bound; lia]. }
  assert (Hu : 0 <= Z.lor (u32 (Z.shiftl (Z.land w4 0x1F) 1))
                          (Z.shiftr (Z.land w5 0x80) 7) < 2 ^ 6).
  { apply lor_bound; [lia | |].
    - pose proof (land_mask_bound w4 0x1F 5 ltac:(lia) ltac:(lia)) as Hb.
      change (2 ^ 5) with 32 in Hb. rewrite Z.shiftl_mul_pow2 by lia.
      unfold u32. rewrite Z.mod_small by lia. change (2 ^ 6) with 64. lia.
    - pose proof (land_mask_bound w5 0x80 8 ltac:(lia) ltac:(lia)) as Hb.
      rewrite Z.shiftr_div_pow2 by lia. change (2 ^ 8) with 256 in Hb.
      change (2 ^ 7) with 128. change (2 ^ 6) with 64.
      split; [apply Z.div_pos; lia | apply Z.div_lt_upper_bound; lia]. }
  revert Hv Hu.
  generalize (Z.lor (Z.land w5 0x1F) (Z.shiftr (Z.land w4 0x40) 1)).
  generalize (Z.lor (u32 (Z.shiftl (Z.land w4 0x1F) 1)) (Z.shiftr (Z.land w5 0x80) 7)).
  intros u v Hv Hu. change (2 ^ 6) with 64 in *. unfold u32, texture_grid_size.
  rewrite (Z.mod_small (v * 32)), (Z.mod_small (u * 32)) by lia.
  rewrite !Z.div_mul by lia.
  rewrite (Z.mod_small (v * 64)) by lia. rewrite Z.mod_small by lia. lia.
Qed.

Lemma load_u8_in (buf : list byte) (a : nat) :
  (a < length buf)%nat -> exists b, load_u8 buf a = Some b /\ 0 <= b < 256.
Proof.
  intros Ha. destruct (lookup_lt_is_Some_2 buf a Ha) as [b Hb].
  exists (byte_val b). unfold load_u8. rewrite Hb. split; [reflexivity |].
  apply byte_val_range.
Qed.

Lemma load_u32_in (buf : list byte) (a : nat) :
  (a + 3 < length buf)%nat -> is_Some (load_u32 buf a).
Proof.
  intros Ha. unfold load_u32.
  destruct (load_u8_in buf a ltac:(lia)) as (b0 & -> & _).
  destruct (load_u8_in buf (a + 1) ltac:(lia)) as (b1 & -> & _).
  destruct (load_u8_in buf (a + 2) ltac:(lia)) as (b2 & -> & _).
  destruct (load_u8_in buf (a + 3) ltac:(lia)) as (b3 & -> & _).
  simpl. eauto.
Qed.

Lemma GETWORDBE_in (buf : list byte) (a : nat) :
  (a + 3 < length buf)%nat -> is_Some (GETWORDBE buf a).
Proof.
  intros Ha. unfold GETWORDBE. destruct (load_u32_in buf a Ha) as [w ->]. simpl. eauto.
Qed.

Lemma GETWORDLE_in (buf : list byte) (a : nat) :
  (a + 3 < length buf)%nat -> is_Some (GETWORDLE buf a).
Proof. apply load_u32_in. Qed.

Section PassProofs.

Context {GLfloat : Type} `{GLfloatOps GLfloat}.

Lemma load_vertex_in (getword : list byte -> nat -> option Z) (buf : list byte)
    (d i : nat) (v : vertex4 GLfloat) :
  (forall a, (a + 3 < length buf)%nat -> is_Some (getword buf a)) ->
  (0x1C + i * 16 + 16 <= length buf)%nat ->
  is_Some (load_vertex getword buf d i v).
Proof.
  intros Hgw Hlen. unfold load_vertex.
  destruct (Hgw (0x1C + i * 16 + 0 * 4)%nat ltac:(lia)) as [wx ->].
  destruct (Hgw (0x1C + i * 16 + 1 * 4)%nat ltac:(lia)) as [wy ->].
  destruct (Hgw (0x1C + i * 16 + 2 * 4)%nat ltac:(lia)) as [wz ->].
  destruct (Hgw (0x1C + i * 16 + 3 * 4)%nat ltac:(lia)) as [wuv ->].
  simpl. eauto.
Qed.

Lemma load_vertices_in (getword : list byte -> nat -> option Z) (buf : list byte)
    (d i0 n : nat) (v : vertex4 GLfloat) :
  (forall a, (a + 3 < length buf)%nat -> is_Some (getword buf a)) ->
  (0x1C + (i0 + n) * 16 <= length buf)%nat ->
  is_Some (load_vertices getword buf d i0 n v).
Proof.
  intros Hgw. revert i0 v. induction n as [| n IH]; intros i0 v Hlen; simpl.
  - eauto.
  - destruct (load_vertex_in getword buf d i0 v Hgw ltac:(lia)) as [v' ->]. simpl.
    apply IH. lia.
Qed.

Ltac switch_in Hgw :=
  repeat case_match; cbv zeta;
  lazymatch goal with
  | |- is_Some (load_vertices ?gw ?buf ?d ?i ?n ?v ≫= _) =>
      let Hv := fresh in
      destruct (load_vertices_in gw buf d i n v Hgw ltac:(simpl; lia)) as [? Hv];
      rewrite Hv; cbn [mbind option_bind]; eauto
  | |- is_Some (load_vertex ?gw ?buf ?d ?i ?v ≫= _) =>
      let Hv := fresh in
      destruct (load_vertex_in gw buf d i v Hgw ltac:(simpl; lia)) as [? Hv];
      rewrite Hv; cbn [mbind option_bind]; eauto
  | |- is_Some (Some _) => eauto
  end.

Lemma quad_switch_be_in (buf : list byte) (sel : Z) (v prev_v : vertex4 GLfloat) :
  (0x5C <= length buf)%nat -> is_Some (quad_switch_be buf sel v prev_v).
Proof.
  intros Hlen. pose proof (GETWORDBE_in buf) as Hgw.
  unfold quad_switch_be. switch_in Hgw.
Qed.

Lemma tri_switch_be_in (buf : list byte) (sel : Z) (v prev_v : vertex4 GLfloat) :
  (0x4C <= length buf)%nat -> is_Some (tri_switch_be buf sel v prev_v).
Proof.
  intros Hlen. pose proof (GETWORDBE_in buf) as Hgw.
  unfold tri_switch_be. switch_in Hgw.
Qed.

Lemma quad_switch_le_in (buf : list byte) (sel : Z) (v prev_v : vertex4 GLfloat) :
  (0x5C <= length buf)%nat -> is_Some (quad_switch_le buf sel v prev_v).
Proof.
  intros Hlen. pose proof (GETWORDLE_in buf) as Hgw.
  unfold quad_switch_le. switch_in Hgw.
Qed.

Lemma tri_switch_le_in (buf : list byte) (sel : Z) (v prev_v : vertex4 GLfloat) :
  (0x4C <= length buf)%nat -> is_Some (tri_switch_le buf sel v prev_v).
Proof.
  intros Hlen. pose proof (GETWORDLE_in buf) as Hgw.
  unfold tri_switch_le. switch_in Hgw.
Qed.

Ltac pass_loads buf :=
  repeat match goal with
  | |- context [GETWORDBE buf ?a] =>
      let Hw := fresh in
      destruct (GETWORDBE_in buf a ltac:(simpl; lia)) as [? Hw]; rewrite Hw; clear Hw
  | |- context [GETWORDLE buf ?a] =>
      let Hw := fresh in
      destruct (GETWORDLE_in buf a ltac:(simpl; lia)) as [? Hw]; rewrite Hw; clear Hw
  | |- context [load_u8 buf ?a] =>
      let Hw := fresh in
      destruct (load_u8_in buf a ltac:(simpl; lia)) as (? & Hw & _); rewrite Hw; clear Hw
  end.

(** X2: a loop pass of either drawing function stays within its
    arguments: with at least 0x5C bytes left in the buffer and the 64*64
    elements of [texture_grid], no read leaves the buffer or the grid,
    whatever the bytes are. *)
Theorem draw_polygon_in_bounds (texture_grid : list Z) (buf : list byte)
    (v prev_v : vertex4 GLfloat) :
  (0x5C <= length buf)%nat ->
  Z.of_nat (length texture_grid) = texture_grid_size ->
  is_Some (draw_polygon_be texture_grid buf v prev_v) /\
  is_Some (draw_polygon_le texture_grid buf v prev_v).
Proof.
  intros Hlen Hgrid. split.
  - unfold draw_polygon_be. pass_loads buf. cbn [mbind option_bind].
    match goal with
    | |- context [texture_grid !! ?i] =>
        destruct (lookup_lt_is_Some_2 texture_grid i) as [texture ->]
    end.
    { match goal with
      | |- context [Z.lor (Z.land ?a 31) (Z.shiftr (Z.land ?b 64) 1)] =>
          pose proof (polygon_texture_index b a)
      end.
      unfold texture_grid_size in *. lia. }
    cbn [mbind option_bind]. destruct (negb _).
    + match goal with |- context [quad_switch_be buf ?sel v prev_v] =>
        destruct (quad_switch_be_in buf sel v prev_v Hlen) as [[v' adv] ->] end.
      simpl. eauto.
    + match goal with |- context [tri_switch_be buf ?sel v prev_v] =>
        destruct (tri_switch_be_in buf sel v prev_v ltac:(simpl in *; lia))
        as [[v' adv] ->] end.
      simpl. eauto.
  - unfold draw_polygon_le. pass_loads buf. cbn [mbind option_bind].
    match goal with
    | |- context [texture_grid !! ?i] =>
        destruct (lookup_lt_is_Some_2 texture_grid i) as [texture ->]
    end.
    { match goal with
      | |- context [Z.lor (Z.land ?a 31) (Z.shiftr (Z.land ?b 64) 1)] =>
          pose proof (polygon_texture_index b a)
      end.
      unfold texture_grid_size in *. lia. }
    cbn [mbind option_bind]. destruct (negb _).
    + match goal with |- context [quad_switch_le buf ?sel v prev_v] =>
        destruct (quad_switch_le_in buf sel v prev_v Hlen) as [[v' adv] ->] end.
      simpl. eauto.
    + match goal with |- context [tri_switch_le buf ?sel v prev_v] =>
        destruct (tri_switch_le_in buf sel v prev_v ltac:(simpl in *; lia))
        as [[v' adv] ->] end.
      simpl. eauto.
Qed.

End PassProofs.

Lemma load_u8_range (buf : list byte) (a : nat) (x : Z) :
  load_u8 buf a = Some x -> 0 <= x < 256.
Proof.
  unfold load_u8. destruct (buf !! a) as [b |]; [| discriminate].
  intros [= <-]. apply byte_val_range.
Qed.

Lemma texture_size_cases (w s : Z) :
  0 <= s -> In (u32 (Z.shiftl 32 (Z.land (Z.shiftr w s) 7))) texture_sizes.
Proof.
  intros Hs. pose proof (land_mask_bound (Z.shiftr w s) 7 3 ltac:(lia) ltac:(lia)) as Hk.
  change (2 ^ 3) with 8 in Hk. revert Hk. generalize (Z.land (Z.shiftr w s) 7). intros k Hk.
  assert (Hc : k = 0 \/ k = 1 \/ k = 2 \/ k = 3 \/ k = 4 \/ k = 5 \/ k = 6 \/ k = 7) by lia.
  unfold texture_sizes.
  destruct Hc as [-> | [-> | [-> | [-> | [-> | [-> | [-> | ->]]]]]]]; simpl; tauto.
Qed.

Lemma land_single_bit (x k : Z) :
  0 <= k -> Z.land x (2 ^ k) = 0 \/ Z.land x (2 ^ k) = 2 ^ k.
Proof.
  intros Hk. replace (2 ^ k) with (Z.shiftl (Z.ones 1) k)
    by (rewrite Z.shiftl_mul_pow2 by lia; change (Z.ones 1) with 1; lia).
  destruct (Z.testbit x k) eqn:Hb; [right | left].
  all: apply Z.bits_inj'; intros i Hi.
  all: rewrite Z.land_spec, ?Z.bits_0, testbit_mask by lia.
  all: destruct (Z.leb_spec k i), (Z.ltb_spec i (k + 1)); simpl;
    rewrite ?Bool.andb_false_r, ?Bool.andb_true_r; try reflexivity.
  all: replace i with k by lia; exact Hb.
Qed.

Section ShapeProofs.

Context {GLfloat : Type} `{GLfloatOps GLfloat}.

Lemma emit_polygon_length (mode : GLenum) (n : nat) (te texture tw th : Z)
    (v : vertex4 GLfloat) :
  length (emit_polygon mode n te texture tw th v) =
  (6 + 2 * n + (if (te =? 0)%Z then 2 else 0))%nat.
Proof.
  unfold emit_polygon. rewrite !length_app.
  assert (Hv : forall i0, length (seq i0 n ≫= λ i, emit_vertex tw th (vget v i)) = (2 * n)%nat).
  { induction n as [| n IH]; intros i0; [reflexivity |].
    simpl seq. rewrite bind_cons, length_app, IH. simpl. lia. }
  rewrite Hv. destruct (te =? 0); simpl; lia.
Qed.

Lemma draw_polygon_be_shape (texture_grid : list Z) (buf : list byte)
    (v prev_v : vertex4 GLfloat) (p : polygon_pass) :
  draw_polygon_be texture_grid buf v prev_v = Some p ->
  exists r g b mode n te texture tw th,
    calls p = glColor3ub r g b :: emit_polygon mode n te texture tw th (v_after p) /\
    (0 <= r < 256 /\ 0 <= g < 256 /\ 0 <= b < 256) /\
    (mode = GL_QUADS /\ n = 4%nat /\ prev_v_after p = v_after p \/
     mode = GL_TRIANGLES /\ n = 3%nat /\
       prev_v_after p =
         mk_vertex4 (vtx0 (v_after p)) (vtx1 (v_after p)) (vtx2 (v_after p))
           (vtx3 prev_v)) /\
    In texture texture_grid /\
    In tw texture_sizes /\ In th texture_sizes /\
    In (stop p) [0; 4] /\
    (length (calls p) <= 17)%nat.
Proof.
  unfold draw_polygon_be. intros Hp.
  destruct (GETWORDBE buf (3 * 4)) as [w3 |]; [| discriminate Hp].
  destruct (GETWORDBE buf (4 * 4)) as [w4 |]; [| discriminate Hp].
  destruct (GETWORDBE buf (5 * 4)) as [w5 |]; [| discriminate Hp].
  destruct (load_u8 buf (4 * 4 + 0)) as [r |] eqn:Hr; [| discriminate Hp].
  destruct (load_u8 buf (4 * 4 + 1)) as [g |] eqn:Hg; [| discriminate Hp].
  destruct (load_u8 buf (4 * 4 + 2)) as [b |] eqn:Hb; [| discriminate Hp].
  destruct (load_u8 buf (6 * 4 + 0)) as [te |]; [| discriminate Hp].
  destruct (load_u8 buf (1 * 4 + 3)) as [st |] eqn:Hst; [| discriminate Hp].
  destruct (load_u8 buf (0 * 4 + 3)) as [flags |]; [| discriminate Hp].
  cbn [mbind option_bind] in Hp.
  destruct (_ !! _) as [texture |] eqn:Htex; [| discriminate Hp].
  apply list_elem_of_lookup_2, list_elem_of_In in Htex.
  assert (Hstop : In (Z.land st 4) [0; 4]).
  { change 4 with (2 ^ 2) at 1.
    destruct (land_single_bit st 2 ltac:(lia)) as [-> | ->]; simpl; tauto. }
  pose proof (load_u8_range _ _ _ Hr). pose proof (load_u8_range _ _ _ Hg).
  pose proof (load_u8_range _ _ _ Hb).
  pose proof (texture_size_cases w3 3 ltac:(lia)) as Htw.
  pose proof (texture_size_cases w3 0 ltac:(lia)) as Hth.
  destruct (negb _).
  - destruct (quad_switch_be buf _ v prev_v) as [[v' adv] |]; [| discriminate Hp].
    injection Hp as <-. cbn [calls v_after prev_v_after stop].
    eexists r, g, b, GL_QUADS, 4%nat, _, texture, _, _.
    split; [reflexivity |]. split; [auto |]. split.
    { left. split; [reflexivity |]. split; [reflexivity |]. destruct v'; reflexivity. }
    split; [exact Htex |]. split; [exact Htw |]. split; [exact Hth |].
    split; [exact Hstop |].
    cbn [length]. rewrite emit_polygon_length. destruct (_ =? 0); simpl; lia.
  - destruct (tri_switch_be buf _ v prev_v) as [[v' adv] |]; [| discriminate Hp].
    injection Hp as <-. cbn [calls v_after prev_v_after stop].
    eexists r, g, b, GL_TRIANGLES, 3%nat, _, texture, _, _.
    split; [reflexivity |]. split; [auto |]. split.
    { right. split; [reflexivity |]. split; reflexivity. }
    split; [exact Htex |]. split; [exact Htw |]. split; [exact Hth |].
    split; [exact Hstop |].
    cbn [length]. rewrite emit_polygon_length. destruct (_ =? 0); simpl; lia.
Qed.

Lemma draw_polygon_le_shape (texture_grid : list Z) (buf : list byte)
    (v prev_v : vertex4 GLfloat) (p : polygon_pass) :
  draw_polygon_le texture_grid buf v prev_v = Some p ->
  exists r g b mode n te texture tw th,
    calls p = glColor3ub r g b :: emit_polygon mode n te texture tw th (v_after p) /\
    (0 <= r < 256 /\ 0 <= g < 256 /\ 0 <= b < 256) /\
    (mode = GL_QUADS /\ n = 4%nat /\ prev_v_after p = v_after p \/
     mode = GL_TRIANGLES /\ n = 3%nat /\
       prev_v_after p =
         mk_vertex4 (vtx0 (v_after p)) (vtx1 (v_after p)) (vtx2 (v_after p))
           (vtx3 prev_v)) /\
    In texture texture_grid /\
    In tw texture_sizes /\ In th texture_sizes /\
    In (stop p) [0; 4] /\
    (length (calls p) <= 17)%nat.
Proof.
  unfold draw_polygon_le. intros Hp.
  destruct (GETWORDLE buf (3 * 4)) as [w3 |]; [| discriminate Hp].
  destruct (GETWORDLE buf (4 * 4)) as [w4 |]; [| discriminate Hp].
  destruct (GETWORDLE buf (5 * 4)) as [w5 |]; [| discriminate Hp].
  destruct (load_u8 buf (4 * 4 + 3)) as [r |] eqn:Hr; [| discriminate Hp].
  destruct (load_u8 buf (4 * 4 + 2)) as [g |] eqn:Hg; [| discriminate Hp].
  destruct (load_u8 buf (4 * 4 + 1)) as [b |] eqn:Hb; [| discriminate Hp].
  destruct (load_u8 buf (6 * 4 + 3)) as [te |]; [| discriminate Hp].
  destruct (load_u8 buf (1 * 4 + 0)) as [st |] eqn:Hst; [| discriminate Hp].
  destruct (load_u8 buf (0 * 4 + 0)) as [flags |]; [| discriminate Hp].
  cbn [mbind option_bind] in Hp.
  destruct (_ !! _) as [texture |] eqn:Htex; [| discriminate Hp].
  apply list_elem_of_lookup_2, list_elem_of_In in Htex.
  assert (Hstop : In (Z.land st 4) [0; 4]).
  { change 4 with (2 ^ 2) at 1.
    destruct (land_single_bit st 2 ltac:(lia)) as [-> | ->]; simpl; tauto. }
  pose proof (load_u8_range _ _ _ Hr). pose proof (load_u8_range _ _ _ Hg).
  pose proof (load_u8_range _ _ _ Hb).
  pose proof (texture_size_cases w3 3 ltac:(lia)) as Htw.
  pose proof (texture_size_cases w3 0 ltac:(lia)) as Hth.
  destruct (negb _).
  - destruct (quad_switch_le buf _ v prev_v) as [[v' adv] |]; [| discriminate Hp].
    injection Hp as <-. cbn [calls v_after prev_v_after stop].
    eexists r, g, b, GL_QUADS, 4%nat, _, texture, _, _.
    split; [reflexivity |]. split; [auto |]. split.
    { left. split; [reflexivity |]. split; [reflexivity |]. destruct v'; reflexivity. }
    split; [exact Htex |]. split; [exact Htw |]. split; [exact Hth |].
    split; [exact Hstop |].
    cbn [length]. rewrite emit_polygon_length. destruct (_ =? 0); simpl; lia.
  - destruct (tri_switch_le buf _ v prev_v) as [[v' adv] |]; [| discriminate Hp].
    injection Hp as <-. cbn [calls v_after prev_v_after stop].
    eexists r, g, b, GL_TRIANGLES, 3%nat, _, texture, _, _.
    split; [reflexivity |]. split; [auto |]. split.
    { right. split; [reflexivity |]. split; reflexivity. }
    split; [exact Htex |]. split; [exact Htw |]. split; [exact Hth |].
    split; [exact Hstop |].
    cbn [length]. rewrite emit_polygon_length. destruct (_ =? 0); simpl; lia.
Qed.

End ShapeProofs.


Lemma GETWORDBE_low_byte (buf : list byte) (a : nat) (b3 : byte) :
  (a + 3 < length buf)%nat -> buf !! (a + 3)%nat = Some b3 -> byte_val b3 <> 0 ->
  exists w, GETWORDBE buf a = Some w /\ w <> 0.
Proof.
  intros Ha Hb3 Hne. unfold GETWORDBE, load_u32, load_u8. rewrite Hb3.
  destruct (lookup_lt_is_Some_2 buf a ltac:(lia)) as [b0 ->].
  destruct (lookup_lt_is_Some_2 buf (a + 1) ltac:(lia)) as [b1 ->].
  destruct (lookup_lt_is_Some_2 buf (a + 2) ltac:(lia)) as [b2 ->].
  simpl. eexists. split; [reflexivity |].
  rewrite BSWAP32_word_le by apply byte_val_range.
  unfold word_be. intros Hz.
  apply Z.lor_eq_0_iff in Hz. destruct Hz as [_ Hz].
  apply Z.lor_eq_0_iff in Hz. destruct Hz as [_ Hz].
  apply Z.lor_eq_0_iff in Hz. destruct Hz as [_ Hz]. contradiction.
Qed.

Section LoopProofs.

Context {GLfloat : Type} `{GLfloatOps GLfloat}.

Lemma unhandled_switch_be (buf : list byte) (sel : Z) (v prev_v : vertex4 GLfloat) :
  In sel unhandled_selectors ->
  quad_switch_be buf sel v prev_v = Some (v, 0%nat) /\
  tri_switch_be buf sel v prev_v = Some (v, 0%nat).
Proof.
  unfold unhandled_selectors. simpl.
  intros [<- | [<- | [<- | [<- | [<- | [<- | []]]]]]]; split; reflexivity.
Qed.

Lemma draw_polygon_be_unhandled (grid : list Z) (buf : list byte) (f st : byte)
    (v prev_v : vertex4 GLfloat) :
  (0x1C <= length buf)%nat ->
  Z.of_nat (length grid) = texture_grid_size ->
  buf !! 3%nat = Some f -> In (Z.land (byte_val f) 0x0F) unhandled_selectors ->
  buf !! 7%nat = Some st ->
  exists p, draw_polygon_be grid buf v prev_v = Some p /\
            advance p = 0%nat /\ stop p = Z.land (byte_val st) 4 /\ v_after p = v.
Proof.
  intros Hlen Hgrid Hf Hsel Hst.
  assert (Hf8 : load_u8 buf (0 * 4 + 3) = Some (byte_val f))
    by (unfold load_u8; simpl; rewrite Hf; reflexivity).
  assert (Hst8 : load_u8 buf (1 * 4 + 3) = Some (byte_val st))
    by (unfold load_u8; simpl; rewrite Hst; reflexivity).
  unfold draw_polygon_be. rewrite Hf8, Hst8.
  destruct (GETWORDBE_in buf (3 * 4) ltac:(simpl; lia)) as [w3 ->].
  destruct (GETWORDBE_in buf (4 * 4) ltac:(simpl; lia)) as [w4 ->].
  destruct (GETWORDBE_in buf (5 * 4) ltac:(simpl; lia)) as [w5 ->].
  destruct (load_u8_in buf (4 * 4 + 0) ltac:(simpl; lia)) as (r & -> & _).
  destruct (load_u8_in buf (4 * 4 + 1) ltac:(simpl; lia)) as (g & -> & _).
  destruct (load_u8_in buf (4 * 4 + 2) ltac:(simpl; lia)) as (b & -> & _).
  destruct (load_u8_in buf (6 * 4 + 0) ltac:(simpl; lia)) as (te & -> & _).
  cbn [mbind option_bind].
  match goal with
  | |- context [grid !! ?i] => destruct (lookup_lt_is_Some_2 grid i) as [texture ->]
  end.
  { pose proof (polygon_texture_index w4 w5). unfold texture_grid_size in *. lia. }
  cbn [mbind option_bind].
  destruct (unhandled_switch_be buf _ v prev_v Hsel) as [-> ->].
  destruct (negb _); cbn [mbind option_bind]; eexists; (split; [reflexivity |]); auto.
Qed.

(** X4: a polygon whose vertex selector has no [case] (7, 10, 11, 13, 14
    or 15) and whose last-polygon flag is clear is drawn again and again,
    the buffer pointer never moving: [draw_model_be] does not come back,
    whatever the iteration budget. *)
Theorem draw_model_be_unhandled_selector (fuel : nat) (grid : list Z)
    (buf : list byte) (f st : byte) (v prev_v : vertex4 GLfloat) :
  (0x1C <= length buf)%nat ->
  Z.of_nat (length grid) = texture_grid_size ->
  buf !! 3%nat = Some f -> In (Z.land (byte_val f) 0x0F) unhandled_selectors ->
  buf !! 7%nat = Some st -> Z.land (byte_val st) 4 = 0 ->
  (draw_model_be fuel grid (Some buf) v prev_v).2 = Unfinished.
Proof.
  intros Hlen Hgrid Hf Hsel Hst Hstop. unfold draw_model_be.
  change (GETWORDBE buf (0 * 4)) with (GETWORDBE buf 0).
  destruct (GETWORDBE_low_byte buf 0 f ltac:(lia) Hf) as (w & -> & Hw).
  { intros Hz. rewrite Hz in Hsel. revert Hsel. unfold unhandled_selectors. simpl.
    intuition discriminate. }
  destruct (Z.eqb_spec w 0); [contradiction |].
  clear Hw. revert v prev_v. induction fuel as [| fuel IH]; intros v prev_v; [reflexivity |].
  simpl draw_loop.
  destruct (draw_polygon_be_unhandled grid buf f st v prev_v Hlen Hgrid Hf Hsel Hst)
    as (p & -> & Hadv & Hs & Hv).
  rewrite Hs, Hstop, Hadv. rewrite drop_0. simpl Z.eqb. cbv iota.
  specialize (IH (v_after p) (prev_v_after p)).
  destruct (draw_loop _ fuel buf (v_after p) (prev_v_after p)) as [rest o].
  exact IH.
Qed.

End LoopProofs.

Lemma texture_header_bounds (header : Z) :
  let g := texture_header header in
  In (grid_width g) [1; 2; 4; 8] /\ In (grid_height g) [1; 2; 4; 8] /\
  0 <= xpos g /\ 0 <= ypos g /\
  0 <= grid_left g < 64 /\ 0 <= grid_top g < 64.
Proof.
  cbv zeta. unfold grid_width, grid_height, grid_left, grid_top, texture_header.
  cbn [tiles_x tiles_y xpos ypos].
  assert (Hsz : forall k, 0 <= k < 4 -> In (Z.shiftl 32 k / 8 * 8 / 32) [1; 2; 4; 8]).
  { intros k Hk. assert (Hc : k = 0 \/ k = 1 \/ k = 2 \/ k = 3) by lia.
    destruct Hc as [-> | [-> | [-> | ->]]]; simpl; tauto. }
  split; [apply Hsz; apply (land_mask_bound _ 3 2); lia |].
  split; [apply Hsz; apply (land_mask_bound _ 3 2); lia |].
  assert (Hy : 0 <= Z.lor (Z.land (Z.shiftr header 7) 0x1F)
                          (Z.land (Z.shiftr header 15) 0x20) < 2 ^ 6).
  { apply lor_bound; [lia | |].
    - pose proof (land_mask_bound (Z.shiftr header 7) 0x1F 5 ltac:(lia) ltac:(lia)).
      change (2 ^ 5) with 32 in *. change (2 ^ 6) with 64. lia.
    - apply land_mask_bound; lia. }
  pose proof (land_mask_bound (Z.shiftr header 0) 0x3F 6 ltac:(lia) ltac:(lia)) as Hx.
  revert Hy Hx. generalize (Z.lor (Z.land (Z.shiftr header 7) 0x1F)
                                  (Z.land (Z.shiftr header 15) 0x20)).
  generalize (Z.land (Z.shiftr header 0) 0x3F). intros x y Hy Hx.
  change (2 ^ 6) with 64 in *. unfold u32.
  rewrite (Z.mod_small (y * 32)), (Z.mod_small (x * 32)) by lia.
  rewrite !Z.div_mul by lia. lia.
Qed.

Lemma grid_writes_elem (g : texture_geometry) (i : Z) :
  i ∈ grid_writes g <->
  exists yi xi, 0 <= yi < grid_height g /\ 0 <= xi < grid_width g /\
                i = grid_index g yi xi.
Proof.
  unfold grid_writes, grid_height, grid_width. rewrite list_elem_of_bind. split.
  - intros (yi & Hin & Hyi). apply list_elem_of_bind in Hin.
    destruct Hin as (xi & Hi & Hxi). apply list_elem_of_singleton in Hi.
    apply elem_of_seqZ in Hyi, Hxi. exists yi, xi. repeat split; (lia || assumption).
  - intros (yi & xi & Hyi & Hxi & ->). exists yi. split.
    + apply list_elem_of_bind. exists xi. split; [apply list_elem_of_singleton; reflexivity |].
      apply elem_of_seqZ. lia.
    + apply elem_of_seqZ. lia.
Qed.

Lemma grid_store_all_lookup (idxs : list Z) (grid grid' : list Z) (id : Z) (j : nat) :
  grid_store_all grid idxs id = Some grid' ->
  grid' !! j = if decide (Z.of_nat j ∈ idxs) then Some id else grid !! j.
Proof.
  revert grid. induction idxs as [| i idxs IH]; intros grid; cbn [grid_store_all].
  - intros [= <-]. rewrite decide_False by apply not_elem_of_nil. reflexivity.
  - destruct (grid_store grid i id) as [grid1 |] eqn:Hst; cbn [mbind option_bind];
      [| discriminate].
    intros Hall. rewrite (IH _ Hall).
    unfold grid_store in Hst.
    destruct (Z.leb_spec 0 i), (Z.ltb_spec i (Z.of_nat (length grid)));
      simpl in Hst; try discriminate Hst.
    injection Hst as <-.
    destruct (decide (Z.of_nat j ∈ idxs)) as [Hin | Hnin].
    + rewrite decide_True by (apply elem_of_cons; auto). reflexivity.
    + destruct (decide (Z.of_nat j = i)) as [Heq | Hne].
      * rewrite decide_True by (apply elem_of_cons; auto).
        subst i. rewrite Nat2Z.id. apply list_lookup_insert_eq. lia.
      * rewrite decide_False by (rewrite elem_of_cons; tauto).
        apply list_lookup_insert_ne. lia.
Qed.

Lemma r3dgl_upload_texture_cells (header id : Z) (texture_grid : list Z) :
  let g := texture_header header in
  Z.land header 0x0f000000 <> 0x02000000 ->
  inside_sheet g ->
  Z.of_nat (length texture_grid) = texture_grid_size ->
  exists grid',
    r3dgl_upload_texture header id texture_grid = Some grid' /\
    length grid' = length texture_grid /\
    forall y x, 0 <= y < 64 -> 0 <= x < 64 ->
      grid' !! Z.to_nat (y * 64 + x) =
      if in_rect g y x then Some id else texture_grid !! Z.to_nat (y * 64 + x).
Proof.
  intros g Htype [Hw Hh] Hlen.
  destruct (texture_header_bounds header) as (Hgw & Hgh & Hx & Hy & Hl & Ht).
  fold g in Hgw, Hgh, Hx, Hy, Hl, Ht.
  assert (Hgw0 : 0 < grid_width g) by (simpl in Hgw; lia).
  assert (Hgh0 : 0 < grid_height g) by (simpl in Hgh; lia).
  assert (Hidx : forall yi xi, 0 <= yi < grid_height g -> 0 <= xi < grid_width g ->
            grid_index g yi xi = (yi + grid_top g) * 64 + (xi + grid_left g)).
  { intros yi xi Hyi Hxi. unfold grid_index, u32. fold (grid_top g) (grid_left g).
    rewrite (Z.mod_small (yi + grid_top g)) by lia.
    rewrite (Z.mod_small (xi + grid_left g)) by lia.
    rewrite (Z.mod_small ((yi + grid_top g) * 64)) by lia.
    apply Z.mod_small. lia. }
  unfold r3dgl_upload_texture. fold g.
  destruct (Z.eqb_spec (Z.land header 0x0f000000) 0x02000000); [contradiction |].
  destruct (proj2 (grid_store_all_in_bounds (grid_writes g) texture_grid id)) as [grid' Hst].
  { apply Forall_forall. intros i Hi. rewrite <- ?list_elem_of_In in Hi.
    apply grid_writes_elem in Hi.
    destruct Hi as (yi & xi & Hyi & Hxi & ->). rewrite (Hidx yi xi Hyi Hxi).
    unfold texture_grid_size in Hlen. lia. }
  exists grid'. split; [exact Hst |]. split.
  { clear -Hst. revert texture_grid Hst.
    induction (grid_writes g) as [| i idxs IH]; intros grid; simpl.
    - intros [= <-]. reflexivity.
    - destruct (grid_store grid i id) as [grid1 |] eqn:H1; simpl; [| discriminate].
      intros Hall. rewrite (IH _ Hall). eapply grid_store_length; eassumption. }
  intros y x Hyr Hxr. rewrite (grid_store_all_lookup _ _ _ _ _ Hst).
  rewrite Z2Nat.id by lia. unfold in_rect.
  destruct (decide (y * 64 + x ∈ grid_writes g)) as [Hin | Hnin].
  - apply grid_writes_elem in Hin. destruct Hin as (yi & xi & Hyi & Hxi & Heq).
    rewrite (Hidx yi xi Hyi Hxi) in Heq.
    assert (y = yi + grid_top g /\ x = xi + grid_left g) as [-> ->] by lia.
    destruct (Z.leb_spec (grid_top g) (yi + grid_top g)); [| lia].
    destruct (Z.ltb_spec (yi + grid_top g) (grid_top g + grid_height g)); [| lia].
    destruct (Z.leb_spec (grid_left g) (xi + grid_left g)); [| lia].
    destruct (Z.ltb_spec (xi + grid_left g) (grid_left g + grid_width g)); [| lia].
    reflexivity.
  - destruct (Z.leb_spec (grid_top g) y); [| reflexivity].
    destruct (Z.ltb_spec y (grid_top g + grid_height g)); [| reflexivity].
    destruct (Z.leb_spec (grid_left g) x); [| reflexivity].
    destruct (Z.ltb_spec x (grid_left g + grid_width g)); [| reflexivity].
    exfalso. apply Hnin. apply grid_writes_elem.
    exists (y - grid_top g), (x - grid_left g).
    split; [lia |]. split; [lia |]. rewrite Hidx by lia. lia.
Qed.

Lemma polygon_cells (w4 w5 : Z) :
  0 <= polygon_u_cell w4 w5 < 64 /\ 0 <= polygon_v_cell w4 w5 < 64 /\
  u32 (u32 (u32 (polygon_v_cell w4 w5 * 32) / 32 * 64)
       + u32 (polygon_u_cell w4 w5 * 32) / 32)
  = polygon_v_cell w4 w5 * 64 + polygon_u_cell w4 w5.
Proof.
  assert (Hv : 0 <= polygon_v_cell w4 w5 < 2 ^ 6).
  { apply lor_bound; [lia | |].
    - pose proof (land_mask_bound w5 0x1F 5 ltac:(lia) ltac:(lia)).
      change (2 ^ 5) with 32 in *. change (2 ^ 6) with 64. lia.
    - pose proof (land_mask_bound w4 0x40 7 ltac:(lia) ltac:(lia)) as Hb.
      rewrite Z.shiftr_div_pow2 by lia. change (2 ^ 7) with 128 in Hb.
      change (2 ^ 1) with 2. change (2 ^ 6) with 64.
      split; [apply Z.div_pos; lia | apply Z.div_lt_upper_bound; lia]. }
  assert (Hu : 0 <= polygon_u_cell w4 w5 < 2 ^ 6).
  { apply lor_bound; [lia | |].
    - pose proof (land_mask_bound w4 0x1F 5 ltac:(lia) ltac:(lia)) as Hb.
      change (2 ^ 5) with 32 in Hb. rewrite Z.shiftl_mul_pow2 by lia.
      unfold u32. rewrite Z.mod_small by lia. change (2 ^ 6) with 64. lia.
    - pose proof (land_mask_bound w5 0x80 8 ltac:(lia) ltac:(lia)) as Hb.
      rewrite Z.shiftr_div_pow2 by lia. change (2 ^ 8) with 256 in Hb.
      change (2 ^ 7) with 128. change (2 ^ 6) with 64.
      split; [apply Z.div_pos; lia | apply Z.div_lt_upper_bound; lia]. }
  revert Hv Hu. generalize (polygon_v_cell w4 w5) (polygon_u_cell w4 w5).
  intros vc uc Hv Hu. change (2 ^ 6) with 64 in *. unfold u32.
  rewrite (Z.mod_small (vc * 32)), (Z.mod_small (uc * 32)) by lia.
  rewrite !Z.div_mul by lia.
  rewrite (Z.mod_small (vc * 64)) by lia. rewrite Z.mod_small by lia. lia.
Qed.

Section RoundTrip.

Context {GLfloat : Type} `{GLfloatOps GLfloat}.

Lemma emit_polygon_binds (mode : GLenum) (n : nat) (te texture tw th : Z)
    (v : vertex4 GLfloat) :
  In (glBindTexture GL_TEXTURE_2D texture) (emit_polygon mode n te texture tw th v).
Proof.
  unfold emit_polygon. apply in_or_app. right. apply in_or_app. left. simpl. tauto.
Qed.

Lemma draw_polygon_be_binds (grid : list Z) (buf : list byte)
    (v prev_v : vertex4 GLfloat) (p : polygon_pass) (w4 w5 : Z) :
  draw_polygon_be grid buf v prev_v = Some p ->
  GETWORDBE buf (4 * 4) = Some w4 -> GETWORDBE buf (5 * 4) = Some w5 ->
  exists texture,
    grid !! Z.to_nat (polygon_v_cell w4 w5 * 64 + polygon_u_cell w4 w5) = Some texture /\
    In (glBindTexture GL_TEXTURE_2D texture) (calls p).
Proof.
  unfold draw_polygon_be. intros Hp H4 H5. rewrite H4, H5 in Hp.
  destruct (GETWORDBE buf (3 * 4)) as [w3 |]; [| discriminate Hp].
  cbn [mbind option_bind] in Hp.
  destruct (load_u8 buf (4 * 4 + 0)) as [r |]; [| discriminate Hp].
  destruct (load_u8 buf (4 * 4 + 1)) as [g |]; [| discriminate Hp].
  destruct (load_u8 buf (4 * 4 + 2)) as [b |]; [| discriminate Hp].
  destruct (load_u8 buf (6 * 4 + 0)) as [te |]; [| discriminate Hp].
  destruct (load_u8 buf (1 * 4 + 3)) as [st |]; [| discriminate Hp].
  destruct (load_u8 buf (0 * 4 + 3)) as [flags |]; [| discriminate Hp].
  cbn [mbind option_bind] in Hp.
  fold (polygon_u_cell w4 w5) (polygon_v_cell w4 w5) in Hp.
  rewrite (proj2 (proj2 (polygon_cells w4 w5))) in Hp.
  destruct (_ !! _) as [texture |]; [| discriminate Hp].
  exists texture. split; [reflexivity |].
  destruct (negb _).
  - destruct (quad_switch_be buf _ v prev_v) as [[v' adv] |]; [| discriminate Hp].
    injection Hp as <-. right. apply emit_polygon_binds.
  - destruct (tri_switch_be buf _ v prev_v) as [[v' adv] |]; [| discriminate Hp].
    injection Hp as <-. right. apply emit_polygon_binds.
Qed.

End RoundTrip.

(** X5: a texture that lies within the sheet is entered into exactly the
    cells of the grid it covers: the upload succeeds, the grid keeps its
    size, every cell of the rectangle holds the new name and every other
    cell what it held before. *)
Theorem r3dgl_upload_texture_marks (header id : Z) (texture_grid : list Z) :
  let g := texture_header header in
  Z.land header 0x0f000000 <> 0x02000000 ->
  inside_sheet g ->
  Z.of_nat (length texture_grid) = texture_grid_size ->
  exists grid',
    r3dgl_upload_texture header id texture_grid = Some grid' /\
    length grid' = length texture_grid /\
    forall y x, 0 <= y < 64 -> 0 <= x < 64 ->
      grid' !! Z.to_nat (y * 64 + x) =
      if in_rect g y x then Some id else texture_grid !! Z.to_nat (y * 64 + x).
Proof. exact (r3dgl_upload_texture_cells header id texture_grid). Qed.

(** X6: upload, then draw: after a texture has been uploaded within the
    sheet, a loop pass of [draw_model_be] over a polygon whose header
    words 4 and 5 select a cell of the texture's rectangle binds the name
    the upload was given. *)
Theorem upload_then_draw {GLfloat : Type} `{GLfloatOps GLfloat}
    (header id : Z) (texture_grid grid' : list Z) (buf : list byte)
    (v prev_v : vertex4 GLfloat) (p : polygon_pass) (w4 w5 : Z) :
  Z.land header 0x0f000000 <> 0x02000000 ->
  inside_sheet (texture_header header) ->
  Z.of_nat (length texture_grid) = texture_grid_size ->
  r3dgl_upload_texture header id texture_grid = Some grid' ->
  GETWORDBE buf (4 * 4) = Some w4 -> GETWORDBE buf (5 * 4) = Some w5 ->
  in_rect (texture_header header) (polygon_v_cell w4 w5) (polygon_u_cell w4 w5) = true ->
  draw_polygon_be grid' buf v prev_v = Some p ->
  In (glBindTexture GL_TEXTURE_2D id) (calls p).
Proof.
  intros Htype Hin Hlen Hup H4 H5 Hrect Hp.
  destruct (r3dgl_upload_texture_cells header id texture_grid Htype Hin Hlen)
    as (g1 & Hup1 & _ & Hcells).
  rewrite Hup in Hup1. injection Hup1 as <-.
  destruct (draw_polygon_be_binds _ _ _ _ _ _ _ Hp H4 H5) as (texture & Htex & Hb).
  destruct (polygon_cells w4 w5) as (Hu & Hv & _).
  rewrite (Hcells _ _ Hv Hu), Hrect in Htex. injection Htex as <-. exact Hb.
Qed.

(** ** The calls of a loop pass *)


Section CallProofs.

Context {GLfloat : Type} `{GLfloatOps GLfloat}.



End CallProofs.

(** ** Witnesses *)

Lemma draw_polygon_in_bounds_witness :
  is_Some (draw_polygon_be (replicate 4096 7) (sample_model ++ sample_model)
             zero_vertex4 zero_vertex4).
Proof.
  refine (proj1 (draw_polygon_in_bounds (replicate 4096 7)
                   (sample_model ++ sample_model) zero_vertex4 zero_vertex4 _ _)).
  - simpl. lia.
  - reflexivity.
Defined.


Lemma draw_model_be_unhandled_selector_witness :
  (draw_model_be 1000 (replicate 4096 7) (Some looping_model)
     zero_vertex4 zero_vertex4).2 = Unfinished.
Proof.
  apply (draw_model_be_unhandled_selector 1000 (replicate 4096 7) looping_model x07 x00).
  - simpl. lia.
  - reflexivity.
  - reflexivity.
  - simpl. tauto.
  - reflexivity.
  - reflexivity.
Defined.

Lemma r3dgl_upload_texture_marks_witness :
  exists grid',
    r3dgl_upload_texture sample_texture_header 42 (replicate 4096 0) = Some grid' /\
    length grid' = length (replicate 4096 0) /\
    forall y x, 0 <= y < 64 -> 0 <= x < 64 ->
      grid' !! Z.to_nat (y * 64 + x) =
      if in_rect (texture_header sample_texture_header) y x
      then Some 42 else replicate 4096 0 !! Z.to_nat (y * 64 + x).
Proof.
  apply (r3dgl_upload_texture_marks sample_texture_header 42 (replicate 4096 0)).
  - vm_compute. discriminate.
  - unfold inside_sheet. vm_compute. split; discriminate.
  - reflexivity.
Defined.

Lemma upload_then_draw_witness :
  In (glBindTexture GL_TEXTURE_2D 42)
     (calls (default sample_pass
        (draw_polygon_be (<[196%nat := 42]> (replicate 4096 0)) sample_model
           zero_vertex4 zero_vertex4))).
Proof.
  refine (upload_then_draw sample_texture_header 42 (replicate 4096 0)
            (<[196%nat := 42]> (replicate 4096 0)) sample_model
            zero_vertex4 zero_vertex4 _ 0xFF804002 3 _ _ _ _ _ _ _ _).
  - vm_compute. discriminate.
  - unfold inside_sheet. vm_compute. split; discriminate.
  - reflexivity.
  - vm_compute. reflexivity.
  - vm_compute. reflexivity.
  - vm_compute. reflexivity.
  - vm_compute. reflexivity.
  - vm_compute. reflexivity.
Defined.

(** ** Texture decoding *)

Lemma for_each_ext {A S : Type} (f g : S -> A -> option S) (l : list A) (s : S) :
  (forall s a, In a l -> f s a = g s a) -> for_each f l s = for_each g l s.
Proof.
  revert s. induction l as [| a l IH]; intros s Hfg; simpl; [reflexivity |].
  rewrite (Hfg s a) by (left; reflexivity).
  destruct (g s a) as [s' |]; simpl; [| reflexivity].
  apply IH. intros s0 a0 Hin. apply Hfg. right. exact Hin.
Qed.

Lemma tile_pixels_elem (yi xi : Z) :
  In (yi, xi) tile_pixels <-> 0 <= yi < 8 /\ 0 <= xi < 8.
Proof.
  rewrite <- list_elem_of_In. unfold tile_pixels. rewrite list_elem_of_bind. split.
  - intros (y' & Hin & Hy). apply list_elem_of_bind in Hin.
    destruct Hin as (x' & Hp & Hx). apply list_elem_of_singleton in Hp.
    injection Hp as -> ->. apply elem_of_seqZ in Hy, Hx. lia.
  - intros [Hy Hx]. exists yi. split; [| apply elem_of_seqZ; lia].
    apply list_elem_of_bind. exists xi. split; [| apply elem_of_seqZ; lia].
    apply list_elem_of_singleton. reflexivity.
Qed.

Ltac below_8 i H :=
  let Hc := fresh in
  assert (Hc : i = 0 \/ i = 1 \/ i = 2 \/ i = 3 \/ i = 4 \/ i = 5 \/ i = 6 \/ i = 7)
    by lia;
  clear H;
  destruct Hc as [-> | [-> | [-> | [-> | [-> | [-> | [-> | ->]]]]]]].

(** In little-endian mode a tile's pixel is looked up at [decode] of the
    index with the low bits of row and column flipped: the mirror image,
    within its 32-bit word, of where big-endian mode finds it. *)
Lemma tile_8_pixel_bswap (x y : Z) (buf : list byte) (w : Z) (tb : list Z) (p : Z * Z) :
  word_sized buf -> In p tile_pixels ->
  tile_8_pixel x y (bswap_words buf) w true tb p = tile_8_pixel x y buf w false tb p.
Proof.
  intros Hw Hin. destruct p as [yi xi]. apply tile_pixels_elem in Hin.
  destruct Hin as [Hy Hx]. below_8 yi Hy; below_8 xi Hx.
  all: unfold tile_8_pixel; simpl; rewrite load_u8_bswap by exact Hw; reflexivity.
Qed.

Lemma tile_16_pixel_bswap (x y : Z) (buf : list byte) (w : Z) (tb : list Z) (p : Z * Z) :
  word_sized buf -> In p tile_pixels ->
  tile_16_pixel x y (bswap_words buf) w true tb p = tile_16_pixel x y buf w false tb p.
Proof.
  intros Hw Hin. destruct p as [yi xi]. apply tile_pixels_elem in Hin.
  destruct Hin as [Hy Hx]. below_8 yi Hy; below_8 xi Hx.
  all: unfold tile_16_pixel, load_rgb16; simpl; rewrite !load_u8_bswap by exact Hw.
  all: match goal with
       | |- context [load_u8 _ (mirror ?a)] =>
           let m := eval vm_compute in (mirror a) in change (mirror a) with m
       end.
  all: match goal with
       | |- context [load_u8 _ (mirror ?a)] =>
           let m := eval vm_compute in (mirror a) in change (mirror a) with m
       end.
  all: repeat match goal with
       | |- context [Z.to_nat ?e] =>
           let m := eval vm_compute in (Z.to_nat e) in change (Z.to_nat e) with m
       end.
  all: repeat match goal with
       | |- context [load_u8 ?bf ?a] =>
           destruct (load_u8 bf a) as [? |]; cbn [mbind option_bind]
       end.
  all: first [reflexivity | rewrite Z.lor_comm; reflexivity].
Qed.

Lemma draw_texture_tile_bswap (x y : Z) (buf : list byte) (w : Z) (tb : list Z) :
  word_sized buf ->
  draw_texture_tile_8 x y (bswap_words buf) w true tb =
    draw_texture_tile_8 x y buf w false tb /\
  draw_texture_tile_16 x y (bswap_words buf) w true tb =
    draw_texture_tile_16 x y buf w false tb.
Proof.
  intros Hw. unfold draw_texture_tile_8, draw_texture_tile_16. split.
  - apply for_each_ext. intros s a Ha. apply tile_8_pixel_bswap; assumption.
  - apply for_each_ext. intros s a Ha. apply tile_16_pixel_bswap; assumption.
Qed.

Lemma draw_texture_tiles_bswap (w : Z) (l : list (Z * Z)) (tb : list Z) (buf : list byte) :
  word_sized buf ->
  for_each (draw_texture_8_tile w true) l (tb, bswap_words buf) =
    prod_map id bswap_words <$> for_each (draw_texture_8_tile w false) l (tb, buf) /\
  for_each (draw_texture_16_tile w true) l (tb, bswap_words buf) =
    prod_map id bswap_words <$> for_each (draw_texture_16_tile w false) l (tb, buf).
Proof.
  revert tb buf. induction l as [| [yi xi] l IH]; intros tb buf Hw.
  - split; reflexivity.
  - destruct (draw_texture_tile_bswap xi yi buf (u32 (w * 8)) tb Hw) as [H8 H16].
    cbn [for_each draw_texture_8_tile draw_texture_16_tile]. rewrite H8, H16. split.
    + destruct (draw_texture_tile_8 xi yi buf (u32 (w * 8)) false tb) as [tb' |];
        cbn [mbind option_bind]; [| reflexivity].
      destruct (drop_aligned (8 * 8) buf Hw eq_refl) as [-> Hw'].
      apply IH. exact Hw'.
    + destruct (draw_texture_tile_16 xi yi buf (u32 (w * 8)) false tb) as [tb' |];
        cbn [mbind option_bind]; [| reflexivity].
      destruct (drop_aligned (8 * 8 * 2) buf Hw eq_refl) as [-> Hw'].
      apply IH. exact Hw'.
Qed.

(** X8: the little-endian texture decoders on the data whose aligned
    32-bit words are byte-reversed fill [texture_buffer] as the big-endian
    decoders do on the original data, for 8-bit and for 16-bit texels, and
    so does the upload as a whole. *)
Theorem draw_texture_bswap_words (w h header : Z) (buf : list byte) (tb : list Z) :
  word_sized buf ->
  draw_texture_8 w h (bswap_words buf) true tb = draw_texture_8 w h buf false tb /\
  draw_texture_16 w h (bswap_words buf) true tb = draw_texture_16 w h buf false tb /\
  r3dgl_upload_texture_pixels header (bswap_words buf) true tb =
    r3dgl_upload_texture_pixels header buf false tb.
Proof.
  intros Hw.
  assert (H8 : forall w h, draw_texture_8 w h (bswap_words buf) true tb =
                           draw_texture_8 w h buf false tb).
  { intros w0 h0. unfold draw_texture_8.
    rewrite (proj1 (draw_texture_tiles_bswap w0 _ tb buf Hw)).
    destruct (for_each _ _ (tb, buf)) as [[tb' buf'] |]; reflexivity. }
  assert (H16 : forall w h, draw_texture_16 w h (bswap_words buf) true tb =
                            draw_texture_16 w h buf false tb).
  { intros w0 h0. unfold draw_texture_16.
    rewrite (proj2 (draw_texture_tiles_bswap w0 _ tb buf Hw)).
    destruct (for_each _ _ (tb, buf)) as [[tb' buf'] |]; reflexivity. }
  split; [apply H8 |]. split; [apply H16 |].
  unfold r3dgl_upload_texture_pixels. rewrite H8, H16. reflexivity.
Qed.

Lemma draw_texture_bswap_words_witness :
  draw_texture_8 1 1 (bswap_words sample_tile) true (replicate 256 0)
    = draw_texture_8 1 1 sample_tile false (replicate 256 0) /\
  draw_texture_16 1 1 (bswap_words sample_tile) true (replicate 256 0)
    = draw_texture_16 1 1 sample_tile false (replicate 256 0) /\
  r3dgl_upload_texture_pixels sample_texture_header (bswap_words sample_tile) true
      (replicate 256 0)
    = r3dgl_upload_texture_pixels sample_texture_header sample_tile false
        (replicate 256 0).
Proof.
  apply (draw_texture_bswap_words 1 1 sample_texture_header sample_tile (replicate 256 0)).
  vm_compute. reflexivity.
Defined.

Lemma texture_store_in (tb : list Z) (i x : Z) :
  0 <= i < Z.of_nat (length tb) ->
  exists tb', texture_store tb i x = Some tb' /\ length tb' = length tb.
Proof.
  intros Hi. unfold texture_store.
  destruct (Z.leb_spec 0 i), (Z.ltb_spec i (Z.of_nat (length tb))); try lia.
  simpl. eexists. split; [reflexivity |]. apply length_insert.
Qed.

Lemma pixel_index_eq (x y w xi yi c hh : Z) :
  0 <= y + yi < hh -> 0 <= x + xi < w -> w * hh * 4 < 2 ^ 32 -> 0 <= c < 4 ->
  pixel_index x y w xi yi c = ((y + yi) * w + (x + xi)) * 4 + c /\
  0 <= pixel_index x y w xi yi c < w * hh * 4.
Proof.
  intros Hy Hx Hwh Hc. unfold pixel_index, u32.
  assert (Hrow : (y + yi) * w + (x + xi) < w * hh) by nia.
  assert (0 <= (y + yi) * w) by nia.
  rewrite (Z.mod_small (y + yi)) by nia.
  rewrite (Z.mod_small (x + xi)) by nia.
  rewrite (Z.mod_small ((y + yi) * w)) by nia.
  rewrite (Z.mod_small ((y + yi) * w + (x + xi))) by nia.
  rewrite (Z.mod_small (((y + yi) * w + (x + xi)) * 4)) by nia.
  rewrite Z.mod_small by nia. nia.
Qed.

Lemma put_pixel_in (tb : list Z) (x y w xi yi hh r g b a : Z) :
  0 <= y + yi < hh -> 0 <= x + xi < w -> w * hh * 4 < 2 ^ 32 ->
  w * hh * 4 <= Z.of_nat (length tb) ->
  exists tb', put_pixel tb x y w xi yi r g b a = Some tb' /\ length tb' = length tb.
Proof.
  intros Hy Hx Hwh Hlen. unfold put_pixel.
  destruct (pixel_index_eq x y w xi yi 0 hh Hy Hx Hwh ltac:(lia)) as [_ H0].
  destruct (pixel_index_eq x y w xi yi 1 hh Hy Hx Hwh ltac:(lia)) as [_ H1].
  destruct (pixel_index_eq x y w xi yi 2 hh Hy Hx Hwh ltac:(lia)) as [_ H2].
  destruct (pixel_index_eq x y w xi yi 3 hh Hy Hx Hwh ltac:(lia)) as [_ H3].
  destruct (texture_store_in tb (pixel_index x y w xi yi 0) r ltac:(lia)) as (tb0 & -> & L0). cbn [mbind option_bind].
  destruct (texture_store_in tb0 (pixel_index x y w xi yi 1) g ltac:(lia)) as (tb1 & -> & L1).
  cbn [mbind option_bind].
  destruct (texture_store_in tb1 (pixel_index x y w xi yi 2) b ltac:(lia)) as (tb2 & -> & L2).
  cbn [mbind option_bind].
  destruct (texture_store_in tb2 (pixel_index x y w xi yi 3) a ltac:(lia)) as (tb3 & -> & L3).
  exists tb3. split; [reflexivity | congruence].
Qed.

(** Every index into [decode] the tile loops form is within the table,
    and what they find there is an offset within the 64 texels of the
    tile. *)
Lemma decode_in (yi xi : Z) (m : Z) :
  0 <= yi < 8 -> 0 <= xi < 8 -> In m [0; 1; 9] ->
  exists d, decode !! Z.to_nat (Z.lxor (yi * 8 + xi) m) = Some d /\ 0 <= d < 64.
Proof.
  intros Hy Hx Hm. simpl in Hm.
  below_8 yi Hy; below_8 xi Hx.
  all: destruct Hm as [<- | [<- | [<- | []]]]; simpl; eexists; (split; [reflexivity | lia]).
Qed.

Lemma for_each_inv {A S : Type} (P : S -> Prop) (body : S -> A -> option S)
    (l : list A) (s : S) :
  (forall s a, P s -> In a l -> exists s', body s a = Some s' /\ P s') ->
  P s -> exists s', for_each body l s = Some s' /\ P s'.
Proof.
  revert s. induction l as [| a l IH]; intros s Hbody Hs; simpl.
  - eauto.
  - destruct (Hbody s a Hs ltac:(left; reflexivity)) as (s1 & -> & Hs1). simpl.
    apply IH; [| exact Hs1]. intros s0 a0 H0 Hin. apply Hbody; [exact H0 | right; exact Hin].
Qed.

Lemma draw_texture_tile_in (x y w hh : Z) (buf : list byte) (le : bool) (tb : list Z) :
  0 <= y -> y + 8 <= hh -> 0 <= x -> x + 8 <= w -> w * hh * 4 < 2 ^ 32 ->
  w * hh * 4 <= Z.of_nat (length tb) ->
  ((8 * 8 <= length buf)%nat ->
   exists tb', draw_texture_tile_8 x y buf w le tb = Some tb' /\ length tb' = length tb) /\
  ((8 * 8 * 2 <= length buf)%nat ->
   exists tb', draw_texture_tile_16 x y buf w le tb = Some tb' /\ length tb' = length tb).
Proof.
  intros Hy0 Hy1 Hx0 Hx1 Hwh Hlen. split; intros Hbuf.
  - unfold draw_texture_tile_8.
    apply (for_each_inv (fun t => length t = length tb)); [| reflexivity].
    intros t [yi xi] Ht Hin. apply tile_pixels_elem in Hin. destruct Hin as [Hyi Hxi].
    unfold tile_8_pixel.
    assert (Hd : exists d, (if le
                 then decode !! Z.to_nat (Z.lxor (yi * 8 + xi) (Z.lor 8 1))
                 else decode !! Z.to_nat (yi * 8 + xi)) = Some d /\ 0 <= d < 64).
    { destruct le.
      - apply (decode_in yi xi 9); simpl; auto.
      - destruct (decode_in yi xi 0 Hyi Hxi ltac:(simpl; auto)) as (d & Hd & Hr).
        rewrite Z.lxor_0_r in Hd. eauto. }
    destruct Hd as (d & -> & Hd). cbn [mbind option_bind].
    destruct (load_u8_in buf (Z.to_nat d) ltac:(simpl in Hbuf; lia)) as (lum & -> & _).
    cbn [mbind option_bind].
    destruct (put_pixel_in t x y w xi yi hh lum lum lum 0xFF) as (t' & Hp & Hl);
      try lia.
    exists t'. split; [exact Hp | congruence].
  - unfold draw_texture_tile_16.
    apply (for_each_inv (fun t => length t = length tb)); [| reflexivity].
    intros t [yi xi] Ht Hin. apply tile_pixels_elem in Hin. destruct Hin as [Hyi Hxi].
    unfold tile_16_pixel.
    assert (Hd : exists d, (if le
                 then decode !! Z.to_nat (Z.lxor (yi * 8 + xi) 1)
                 else decode !! Z.to_nat (yi * 8 + xi)) = Some d /\ 0 <= d < 64).
    { destruct le.
      - apply (decode_in yi xi 1); simpl; auto.
      - destruct (decode_in yi xi 0 Hyi Hxi ltac:(simpl; auto)) as (d & Hd & Hr).
        rewrite Z.lxor_0_r in Hd. eauto. }
    destruct Hd as (d & -> & Hd). cbn [mbind option_bind]. unfold load_rgb16.
    destruct (load_u8_in buf (Z.to_nat (d * 2)) ltac:(simpl in Hbuf; lia)) as (b0 & -> & _).
    destruct (load_u8_in buf (Z.to_nat (d * 2 + 1)) ltac:(simpl in Hbuf; lia))
      as (b1 & -> & _).
    cbn [mbind option_bind].
    destruct le; cbn [mbind option_bind].
    all: match goal with
         | |- context [put_pixel ?t0 ?x0 ?y0 ?w0 ?xi0 ?yi0 ?r ?g ?b ?a] =>
             destruct (put_pixel_in t0 x0 y0 w0 xi0 yi0 hh r g b a) as (t' & Hp & Hl);
             try lia
         end.
    all: exists t'; (split; [exact Hp | congruence]).
Qed.

Lemma steps_of_8_elem (n i : Z) :
  0 <= n -> In i (steps_of_8 (8 * n)) <-> exists k, 0 <= k < n /\ i = 8 * k.
Proof.
  intros Hn. unfold steps_of_8. rewrite <- list_elem_of_In, list_elem_of_fmap.
  replace ((8 * n + 7) / 8) with n
    by (apply (Z.div_unique _ _ _ 7); lia).
  split.
  - intros (k & -> & Hk). apply elem_of_seqZ in Hk. exists k. split; [lia | reflexivity].
  - intros (k & Hk & ->). exists k. split; [reflexivity | apply elem_of_seqZ; lia].
Qed.

Lemma steps_of_8_length (n : Z) :
  0 <= n -> length (steps_of_8 (8 * n)) = Z.to_nat n.
Proof.
  intros Hn. unfold steps_of_8. rewrite length_fmap, length_seqZ.
  replace ((8 * n + 7) / 8) with n
    by (apply (Z.div_unique _ _ _ 7); lia).
  reflexivity.
Qed.

Lemma pairs_length {A B : Type} (l1 : list A) (l2 : list B) :
  length (y ← l1; x ← l2; [(y, x)]) = (length l1 * length l2)%nat.
Proof.
  induction l1 as [| y l1 IH]; [reflexivity |].
  rewrite bind_cons, length_app, IH. cbn [length Nat.mul]. f_equal.
  clear IH. induction l2 as [| x l2 IH2]; [reflexivity |].
  rewrite bind_cons, length_app, IH2. reflexivity.
Qed.

Lemma tile_origins_spec (w h : Z) :
  0 <= w -> 0 <= h -> w * 8 < 2 ^ 32 -> h * 8 < 2 ^ 32 ->
  (forall yi xi, In (yi, xi) (tile_origins w h) ->
     exists ky kx, 0 <= ky < h /\ 0 <= kx < w /\ yi = 8 * ky /\ xi = 8 * kx) /\
  length (tile_origins w h) = (Z.to_nat h * Z.to_nat w)%nat.
Proof.
  intros Hw Hh Hw32 Hh32. unfold tile_origins, u32.
  rewrite !Z.mod_small by lia.
  replace (h * 8) with (8 * h) by lia. replace (w * 8) with (8 * w) by lia.
  split.
  - intros yi xi Hin. rewrite <- list_elem_of_In in Hin.
    apply list_elem_of_bind in Hin. destruct Hin as (y' & Hin & Hy).
    apply list_elem_of_bind in Hin. destruct Hin as (x' & Hp & Hx).
    apply list_elem_of_singleton in Hp. injection Hp as -> ->.
    rewrite list_elem_of_In in Hy, Hx.
    apply steps_of_8_elem in Hy, Hx; try lia.
    destruct Hy as (ky & Hky & ->), Hx as (kx & Hkx & ->). eauto 10.
  - rewrite pairs_length, !steps_of_8_length by lia. reflexivity.
Qed.

Lemma draw_texture_tiles_in (w hh : Z) (le : bool) (l : list (Z * Z))
    (tb : list Z) (buf : list byte) :
  (forall yi xi, In (yi, xi) l ->
     0 <= yi /\ yi + 8 <= hh /\ 0 <= xi /\ xi + 8 <= u32 (w * 8)) ->
  u32 (w * 8) * hh * 4 < 2 ^ 32 ->
  u32 (w * 8) * hh * 4 <= Z.of_nat (length tb) ->
  ((8 * 8 * length l <= length buf)%nat ->
   exists s', for_each (draw_texture_8_tile w le) l (tb, buf) = Some s' /\
              length s'.1 = length tb) /\
  ((8 * 8 * 2 * length l <= length buf)%nat ->
   exists s', for_each (draw_texture_16_tile w le) l (tb, buf) = Some s' /\
              length s'.1 = length tb).
Proof.
  intros Hl Hwh Hlen.
  assert (Hgen : forall l0 tb0 buf0,
    (forall yi xi, In (yi, xi) l0 -> In (yi, xi) l) -> length tb0 = length tb ->
    ((8 * 8 * length l0 <= length buf0)%nat ->
     exists s', for_each (draw_texture_8_tile w le) l0 (tb0, buf0) = Some s' /\
                length s'.1 = length tb) /\
    ((8 * 8 * 2 * length l0 <= length buf0)%nat ->
     exists s', for_each (draw_texture_16_tile w le) l0 (tb0, buf0) = Some s' /\
                length s'.1 = length tb)).
  { induction l0 as [| [yi xi] l0 IH]; intros tb0 buf0 Hsub Ltb0.
    - split; intros _; exists (tb0, buf0); split; (reflexivity || exact Ltb0).
    - destruct (Hl yi xi (Hsub yi xi ltac:(left; reflexivity))) as (Hy0 & Hy1 & Hx0 & Hx1).
      destruct (draw_texture_tile_in xi yi (u32 (w * 8)) hh buf0 le tb0
                  Hy0 Hy1 Hx0 Hx1 Hwh ltac:(lia)) as [T8 T16].
      split; intros Hbuf; simpl length in Hbuf.
      + destruct (T8 ltac:(lia)) as (tb1 & Ht & L1).
        cbn [for_each draw_texture_8_tile]. rewrite Ht. cbn [mbind option_bind].
        apply (IH tb1 (drop (8 * 8) buf0)).
        * intros y0 x0 Hin. apply Hsub. right. exact Hin.
        * congruence.
        * rewrite length_drop. lia.
      + destruct (T16 ltac:(lia)) as (tb1 & Ht & L1).
        cbn [for_each draw_texture_16_tile]. rewrite Ht. cbn [mbind option_bind].
        apply (IH tb1 (drop (8 * 8 * 2) buf0)).
        * intros y0 x0 Hin. apply Hsub. right. exact Hin.
        * congruence.
        * rewrite length_drop. lia. }
  apply Hgen; auto.
Qed.

Lemma draw_texture_in (w h : Z) (buf : list byte) (le : bool) (tb : list Z) :
  0 <= w <= 64 -> 0 <= h <= 64 ->
  Z.of_nat (length tb) = texture_buffer_size ->
  (8 * 8 * w * h <= Z.of_nat (length buf) ->
   exists tb', draw_texture_8 w h buf le tb = Some tb' /\ length tb' = length tb) /\
  (8 * 8 * 2 * w * h <= Z.of_nat (length buf) ->
   exists tb', draw_texture_16 w h buf le tb = Some tb' /\ length tb' = length tb).
Proof.
  intros Hw Hh Htb. unfold texture_buffer_size in Htb.
  destruct (tile_origins_spec w h ltac:(lia) ltac:(lia) ltac:(lia) ltac:(lia))
    as [Hor Hlen].
  assert (Hu : u32 (w * 8) = w * 8) by (unfold u32; apply Z.mod_small; lia).
  destruct (draw_texture_tiles_in w (h * 8) le (tile_origins w h) tb buf) as [T8 T16].
  { intros yi xi Hin. destruct (Hor yi xi Hin) as (ky & kx & Hky & Hkx & -> & ->).
    rewrite Hu. lia. }
  { rewrite Hu. nia. }
  { rewrite Hu. nia. }
  split; intros Hbuf.
  - destruct T8 as ([tb' buf'] & Hs & L); [rewrite Hlen; nia |].
    unfold draw_texture_8. rewrite Hs. exists tb'. split; [reflexivity | exact L].
  - destruct T16 as ([tb' buf'] & Hs & L); [rewrite Hlen; nia |].
    unfold draw_texture_16. rewrite Hs. exists tb'. split; [reflexivity | exact L].
Qed.

Lemma texture_header_tiles (header : Z) :
  let g := texture_header header in
  In (tiles_x g) [4; 8; 16; 32] /\ In (tiles_y g) [4; 8; 16; 32].
Proof.
  cbv zeta. unfold texture_header. cbn [tiles_x tiles_y].
  assert (Hsz : forall k, 0 <= k < 4 -> In (Z.shiftl 32 k / 8) [4; 8; 16; 32]).
  { intros k Hk. assert (Hc : k = 0 \/ k = 1 \/ k = 2 \/ k = 3) by lia.
    destruct Hc as [-> | [-> | [-> | ->]]]; simpl; tauto. }
  split; apply Hsz; apply (land_mask_bound _ 3 2); lia.
Qed.

(** X9: [r3dgl_upload_texture] never stores outside [texture_buffer].
    Whatever the header, if the source holds the texels of the texture
    (64 per tile, one or two bytes each), both decoders run to their end,
    every store is inside the 512*512*4 elements of the buffer, and the
    buffer keeps its length. *)
Theorem r3dgl_upload_texture_pixels_in_bounds (header : Z) (src : list byte)
    (little_endian : bool) (tb : list Z) :
  Z.of_nat (length tb) = texture_buffer_size ->
  let g := texture_header header in
  texel_bytes header * (8 * 8) * tiles_x g * tiles_y g <= Z.of_nat (length src) ->
  exists tb', r3dgl_upload_texture_pixels header src little_endian tb = Some tb' /\
              length tb' = length tb.
Proof.
  intros Htb g Hsrc. unfold r3dgl_upload_texture_pixels. fold g.
  destruct (texture_header_tiles header) as [Hx Hy]. fold g in Hx, Hy.
  assert (Bx : 0 <= tiles_x g <= 64) by (cbn [In] in Hx; lia).
  assert (By : 0 <= tiles_y g <= 64) by (cbn [In] in Hy; lia).
  destruct (draw_texture_in (tiles_x g) (tiles_y g) src little_endian tb Bx By Htb)
    as [T8 T16].
  destruct (_ =? 0x02000000); [eauto |].
  unfold texel_bytes in Hsrc. destruct (negb _).
  - apply T16. lia.
  - apply T8. lia.
Qed.

Lemma r3dgl_upload_texture_pixels_in_bounds_witness :
  exists tb', r3dgl_upload_texture_pixels 0 (replicate 1024 x5a) false
                (replicate (Z.to_nat texture_buffer_size) 0) = Some tb' /\
              length tb' = length (replicate (Z.to_nat texture_buffer_size) 0).
Proof.
  apply (r3dgl_upload_texture_pixels_in_bounds 0 (replicate 1024 x5a) false
           (replicate (Z.to_nat texture_buffer_size) 0)).
  - rewrite length_replicate. apply Z2Nat.id. unfold texture_buffer_size. lia.
  - rewrite length_replicate. vm_compute. discriminate.
Defined.

(** ** Scene traversal *)

Lemma land_low (a : Z) (n : Z) : 0 <= n -> Z.land a (2 ^ n - 1) = a mod 2 ^ n.
Proof.
  intros Hn. replace (2 ^ n - 1) with (Z.ones n) by (rewrite Z.ones_equiv; lia).
  apply Z.land_ones. exact Hn.
Qed.

Lemma top_byte (addr : Z) :
  Z.land (Z.shiftr addr 24) 0xFF = (addr / 2 ^ 24) mod 2 ^ 8.
Proof. rewrite Z.shiftr_div_pow2 by lia. apply (land_low _ 8). lia. Qed.

Lemma translate_low (x : Z) :
  0 <= x < 2 ^ 24 ->
  points_into [culling_ram_8c; culling_ram_8e] (translate_r3d_address x).
Proof.
  intros Hx. assert (Hu : is_u32 x) by (unfold is_u32; lia).
  pose proof (translate_r3d_address_cases x Hu) as Hc.
  destruct (translate_r3d_address x) as [| b off]; [exact I |].
  destruct Hc as [Hin _]. unfold in_r3d_range in Hin.
  destruct b; simpl in *; try lia; repeat constructor.
Qed.

Lemma translate_8c (x : Z) :
  0 <= x < 2 ^ 23 -> points_into [culling_ram_8c] (translate_r3d_address x).
Proof.
  intros Hx. assert (Hu : is_u32 x) by (unfold is_u32; lia).
  pose proof (translate_r3d_address_cases x Hu) as Hc.
  destruct (translate_r3d_address x) as [| b off]; [exact I |].
  destruct Hc as [Hin _]. unfold in_r3d_range in Hin.
  destruct b; simpl in *; try lia; repeat constructor.
Qed.

Lemma translate_vrom (x : Z) :
  0x1800000 <= x <= 0x1FFFFFF ->
  translate_r3d_address x = r3d_at vrom (4 * (x - 0x1800000)).
Proof.
  intros Hx. assert (Hu : is_u32 x) by (unfold is_u32; lia).
  pose proof (translate_r3d_address_cases x Hu) as Hc.
  destruct (translate_r3d_address x) as [| b off].
  - specialize (Hc vrom). unfold in_r3d_range in Hc. simpl in Hc. lia.
  - destruct Hc as [Hin ->]. unfold in_r3d_range in Hin.
    destruct b; simpl in *; try lia. reflexivity.
Qed.

Lemma translate_polygon (x : Z) :
  0x1000000 <= x < 0x1800000 ->
  points_into [polygon_ram] (translate_r3d_address x).
Proof.
  intros Hx. assert (Hu : is_u32 x) by (unfold is_u32; lia).
  pose proof (translate_r3d_address_cases x Hu) as Hc.
  destruct (translate_r3d_address x) as [| b off]; [exact I |].
  destruct Hc as [Hin _]. unfold in_r3d_range in Hin.
  destruct b; simpl in *; try lia; repeat constructor.
Qed.

(** X11: where the links of a block lead.  Whatever the first word of a
    block and its address word are, a block or a list it links to is in
    culling RAM (or the pointer is [NULL]), a model given to
    [draw_model_be] is in VROM, at an offset inside it, a model given to
    [draw_model_le] is in polygon RAM (or the pointer is [NULL]), and
    the error "List in VROM" is never raised. *)
Theorem block_links_targets (w0 addr : Z) (l : link) :
  is_u32 addr -> l ∈ block_links w0 addr ->
  match l with
  | link_error msg _ => msg <> List_in_VROM
  | link_block p | link_list p => points_into [culling_ram_8c; culling_ram_8e] p
  | link_model_be p => exists off, 0 <= off <= r3d_max_offset vrom /\ p = r3d_at vrom off
  | link_model_le p => points_into [polygon_ram] p
  end.
Proof.
  unfold is_u32. intros Hu Hl.
  pose proof (top_byte addr) as Htop.
  pose proof (land_low addr 25 ltac:(lia)) as H25. change (2 ^ 25 - 1) with 0x01FFFFFF in H25.
  pose proof (land_low addr 24 ltac:(lia)) as H24. change (2 ^ 24 - 1) with 0x00FFFFFF in H24.
  pose proof (Z.mod_pos_bound addr (2 ^ 24) ltac:(lia)) as B24.
  pose proof (Z.mod_pos_bound addr (2 ^ 25) ltac:(lia)) as B25.
  assert (Hsplit : addr mod 2 ^ 25 = addr mod 2 ^ 24 + 2 ^ 24 * ((addr / 2 ^ 24) mod 2)).
  { change (2 ^ 25) with (2 ^ 24 * 2). rewrite Z.rem_mul_r by lia. reflexivity. }
  assert (Hbyte : ((addr / 2 ^ 24) mod 2 ^ 8) mod 2 = (addr / 2 ^ 24) mod 2).
  { change (2 ^ 8) with (2 * 2 ^ 7). rewrite Z.rem_mul_r by lia.
    rewrite (Z.mul_comm 2 (_ mod 2 ^ 7)), Z.mod_add by lia. apply Z.mod_mod. lia. }
  unfold block_links in Hl.
  destruct (negb (Z.land w0 8 =? 0)).
  - apply elem_of_app in Hl. destruct Hl as [Hl | Hl].
    + destruct (negb _); [| inversion Hl].
      apply list_elem_of_singleton in Hl. subst l. discriminate.
    + apply list_elem_of_singleton in Hl. subst l. apply translate_low. lia.
  - rewrite Htop in Hl. rewrite H25 in Hl.
    remember ((addr / 2 ^ 24) mod 2 ^ 8) as k eqn:Hk.
    assert (Hcase : k = 0 \/ k = 1 \/ k = 3 \/ k = 4 \/
                    (k <> 0 /\ k <> 1 /\ k <> 3 /\ k <> 4)) by lia.
    destruct Hcase as [-> | [-> | [-> | [-> | Hother]]]].
    + destruct (negb _); [| inversion Hl].
      apply list_elem_of_singleton in Hl. subst l. apply translate_low.
      change (0 mod 2) with 0 in Hbyte. lia.
    + change (1 mod 2) with 1 in Hbyte.
      destruct (negb _); [| inversion Hl].
      destruct (Z.leb_spec 0x01800000 (addr mod 2 ^ 25));
        apply list_elem_of_singleton in Hl; subst l.
      * rewrite translate_vrom by lia. eexists. split; [| reflexivity].
        unfold r3d_max_offset. simpl. lia.
      * apply translate_polygon. lia.
    + change (3 mod 2) with 1 in Hbyte.
      destruct (negb _); [| inversion Hl].
      destruct (Z.leb_spec 0x01800000 (addr mod 2 ^ 25));
        apply list_elem_of_singleton in Hl; subst l.
      * rewrite translate_vrom by lia. eexists. split; [| reflexivity].
        unfold r3d_max_offset. simpl. lia.
      * apply translate_polygon. lia.
    + change (4 mod 2) with 0 in Hbyte.
      apply elem_of_app in Hl. destruct Hl as [Hl | Hl].
      * destruct (Z.leb_spec 0x018000000 (addr mod 2 ^ 25)); [lia | inversion Hl].
      * apply list_elem_of_singleton in Hl. subst l. apply translate_low. lia.
    + assert (Hl' : l = link_error Unable_to_handle_Real3D_address addr).
      { destruct k as [| p | p]; [lia | | ].
        - do 3 (try destruct p as [p | p |]); try lia;
            apply list_elem_of_singleton in Hl; exact Hl.
        - apply list_elem_of_singleton in Hl; exact Hl. }
      subst l. discriminate.
Qed.

Lemma block_links_targets_witness :
  exists off, 0 <= off <= r3d_max_offset vrom /\
    translate_r3d_address 0x018AA963 = r3d_at vrom off.
Proof.
  refine (block_links_targets 0 0x018AA963 (link_model_be _) _ _).
  - unfold is_u32. lia.
  - vm_compute. apply list_elem_of_here.
Defined.

Lemma testbit_of_land (w n : Z) :
  0 <= n -> Z.land w (2 ^ n) <> 0 -> Z.testbit w n = true.
Proof.
  intros Hn Hne. destruct (Z.testbit w n) eqn:Hb; [reflexivity |].
  exfalso. apply Hne. apply Z.bits_inj'. intros i Hi.
  rewrite Z.land_spec, Z.bits_0, Z.pow2_bits_eqb by lia.
  destruct (Z.eqb_spec n i); [subst; rewrite Hb; reflexivity | apply andb_false_r].
Qed.

Lemma land_of_testbit (w n : Z) :
  0 <= n -> Z.land w (2 ^ n) = 0 -> Z.testbit w n = false.
Proof.
  intros Hn He. pose proof (f_equal (fun z => Z.testbit z n) He) as Hb. simpl in Hb.
  rewrite Z.land_spec, Z.bits_0, Z.pow2_bits_true in Hb by lia.
  rewrite andb_true_r in Hb. exact Hb.
Qed.

Lemma mod_split_bit (w n : Z) :
  0 <= n ->
  w mod 2 ^ (n + 1) = w mod 2 ^ n + 2 ^ n * Z.b2z (Z.testbit w n).
Proof.
  intros Hn. rewrite Z.testbit_spec' by lia.
  rewrite Z.pow_add_r by lia. change (2 ^ 1) with 2.
  assert (0 < 2 ^ n) by (apply Z.pow_pos_nonneg; lia).
  rewrite Z.rem_mul_r by lia. reflexivity.
Qed.

(** X12: where a pointer block leads.  With bit 0x00800000 of its first
    word set, [draw_model_be] is given the model in VROM at the word the
    low 23 bits name; with the bit clear, the block to go on with is in
    8C culling RAM, or the pointer is [NULL]. *)
Theorem pointer_block_targets (w0 : Z) :
  (Z.land w0 0x00800000 <> 0 ->
   translate_r3d_address (pointer_model_address w0)
   = r3d_at vrom (4 * Z.land w0 0x007FFFFF)) /\
  (Z.land w0 0x00800000 = 0 ->
   points_into [culling_ram_8c] (translate_r3d_address (pointer_block_address w0))).
Proof.
  pose proof (land_low w0 24 ltac:(lia)) as H24. change (2 ^ 24 - 1) with 0x00FFFFFF in H24.
  pose proof (land_low w0 23 ltac:(lia)) as H23. change (2 ^ 23 - 1) with 0x007FFFFF in H23.
  pose proof (Z.mod_pos_bound w0 (2 ^ 23) ltac:(lia)) as B23.
  pose proof (mod_split_bit w0 23 ltac:(lia)) as Hs. change (23 + 1) with 24 in Hs.
  split; intros Hbit.
  - apply (testbit_of_land w0 23) in Hbit; [| lia]. rewrite Hbit in Hs. simpl Z.b2z in Hs.
    unfold pointer_model_address.
    rewrite <- Z.lxor_lor, <- Z.add_nocarry_lxor.
    2, 3: rewrite <- Z.land_assoc; change (Z.land 16777215 16777216) with 0;
          apply Z.land_0_r.
    rewrite H24, H23, translate_vrom by lia. f_equal. lia.
  - apply (land_of_testbit w0 23) in Hbit; [| lia]. rewrite Hbit in Hs. simpl Z.b2z in Hs.
    unfold pointer_block_address. rewrite H24. apply translate_8c. lia.
Qed.

Lemma pointer_block_targets_witness :
  translate_r3d_address (pointer_model_address 0x01800010) = r3d_at vrom (4 * 0x10) /\
  points_into [culling_ram_8c] (translate_r3d_address (pointer_block_address 0x01000020)).
Proof.
  split.
  - apply (proj1 (pointer_block_targets 0x01800010)). vm_compute. discriminate.
  - apply (proj2 (pointer_block_targets 0x01000020)). reflexivity.
Defined.

Section MatrixProofs.

Context {GLfloat : Type} `{GLfloatOps GLfloat} `{GLfloatBits GLfloat}.

Lemma get_float_in (src : list byte) (a : nat) :
  (a + 3 < length src)%nat ->
  get_float src a = Some (float_of_bits (default 0 (GETWORDLE src a))).
Proof.
  intros Ha. unfold get_float. destruct (GETWORDLE_in src a Ha) as [w ->]. reflexivity.
Qed.

(** X10: [get_matrix] sets all sixteen elements of [dest], so that
    nothing of what the array held before is left: the nine words 3..11
    of the source, three rows of three, become the upper left of the
    matrix in column-major order, the words 0..2 its last column, and
    the last row is 0 0 0 1. *)
Theorem get_matrix_layout (dest : list GLfloat) (src : list byte) :
  length dest = 16%nat -> (48 <= length src)%nat ->
  let f := fun k : nat => float_of_bits (default 0 (GETWORDLE src (k * 4))) in
  get_matrix dest src =
    Some [ f 3%nat; f 6%nat; f 9%nat;  int_to_float 0;
           f 4%nat; f 7%nat; f 10%nat; int_to_float 0;
           f 5%nat; f 8%nat; f 11%nat; int_to_float 0;
           f 0%nat; f 1%nat; f 2%nat;  int_to_float 1 ].
Proof.
  intros Hdest Hsrc f. unfold get_matrix.
  rewrite !get_float_in by lia. cbn [mbind option_bind].
  do 17 (destruct dest as [| ? dest]; try discriminate Hdest).
  reflexivity.
Qed.

End MatrixProofs.

Lemma get_matrix_layout_witness :
  get_matrix (GLfloat := Q) (H0 := sample_GLfloatBits) (replicate 16 (7 # 1)%Q)
    sample_matrix
  = Some [ 4; 7; 10; 0;  5; 8; 11; 0;  6; 9; 12; 0;  1; 2; 3; 1 ]%Q.
Proof.
  refine (get_matrix_layout (H0 := sample_GLfloatBits) (replicate 16 (7 # 1)%Q)
            sample_matrix _ _).
  - reflexivity.
  - vm_compute. lia.
Defined.

Section DepthProofs.

Context {GLfloat : Type} `{GLfloatOps GLfloat} `{GLfloatBits GLfloat}.

Lemma matrix_depth_app (d : nat) (t1 t2 : list (scene_call GLfloat)) :
  matrix_depth d (t1 ++ t2) = matrix_depth d t1 ≫= fun d' => matrix_depth d' t2.
Proof.
  revert d. induction t1 as [| c t1 IH]; intros d; [reflexivity |].
  destruct c; simpl; try apply IH. destruct d; [reflexivity | apply IH].
Qed.

Lemma md_ret {A : Type} (d : nat) (a : A) : moves_depth d d (mret a : scene GLfloat A).
Proof. exists d. split; [reflexivity | auto]. Qed.

Lemma md_stop {A : Type} (d d2 : nat) (h : halt) :
  moves_depth d d2 (stop_with h : scene GLfloat A).
Proof. exists d. split; [reflexivity | discriminate]. Qed.

Lemma md_bind {A B : Type} (d1 d2 d3 : nat) (m : scene GLfloat A)
    (k : A -> scene GLfloat B) :
  moves_depth d1 d2 m -> (forall a, moves_depth d2 d3 (k a)) ->
  moves_depth d1 d3 (m ≫= k).
Proof.
  intros (d' & Hm & Hend) Hk. destruct m as [t [h | a]]; simpl in *.
  - exists d'. split; [exact Hm | discriminate].
  - rewrite (Hend a eq_refl) in Hm. destruct (Hk a) as (d'' & Hka & Hkend).
    unfold moves_depth, mbind, scene_bind. destruct (k a) as [t' r]. simpl in *.
    exists d''. split; [| exact Hkend].
    rewrite matrix_depth_app, Hm. exact Hka.
Qed.

Lemma md_reading {A : Type} (d : nat) (o : option A) :
  moves_depth d d (reading o : scene GLfloat A).
Proof. destruct o; [apply md_ret | apply md_stop]. Qed.

Lemma md_push (d : nat) : moves_depth d (S d) (emit (GLfloat := GLfloat) glPushMatrix).
Proof. exists (S d). split; [reflexivity | auto]. Qed.

Lemma md_pop (d : nat) : moves_depth (S d) d (emit (GLfloat := GLfloat) glPopMatrix).
Proof. exists d. split; [reflexivity | auto]. Qed.

Lemma md_mult (d : nat) (m : list GLfloat) : moves_depth d d (emit (glMultMatrixf m)).
Proof. exists d. split; [reflexivity | auto]. Qed.

Lemma md_translate (d : nat) (x y z : GLfloat) :
  moves_depth d d (emit (glTranslatef x y z)).
Proof. exists d. split; [reflexivity | auto]. Qed.

Lemma md_error (env : @scene_env GLfloat) (d : nat) (msg : error_message) (arg : Z) :
  moves_depth d d (call_error env msg arg).
Proof. exists d. split; [reflexivity | auto]. Qed.

Lemma md_model_run (d : nat) (r : list (gl_call GLfloat) * outcome) :
  moves_depth d d (model_run r).
Proof.
  exists d. split; [| auto]. unfold model_run. simpl.
  induction r.1 as [| c l IH]; [reflexivity | exact IH].
Qed.

Lemma md_block_transform (env : @scene_env GLfloat) (mb : r3d_ptr) (blk : list byte) (d : nat) :
  moves_depth d d (block_transform env mb blk).
Proof.
  unfold block_transform.
  eapply md_bind; [apply md_reading | intros matrix].
  eapply md_bind.
  { destruct (_ && _).
    - eapply md_bind; [apply md_reading | intros base].
      eapply md_bind; [apply md_reading | intros m].
      destruct (negb _); [apply md_mult | apply md_ret].
    - apply md_ret. }
  intros _.
  eapply md_bind; [apply md_reading | intros tx].
  eapply md_bind; [apply md_reading | intros ty].
  eapply md_bind; [apply md_reading | intros tz].
  apply md_translate.
Qed.

Lemma md_for_links (env : @scene_env GLfloat) (db dl : r3d_ptr -> scene GLfloat unit)
    (links : list link) (d : nat) :
  (forall p, moves_depth d d (db p)) -> (forall p, moves_depth d d (dl p)) ->
  moves_depth d d (for_links env db dl links).
Proof.
  intros Hdb Hdl. induction links as [| l links IH]; [apply md_ret |].
  simpl. eapply md_bind; [| intros _; exact IH].
  destruct l; simpl; auto using md_error, md_model_run.
  - apply md_model_run.
  - apply md_model_run.
Qed.

Lemma md_draw_block_list (env : @scene_env GLfloat) (mb : r3d_ptr) (fuel : nat) :
  (forall block d, moves_depth d d (draw_block env mb fuel block)) /\
  (forall list d, moves_depth d d (draw_list env mb fuel list)).
Proof.
  induction fuel as [| fuel [IHb IHl]].
  - split; intros; apply md_stop.
  - assert (Hcont : forall block d,
      moves_depth d d
        (_ ← emit glPushMatrix;
         blk ← reading (deref (env_mem env) block);
         _ ← block_transform env mb blk;
         addr ← reading (GETWORDLE blk (7 * 4));
         w0 ← reading (GETWORDLE blk (0 * 4));
         _ ← for_links env (draw_block env mb fuel) (draw_list env mb fuel)
               (block_links w0 addr);
         _ ← emit glPopMatrix;
         next_ptr ← reading (GETWORDLE blk (8 * 4));
         if negb (Z.land next_ptr 0x01000000 =? 0) || (next_ptr =? 0)
         then mret tt
         else draw_block env mb fuel (translate_r3d_address next_ptr))).
    { intros block d.
      eapply md_bind; [apply md_push | intros _].
      eapply md_bind; [apply md_reading | intros blk].
      eapply md_bind; [apply md_block_transform | intros _].
      eapply md_bind; [apply md_reading | intros addr].
      eapply md_bind; [apply md_reading | intros w0].
      eapply md_bind; [apply md_for_links; auto | intros _].
      eapply md_bind; [apply md_pop | intros _].
      eapply md_bind; [apply md_reading | intros next_ptr].
      destruct (_ || _); [apply md_ret | apply IHb]. }
    split.
    + intros block d. cbn [draw_block].
      eapply md_bind; [apply md_reading | intros blk].
      eapply md_bind; [apply md_reading | intros is_pointer].
      destruct is_pointer; [| apply Hcont].
      eapply md_bind; [apply md_reading | intros w0].
      destruct (negb _); [apply md_model_run | apply Hcont].
    + intros list d. cbn [draw_list].
      eapply md_bind; [apply md_reading | intros l].
      eapply md_bind; [apply md_reading | intros addr].
      destruct (_ || _); [apply md_ret |].
      destruct (addr =? 0x03000000); [apply md_ret |].
      eapply md_bind; [apply IHb | intros _].
      destruct (negb _); [apply md_ret | apply IHl].
Qed.

Lemma md_draw_scene_from (env : @scene_env GLfloat) (fuel : nat) (i : Z) (d : nat) :
  moves_depth d d (draw_scene_from env fuel i).
Proof.
  revert i. induction fuel as [| fuel IH]; intros i; [apply md_stop |].
  cbn [draw_scene_from].
  eapply md_bind; [apply md_reading | intros base].
  eapply md_bind; [apply md_reading | intros j].
  destruct (_ =? 0); [apply md_ret |].
  eapply md_bind; [apply md_reading | intros next].
  eapply md_bind; [apply md_reading | intros word].
  eapply md_bind.
  { unfold scene_link. repeat case_match; try apply md_ret; try apply md_error.
    all: apply md_draw_block_list. }
  intros _. destruct (next =? _); [apply md_ret | apply IH].
Qed.

(** X13: the matrix stack is left as it was found.  Whatever the memory
    holds, in the calls that [draw_block], [draw_list] and [draw_scene]
    make, a [glPopMatrix] always finds a matrix that the same traversal
    has pushed, and a traversal that runs to its end has popped as many
    matrices as it has pushed. *)
Theorem matrix_stack_balanced (env : @scene_env GLfloat) (mb : r3d_ptr) (fuel : nat)
    (p : r3d_ptr) (d : nat) :
  moves_depth d d (draw_block env mb fuel p) /\
  moves_depth d d (draw_list env mb fuel p) /\
  moves_depth d d (draw_scene env fuel).
Proof.
  split; [apply md_draw_block_list |]. split; [apply md_draw_block_list |].
  apply md_draw_scene_from.
Qed.

End DepthProofs.

(** The traversal of the test scene runs to its end: one block, drawn
    between a push and a pop. *)
Example draw_scene_sample :
  draw_scene (H0 := sample_GLfloatBits) sample_env 10
  = ([glPushMatrix; glTranslatef 1%Q 2%Q 3%Q; glPopMatrix], inr tt).
Proof. vm_compute. reflexivity. Qed.

(** ** The OpenGL state *)

Lemma for_each_app {A S : Type} (body : S -> A -> option S) (l1 l2 : list A) (s : S) :
  for_each body (l1 ++ l2) s = for_each body l1 s ≫= for_each body l2.
Proof.
  revert s. induction l1 as [| a l1 IH]; intros s; [reflexivity |].
  simpl. destruct (body s a) as [s' |]; [apply IH | reflexivity].
Qed.

Section GlStateProofs.

Context {GLfloat : Type} `{GLfloatOps GLfloat}.

Lemma gl_run_vertices (tw th : Z) (v : vertex4 GLfloat) (n i0 : nat) (t b : bool) :
  gl_run (mk_gl_state true t b) (i ← seq i0 n; emit_vertex tw th (vget v i))
  = Some (mk_gl_state true t b).
Proof.
  revert i0. induction n as [| n IH]; intros i0; [reflexivity |].
  simpl seq. rewrite bind_cons. unfold gl_run. rewrite for_each_app.
  simpl. apply IH.
Qed.

Lemma gl_run_polygon (r g b : Z) (mode : GLenum) (n : nat) (te texture tw th : Z)
    (v : vertex4 GLfloat) (bl : bool) :
  gl_run (mk_gl_state false true bl)
    (glColor3ub r g b :: emit_polygon mode n te texture tw th v)
  = Some (mk_gl_state false true false).
Proof.
  pose proof (gl_run_vertices tw th v n 0) as Hv.
  unfold emit_polygon, gl_run in *.
  destruct (te =? 0);
    cbn [app for_each gl_step gl_set mbind option_bind in_begin_end texture_2d blend].
  all: rewrite for_each_app, Hv; reflexivity.
Qed.

Lemma gl_run_draw_loop
    (pass : list byte -> vertex4 GLfloat -> vertex4 GLfloat -> option polygon_pass)
    (fuel : nat) (buf : list byte) (v prev_v : vertex4 GLfloat) (bl : bool) :
  (forall buf v prev_v p, pass buf v prev_v = Some p ->
     exists r g b mode n te texture tw th,
       calls p = glColor3ub r g b :: emit_polygon mode n te texture tw th (v_after p)) ->
  exists bl', gl_run (mk_gl_state false true bl) (draw_loop pass fuel buf v prev_v).1
              = Some (mk_gl_state false true bl').
Proof.
  intros Hpass. revert buf v prev_v bl.
  induction fuel as [| fuel IH]; intros buf v prev_v bl; [exists bl; reflexivity |].
  cbn [draw_loop]. destruct (pass buf v prev_v) as [p |] eqn:Hp; [| exists bl; reflexivity].
  destruct (Hpass _ _ _ _ Hp) as (r & g & b & mode & n & te & texture & tw & th & Hc).
  destruct (stop p =? 0).
  - destruct (IH (drop (advance p) buf) (v_after p) (prev_v_after p) false) as [bl' Hrest].
    destruct (draw_loop pass fuel _ _ _) as [rest o]. cbn [fst] in *.
    exists bl'. unfold gl_run. rewrite for_each_app.
    fold (gl_run (mk_gl_state false true bl) (calls p)).
    rewrite Hc, gl_run_polygon. exact Hrest.
  - exists false. cbn [fst]. rewrite Hc. apply gl_run_polygon.
Qed.

(** X14: the model functions keep to the rules of OpenGL.  Started
    outside [glBegin]/[glEnd] with texturing enabled, the calls of
    [draw_model_be] and of [draw_model_le], however far the run gets,
    never change state nor open a second [glBegin] between a [glBegin]
    and its [glEnd], give vertices only between the two, and end with
    every [glBegin] closed and texturing enabled again. *)
Theorem draw_model_gl_state (fuel : nat) (texture_grid : list Z)
    (buf : option (list byte)) (v prev_v : vertex4 GLfloat) (s : gl_state) :
  in_begin_end s = false -> texture_2d s = true ->
  (exists s', gl_run s (draw_model_be fuel texture_grid buf v prev_v).1 = Some s' /\
              in_begin_end s' = false /\ texture_2d s' = true) /\
  (exists s', gl_run s (draw_model_le fuel texture_grid buf v prev_v).1 = Some s' /\
              in_begin_end s' = false /\ texture_2d s' = true).
Proof.
  intros Hin Htex. destruct s as [i t bl]. simpl in Hin, Htex. subst i t.
  assert (Hnone : exists s', gl_run (GLfloat := GLfloat) (mk_gl_state false true bl) []
                             = Some s' /\ in_begin_end s' = false /\ texture_2d s' = true).
  { eexists. split; [reflexivity |]. split; reflexivity. }
  split.
  - unfold draw_model_be. destruct buf as [buf |]; [| exact Hnone].
    destruct (GETWORDBE buf (0 * 4)) as [w |]; [| exact Hnone].
    destruct (w =? 0); [exact Hnone |].
    destruct (gl_run_draw_loop (draw_polygon_be texture_grid) fuel buf v prev_v bl)
      as [bl' Hr].
    { intros b0 v0 p0 p Hp.
      destruct (draw_polygon_be_shape _ _ _ _ _ Hp)
        as (r & g & b & mode & n & te & texture & tw & th & Hc & _).
      eauto 12. }
    eexists. split; [exact Hr |]. split; reflexivity.
  - unfold draw_model_le. destruct buf as [buf |]; [| exact Hnone].
    destruct (GETWORDLE buf (0 * 4)) as [w |]; [| exact Hnone].
    destruct (w =? 0); [exact Hnone |].
    destruct (gl_run_draw_loop (draw_polygon_le texture_grid) fuel buf v prev_v bl)
      as [bl' Hr].
    { intros b0 v0 p0 p Hp.
      destruct (draw_polygon_le_shape _ _ _ _ _ Hp)
        as (r & g & b & mode & n & te & texture & tw & th & Hc & _).
      eauto 12. }
    eexists. split; [exact Hr |]. split; reflexivity.
Qed.

End GlStateProofs.

Lemma draw_model_gl_state_witness :
  exists s', gl_run (mk_gl_state false true true)
               (draw_model_be 10 (replicate 4096 7) (Some sample_model)
                  zero_vertex4 zero_vertex4).1 = Some s' /\
             in_begin_end s' = false /\ texture_2d s' = true.
Proof.
  refine (proj1 (draw_model_gl_state 10 (replicate 4096 7) (Some sample_model)
                   zero_vertex4 zero_vertex4 (mk_gl_state false true true) _ _)).
  - reflexivity.
  - reflexivity.
Defined.

(** ** The pixels of a tile *)

Lemma texture_store_lookup (tb tb' : list Z) (i x : Z) (j : nat) :
  texture_store tb i x = Some tb' ->
  tb' !! j = if decide (j = Z.to_nat i) then Some (u8 x) else tb !! j.
Proof.
  unfold texture_store.
  destruct (Z.leb_spec 0 i), (Z.ltb_spec i (Z.of_nat (length tb))); try discriminate.
  simpl. intros [= <-]. destruct (decide (j = Z.to_nat i)) as [-> | Hne].
  - apply list_lookup_insert_eq. lia.
  - apply list_lookup_insert_ne. congruence.
Qed.

Lemma row_column_unique (w a b a' b' : Z) :
  0 <= b < w -> 0 <= b' < w -> a * w + b = a' * w + b' -> a = a' /\ b = b'.
Proof. intros Hb Hb' He. assert (a = a') by nia. subst. lia. Qed.

Lemma put_pixel_at (tb tb' : list Z) (x y w xi yi hh r g b a px py : Z) :
  0 <= y + yi < hh -> 0 <= x + xi < w -> w * hh * 4 < 2 ^ 32 ->
  put_pixel tb x y w xi yi r g b a = Some tb' ->
  0 <= px < w -> 0 <= py ->
  pixel_at tb' w px py =
    if decide (px = x + xi /\ py = y + yi)
    then Some (u8 r, u8 g, u8 b, u8 a)
    else pixel_at tb w px py.
Proof.
  intros Hy Hx Hwh Hput Hpx Hpy. unfold put_pixel in Hput.
  destruct (pixel_index_eq x y w xi yi 0 hh Hy Hx Hwh ltac:(lia)) as [E0 _].
  destruct (pixel_index_eq x y w xi yi 1 hh Hy Hx Hwh ltac:(lia)) as [E1 _].
  destruct (pixel_index_eq x y w xi yi 2 hh Hy Hx Hwh ltac:(lia)) as [E2 _].
  destruct (pixel_index_eq x y w xi yi 3 hh Hy Hx Hwh ltac:(lia)) as [E3 _].
  rewrite E0, E1, E2, E3 in Hput.
  destruct (texture_store tb _ r) as [t0 |] eqn:S0; [| discriminate Hput].
  cbn [mbind option_bind] in Hput.
  destruct (texture_store t0 _ g) as [t1 |] eqn:S1; [| discriminate Hput].
  cbn [mbind option_bind] in Hput.
  destruct (texture_store t1 _ b) as [t2 |] eqn:S2; [| discriminate Hput].
  cbn [mbind option_bind] in Hput.
  assert (Hlk : forall j, tb' !! j =
    if decide (j = Z.to_nat (((y + yi) * w + (x + xi)) * 4 + 3)) then Some (u8 a)
    else if decide (j = Z.to_nat (((y + yi) * w + (x + xi)) * 4 + 2)) then Some (u8 b)
    else if decide (j = Z.to_nat (((y + yi) * w + (x + xi)) * 4 + 1)) then Some (u8 g)
    else if decide (j = Z.to_nat (((y + yi) * w + (x + xi)) * 4 + 0)) then Some (u8 r)
    else tb !! j).
  { intros j. rewrite (texture_store_lookup _ _ _ _ j Hput).
    rewrite (texture_store_lookup _ _ _ _ j S2).
    rewrite (texture_store_lookup _ _ _ _ j S1).
    rewrite (texture_store_lookup _ _ _ _ j S0). reflexivity. }
  assert (Hrow : 0 <= (y + yi) * w + (x + xi)) by nia.
  assert (Hrow' : 0 <= py * w + px) by nia.
  unfold pixel_at. rewrite !Hlk.
  destruct (decide (px = x + xi /\ py = y + yi)) as [[-> ->] | Hne].
  - repeat (destruct (decide _) as [Hd | Hd]; try lia; clear Hd).
    reflexivity.
  - assert (Hdiff : py * w + px <> (y + yi) * w + (x + xi)).
    { intros He. apply row_column_unique in He; [| lia | lia]. lia. }
    repeat (destruct (decide _) as [Hd | Hd]; try lia; clear Hd).
    reflexivity.
Qed.

Lemma tile_pixels_NoDup : List.NoDup tile_pixels.
Proof.
  apply (NoDup_ListNoDup tile_pixels).
  apply (bool_decide_unpack _). vm_compute. exact I.
Qed.

(** A tile drawn pixel by pixel: the loop over the pixels [l] of a tile
    leaves each of them in the colour computed for it, and every other
    pixel as it was. *)
Lemma for_each_pixels (src : Z * Z -> option (Z * Z * Z * Z))
    (x y w hh : Z) (l : list (Z * Z)) (tb tb' : list Z) :
  0 <= y -> y + 8 <= hh -> 0 <= x -> x + 8 <= w -> w * hh * 4 < 2 ^ 32 ->
  List.NoDup l -> (forall p, In p l -> 0 <= p.1 < 8 /\ 0 <= p.2 < 8) ->
  for_each (fun t p => c ← src p;
                       put_pixel t x y w p.2 p.1 c.1.1.1 c.1.1.2 c.1.2 c.2) l tb
    = Some tb' ->
  (forall p, In p l ->
     exists c, src p = Some c /\
       pixel_at tb' w (x + p.2) (y + p.1)
       = Some (u8 c.1.1.1, u8 c.1.1.2, u8 c.1.2, u8 c.2)) /\
  (forall px py, 0 <= px < w -> 0 <= py ->
     (forall p, In p l -> ~ (px = x + p.2 /\ py = y + p.1)) ->
     pixel_at tb' w px py = pixel_at tb w px py).
Proof.
  intros Hy0 Hy1 Hx0 Hx1 Hwh. revert tb.
  induction l as [| a l IH]; intros tb Hnd Hrng Hrun.
  - simpl in Hrun. injection Hrun as <-. split; [intros p [] | reflexivity].
  - cbn [for_each] in Hrun.
    destruct (src a) as [c |] eqn:Hsrc; [| discriminate Hrun].
    cbn [mbind option_bind] in Hrun.
    destruct (put_pixel tb x y w a.2 a.1 _ _ _ _) as [t1 |] eqn:Hput; [| discriminate Hrun].
    cbn [mbind option_bind] in Hrun.
    inversion Hnd as [| ? ? Hnotin Hnd']; subst.
    destruct (IH t1 Hnd' (fun p Hp => Hrng p (or_intror Hp)) Hrun) as [IHin IHout].
    destruct (Hrng a (or_introl eq_refl)) as [Ha1 Ha2].
    assert (Hat : forall px py, 0 <= px < w -> 0 <= py ->
              pixel_at t1 w px py =
                if decide (px = x + a.2 /\ py = y + a.1)
                then Some (u8 c.1.1.1, u8 c.1.1.2, u8 c.1.2, u8 c.2)
                else pixel_at tb w px py).
    { intros px py Hpx Hpy.
      apply (put_pixel_at tb t1 x y w a.2 a.1 hh); try assumption; lia. }
    split.
    + intros p [<- | Hp].
      * exists c. split; [exact Hsrc |].
        rewrite IHout; [| lia | lia |].
        -- rewrite Hat by lia. rewrite decide_True by (split; reflexivity). reflexivity.
        -- intros p Hp [E2 E1]. apply Hnotin.
           destruct a as [a1 a2], p as [p1 p2]. simpl in E1, E2.
           replace a1 with p1 by lia. replace a2 with p2 by lia. exact Hp.
      * apply IHin. exact Hp.
    + intros px py Hpx Hpy Hout.
      rewrite IHout; [| exact Hpx | exact Hpy |].
      * rewrite Hat by assumption. rewrite decide_False; [reflexivity |].
        apply Hout. left. reflexivity.
      * intros p Hp. apply Hout. right. exact Hp.
Qed.

Lemma texel_8_range (buf : list byte) (le : bool) (p : Z * Z) (c : Z * Z * Z * Z) :
  texel_8 buf le p = Some c ->
  (u8 c.1.1.1, u8 c.1.1.2, u8 c.1.2, u8 c.2) = c.
Proof.
  unfold texel_8. destruct p as [yi xi]. intros Hc.
  destruct (if le then _ else _) as [d |]; [| discriminate Hc].
  cbn [mbind option_bind] in Hc.
  destruct (load_u8 buf (Z.to_nat d)) as [lum |] eqn:Hl; [| discriminate Hc].
  injection Hc as <-. apply load_u8_range in Hl. cbn [fst snd]. unfold u8.
  rewrite (Z.mod_small lum) by lia. reflexivity.
Qed.

Lemma texel_16_range (buf : list byte) (le : bool) (p : Z * Z) (c : Z * Z * Z * Z) :
  texel_16 buf le p = Some c ->
  (u8 c.1.1.1, u8 c.1.1.2, u8 c.1.2, u8 c.2) = c.
Proof.
  unfold texel_16. destruct p as [yi xi]. intros Hc.
  destruct (if le then _ else _) as [d |]; [| discriminate Hc].
  cbn [mbind option_bind] in Hc.
  destruct (load_rgb16 buf (d * 2) le) as [rgb16 |]; [| discriminate Hc].
  injection Hc as <-. cbn [fst snd]. unfold u8.
  assert (H5 : forall z, 0 <= Z.shiftl (Z.land z 0x1f) 3 < 256).
  { intros z. pose proof (land_mask_bound z 0x1f 5 ltac:(lia) ltac:(lia)).
    rewrite Z.shiftl_mul_pow2 by lia. lia. }
  rewrite !Z.mod_small; [reflexivity | ..]; try apply H5.
  destruct (negb _); lia.
Qed.

(** The pixels of a tile after the loop of a tile decoder. *)
Lemma draw_texture_tile_drawn (x y w hh : Z) (buf : list byte) (le : bool)
    (tb tb' : list Z) :
  0 <= y -> y + 8 <= hh -> 0 <= x -> x + 8 <= w -> w * hh * 4 < 2 ^ 32 ->
  (draw_texture_tile_8 x y buf w le tb = Some tb' ->
   tile_drawn (texel_8 buf le) x y w tb tb') /\
  (draw_texture_tile_16 x y buf w le tb = Some tb' ->
   tile_drawn (texel_16 buf le) x y w tb tb').
Proof.
  intros Hy0 Hy1 Hx0 Hx1 Hwh.
  assert (Hrng : forall p, In p tile_pixels -> 0 <= p.1 < 8 /\ 0 <= p.2 < 8).
  { intros [yi xi] Hp. apply tile_pixels_elem in Hp. exact Hp. }
  assert (Hgen : forall texel,
    for_each (fun t p => c ← texel p;
                put_pixel t x y w p.2 p.1 c.1.1.1 c.1.1.2 c.1.2 c.2) tile_pixels tb
      = Some tb' ->
    (forall p c, texel p = Some c -> (u8 c.1.1.1, u8 c.1.1.2, u8 c.1.2, u8 c.2) = c) ->
    tile_drawn texel x y w tb tb').
  { intros texel Hfor Hu8.
    destruct (for_each_pixels texel x y w hh tile_pixels tb tb'
                Hy0 Hy1 Hx0 Hx1 Hwh tile_pixels_NoDup Hrng Hfor) as [Hin Hout].
    split.
    - intros yi xi Hyi Hxi.
      destruct (Hin (yi, xi)) as (c & Hc & Hpx).
      { apply tile_pixels_elem. split; assumption. }
      exists c. split; [exact Hc |]. cbn [fst snd] in Hpx. rewrite Hpx.
      f_equal. apply (Hu8 _ _ Hc).
    - intros px py Hpx Hpy Hnot. apply Hout; [exact Hpx | exact Hpy |].
      intros p Hp [E1 E2]. apply Hnot. destruct (Hrng p Hp). lia. }
  split; intros Hrun.
  - apply Hgen; [| apply texel_8_range]. rewrite <- Hrun. unfold draw_texture_tile_8.
    apply for_each_ext. intros t [yi xi] _. unfold tile_8_pixel, texel_8.
    destruct (if le then _ else _) as [d |]; [| reflexivity]. cbn [mbind option_bind].
    destruct (load_u8 buf (Z.to_nat d)) as [lum |]; reflexivity.
  - apply Hgen; [| apply texel_16_range]. rewrite <- Hrun. unfold draw_texture_tile_16.
    apply for_each_ext. intros t [yi xi] _. unfold tile_16_pixel, texel_16.
    destruct (if le then _ else _) as [d |]; [| reflexivity]. cbn [mbind option_bind].
    destruct (load_rgb16 buf (d * 2) le) as [rgb16 |]; reflexivity.
Qed.

(** X15: what a tile decoder leaves in [texture_buffer].  For a tile
    that lies within the width of the image, a run of
    [draw_texture_tile_8] or [draw_texture_tile_16] that makes no store
    outside the buffer leaves every pixel of the tile in the colour
    computed from the texel that [decode] assigns to it, no store of a
    later pixel having touched it, and leaves every pixel outside the
    tile as it was. *)
Theorem draw_texture_tile_pixels (x y w hh : Z) (buf : list byte) (le : bool)
    (tb tb' : list Z) :
  0 <= y -> y + 8 <= hh -> 0 <= x -> x + 8 <= w -> w * hh * 4 < 2 ^ 32 ->
  (draw_texture_tile_8 x y buf w le tb = Some tb' ->
   tile_drawn (texel_8 buf le) x y w tb tb') /\
  (draw_texture_tile_16 x y buf w le tb = Some tb' ->
   tile_drawn (texel_16 buf le) x y w tb tb').
Proof. exact (draw_texture_tile_drawn x y w hh buf le tb tb'). Qed.

Lemma draw_texture_tile_pixels_witness :
  tile_drawn (texel_8 sample_tile false) 0 0 8 (replicate 256 0) sample_tile_drawn.
Proof.
  refine (proj1 (draw_texture_tile_pixels 0 0 8 8 sample_tile false (replicate 256 0)
                   sample_tile_drawn _ _ _ _ _) _).
  - lia.
  - lia.
  - lia.
  - lia.
  - lia.
  - vm_compute. reflexivity.
Defined.

(** ** The pixels of a texture *)

Lemma lookup_bind_blocks {A B : Type} (f : A -> list B) (m : nat) (l : list A) (k : nat) :
  (forall a, length (f a) = m) -> m <> 0%nat ->
  (l ≫= f) !! k = l !! (k / m)%nat ≫= fun a => f a !! (k mod m)%nat.
Proof.
  intros Hlen Hm. revert k. induction l as [| a l IH]; intros k; [reflexivity |].
  rewrite bind_cons. destruct (Nat.lt_ge_cases k m) as [Hk | Hk].
  - rewrite lookup_app_l by (rewrite Hlen; exact Hk).
    rewrite Nat.div_small, Nat.mod_small by exact Hk. reflexivity.
  - rewrite lookup_app_r by (rewrite Hlen; exact Hk). rewrite Hlen, IH.
    assert (Hd : (k / m = S ((k - m) / m))%nat).
    { replace k with ((k - m) + 1 * m)%nat at 1 by lia.
      rewrite Nat.div_add by exact Hm. lia. }
    assert (Hmo : (k mod m = (k - m) mod m)%nat).
    { replace k with ((k - m) + 1 * m)%nat at 1 by lia. apply Nat.Div0.mod_add. }
    rewrite Hd, Hmo. reflexivity.
Qed.

Lemma steps_of_8_lookup (n : Z) (i : nat) :
  0 <= n -> Z.of_nat i < n -> steps_of_8 (8 * n) !! i = Some (8 * Z.of_nat i).
Proof.
  intros Hn Hi. unfold steps_of_8.
  replace ((8 * n + 7) / 8) with n by (apply (Z.div_unique _ _ _ 7); lia).
  rewrite list_lookup_fmap, lookup_seqZ_lt by lia. reflexivity.
Qed.

Lemma tile_origins_lookup (w h : Z) (k : nat) :
  0 < w <= 64 -> 0 <= h <= 64 -> Z.of_nat k < w * h ->
  tile_origins w h !! k = Some (8 * (Z.of_nat k / w), 8 * (Z.of_nat k mod w)).
Proof.
  intros Hw Hh Hk. unfold tile_origins, u32. rewrite !Z.mod_small by lia.
  replace (h * 8) with (8 * h) by lia. replace (w * 8) with (8 * w) by lia.
  rewrite (lookup_bind_blocks _ (Z.to_nat w)).
  2: { intros yi. rewrite <- (steps_of_8_length w) by lia.
       induction (steps_of_8 (8 * w)) as [| x l IH]; [reflexivity |].
       rewrite bind_cons, length_app, IH. reflexivity. }
  2: lia.
  assert (Hq : Z.of_nat (k / Z.to_nat w) = Z.of_nat k / w).
  { rewrite Nat2Z.inj_div, Z2Nat.id by lia. reflexivity. }
  assert (Hr : Z.of_nat (k mod Z.to_nat w) = Z.of_nat k mod w).
  { rewrite Nat2Z.inj_mod, Z2Nat.id by lia. reflexivity. }
  pose proof (Z.mod_pos_bound (Z.of_nat k) w ltac:(lia)) as Bm.
  assert (Bq : 0 <= Z.of_nat k / w < h).
  { split; [apply Z.div_pos; lia | apply Z.div_lt_upper_bound; nia]. }
  rewrite steps_of_8_lookup by lia. cbn [mbind option_bind].
  rewrite (lookup_bind_blocks _ 1%nat) by (intros; reflexivity || lia).
  rewrite Nat.div_1_r, steps_of_8_lookup by lia. cbn [mbind option_bind].
  rewrite Nat.mod_1_r. cbn [lookup list_lookup]. rewrite Hq, Hr. reflexivity.
Qed.

(** Tiles drawn one after the other: each tile of the list holds, at
    the end, the texels of its own 64-texel share of the source data,
    and no pixel outside the tiles has changed. *)
Lemma for_each_tiles
    (step : list Z * list byte -> Z * Z -> option (list Z * list byte))
    (texel : list byte -> Z * Z -> option (Z * Z * Z * Z)) (sz : nat) (W HH : Z)
    (l : list (Z * Z)) (tb : list Z) (buf : list byte) (s' : list Z * list byte) :
  (forall tb buf y x s1, step (tb, buf) (y, x) = Some s1 ->
     0 <= y -> y + 8 <= HH -> 0 <= x -> x + 8 <= W ->
     tile_drawn (texel buf) x y W tb s1.1 /\ s1.2 = drop sz buf) ->
  (forall i j p, l !! i = Some p -> l !! j = Some p -> i = j) ->
  (forall p, In p l -> exists a b,
     p = (8 * a, 8 * b) /\ 0 <= a /\ 8 * a + 8 <= HH /\ 0 <= b /\ 8 * b + 8 <= W) ->
  for_each step l (tb, buf) = Some s' ->
  (forall k y x yi xi, l !! k = Some (y, x) -> 0 <= yi < 8 -> 0 <= xi < 8 ->
     exists c, texel (drop (sz * k) buf) (yi, xi) = Some c /\
               pixel_at s'.1 W (x + xi) (y + yi) = Some c) /\
  (forall px py, 0 <= px < W -> 0 <= py ->
     (forall p, In p l -> ~ (p.2 <= px < p.2 + 8 /\ p.1 <= py < p.1 + 8)) ->
     pixel_at s'.1 W px py = pixel_at tb W px py).
Proof.
  intros Hstep. revert tb buf.
  induction l as [| [y0 x0] l IH]; intros tb buf Hnd Horig Hrun.
  - simpl in Hrun. injection Hrun as <-. split; [| reflexivity].
    intros k y x yi xi Hk. discriminate Hk.
  - cbn [for_each] in Hrun.
    destruct (step (tb, buf) (y0, x0)) as [[tb1 buf1] |] eqn:Hs; [| discriminate Hrun].
    cbn [mbind option_bind] in Hrun.
    destruct (Horig (y0, x0) (or_introl eq_refl)) as (a0 & b0 & E0 & Ha0 & Ha0' & Hb0 & Hb0').
    injection E0 as -> ->.
    destruct (Hstep tb buf _ _ _ Hs ltac:(lia) ltac:(lia) ltac:(lia) ltac:(lia)) as [[Hin0 Hout0] Hbuf1].
    cbn [fst snd] in Hin0, Hout0, Hbuf1. subst buf1.
    destruct (IH tb1 (drop sz buf)) as [IHin IHout].
    { intros i j p Hi Hj. assert (S i = S j) by (apply (Hnd _ _ p); assumption). lia. }
    { intros p Hp. apply Horig. right. exact Hp. }
    { exact Hrun. }
    assert (Hfresh : forall p, In p l -> p <> (8 * a0, 8 * b0)).
    { intros p Hp ->. rewrite <- list_elem_of_In in Hp.
      apply list_elem_of_lookup in Hp. destruct Hp as [i Hi].
      assert (S i = 0%nat) by (apply (Hnd _ _ (8 * a0, 8 * b0)); [exact Hi | reflexivity]).
      lia. }
    split.
    + intros k y x yi xi Hk Hyi Hxi. destruct k as [| k].
      * injection Hk as <- <-. rewrite Nat.mul_0_r, drop_0.
        destruct (Hin0 yi xi Hyi Hxi) as (c & Hc & Hpx).
        exists c. split; [exact Hc |]. rewrite IHout; [exact Hpx | lia | lia |].
        intros p Hp Hsq. destruct (Horig p (or_intror Hp)) as (a & b & -> & Ha & Ha' & Hb & Hb').
        cbn [fst snd] in Hsq. apply (Hfresh _ Hp).
        replace a with a0 by lia. replace b with b0 by lia. reflexivity.
      * destruct (IHin k y x yi xi Hk Hyi Hxi) as (c & Hc & Hpx).
        exists c. split; [| exact Hpx].
        rewrite drop_drop in Hc. replace (sz * S k)%nat with (sz + sz * k)%nat by lia.
        exact Hc.
    + intros px py Hpx Hpy Hout.
      rewrite IHout; [| exact Hpx | exact Hpy |].
      * apply Hout0; [exact Hpx | exact Hpy |].
        specialize (Hout _ (or_introl eq_refl)). cbn [fst snd] in Hout. lia.
      * intros p Hp. apply Hout. right. exact Hp.
Qed.

(** X16: what [draw_texture_8] and [draw_texture_16] leave in
    [texture_buffer].  The tiles of the source data are laid out row by
    row: after a run that makes no store outside the buffer, the pixel
    in row [yi], column [xi] of the tile in row [ty], column [tx] of the
    image holds the colour computed from the [(ty * w + tx)]-th block of
    64 texels of the data, no later tile having overwritten it. *)
Theorem draw_texture_pixels (w h : Z) (buf : list byte) (le : bool) (tb tb' : list Z) :
  0 <= w <= 64 -> 0 <= h <= 64 ->
  (draw_texture_8 w h buf le tb = Some tb' ->
   texture_drawn (fun b => texel_8 b le) (8 * 8) w h buf tb') /\
  (draw_texture_16 w h buf le tb = Some tb' ->
   texture_drawn (fun b => texel_16 b le) (8 * 8 * 2) w h buf tb').
Proof.
  intros Hw Hh.
  assert (Hu : u32 (w * 8) = w * 8) by (unfold u32; apply Z.mod_small; lia).
  destruct (tile_origins_spec w h ltac:(lia) ltac:(lia) ltac:(lia) ltac:(lia))
    as [Hor Hlen].
  assert (Hnd : forall i j p, tile_origins w h !! i = Some p ->
                  tile_origins w h !! j = Some p -> i = j).
  { intros i j p Hi Hj.
    pose proof (lookup_lt_Some _ _ _ Hi) as Li. pose proof (lookup_lt_Some _ _ _ Hj) as Lj.
    rewrite Hlen in Li, Lj.
    assert (0 < w) by nia.
    rewrite tile_origins_lookup in Hi, Hj by nia.
    rewrite <- Hj in Hi. injection Hi as Ed Em.
    pose proof (Z.div_mod (Z.of_nat i) w ltac:(lia)).
    pose proof (Z.div_mod (Z.of_nat j) w ltac:(lia)). nia. }
  assert (Horig : forall p, In p (tile_origins w h) -> exists a b,
            p = (8 * a, 8 * b) /\ 0 <= a /\ 8 * a + 8 <= h * 8 /\ 0 <= b /\
            8 * b + 8 <= w * 8).
  { intros [yi xi] Hp. destruct (Hor yi xi Hp) as (ky & kx & Hky & Hkx & -> & ->).
    exists ky, kx. split; [reflexivity | lia]. }
  assert (Hgen : forall step texel (sz : nat) s',
    (forall tb buf y x s1, step (tb, buf) (y, x) = Some s1 ->
       0 <= y -> y + 8 <= h * 8 -> 0 <= x -> x + 8 <= w * 8 ->
       tile_drawn (texel buf) x y (w * 8) tb s1.1 /\ s1.2 = drop sz buf) ->
    for_each step (tile_origins w h) (tb, buf) = Some s' ->
    texture_drawn texel (Z.of_nat sz) w h buf s'.1).
  { intros step texel sz s' Hstep Hrun.
    destruct (for_each_tiles step texel sz (w * 8) (h * 8) (tile_origins w h) tb buf s'
                Hstep Hnd Horig Hrun) as [Hin _].
    intros ty tx yi xi Hty Htx Hyi Hxi.
    assert (Hk : tile_origins w h !! Z.to_nat (ty * w + tx) = Some (8 * ty, 8 * tx)).
    { rewrite tile_origins_lookup by nia. rewrite Z2Nat.id by nia.
      rewrite <- (Z.div_unique (ty * w + tx) w ty tx) by lia.
      rewrite <- (Z.mod_unique (ty * w + tx) w ty tx) by lia. reflexivity. }
    destruct (Hin _ _ _ yi xi Hk Hyi Hxi) as (c & Hc & Hpx).
    exists c. split; [| exact Hpx].
    replace (Z.to_nat (Z.of_nat sz * (ty * w + tx)))
      with (sz * Z.to_nat (ty * w + tx))%nat by nia.
    exact Hc. }
  split; intros Hrun.
  - unfold draw_texture_8 in Hrun.
    destruct (for_each _ _ (tb, buf)) as [s' |] eqn:Hfor; [| discriminate Hrun].
    injection Hrun as <-.
    apply (Hgen _ (fun b => texel_8 b le) (8 * 8)%nat s' ) in Hfor; [exact Hfor |].
    intros tb0 buf0 y x s1 Hs Hy0 Hy1 Hx0 Hx1. unfold draw_texture_8_tile in Hs.
    rewrite Hu in Hs.
    destruct (draw_texture_tile_8 x y buf0 (w * 8) le tb0) as [tb1 |] eqn:Ht;
      [| discriminate Hs].
    injection Hs as <-. split; [| reflexivity].
    apply (proj1 (draw_texture_tile_drawn x y (w * 8) (h * 8) buf0 le tb0 tb1
                    Hy0 Hy1 Hx0 Hx1 ltac:(nia))). exact Ht.
  - unfold draw_texture_16 in Hrun.
    destruct (for_each _ _ (tb, buf)) as [s' |] eqn:Hfor; [| discriminate Hrun].
    injection Hrun as <-.
    apply (Hgen _ (fun b => texel_16 b le) (8 * 8 * 2)%nat s') in Hfor; [exact Hfor |].
    intros tb0 buf0 y x s1 Hs Hy0 Hy1 Hx0 Hx1. unfold draw_texture_16_tile in Hs.
    rewrite Hu in Hs.
    destruct (draw_texture_tile_16 x y buf0 (w * 8) le tb0) as [tb1 |] eqn:Ht;
      [| discriminate Hs].
    injection Hs as <-. split; [| reflexivity].
    apply (proj2 (draw_texture_tile_drawn x y (w * 8) (h * 8) buf0 le tb0 tb1
                    Hy0 Hy1 Hx0 Hx1 ltac:(nia))). exact Ht.
Qed.

Lemma draw_texture_pixels_witness :
  texture_drawn (fun b => texel_8 b false) (8 * 8) 2 2 sample_tiles sample_texture_drawn.
Proof.
  refine (proj1 (draw_texture_pixels 2 2 sample_tiles false (replicate 1024 0)
                   sample_texture_drawn _ _) _).
  - lia.
  - lia.
  - vm_compute. reflexivity.
Defined.
